(** * koll: a shallow embedding of the telemetry recorder

    The development follows the layout of the TypeScript sources:

    - [Js], [JsString], [JsError]   the JavaScript built-ins the sources use
    - [Data]                        utils/data.ts
    - [Protocol], [Configure]       protocol.ts, configure.ts
    - [Context]                     context.ts
    - [Pausable]                    exporters/pausable.ts
    - [Batching]                    exporters/batching.ts
    - [Faro]                        exporters/faro.ts, the function [collect]

    State is passed explicitly: a pipeline stage is a function on the
    variables of its closure, the functions of context.ts are functions on a
    [World] that holds the clock, the random source and the calls made to
    export functions, and they end in an [Outcome], a result or a thrown
    error.

    Part I holds the definitions, Part II the properties. *)

From Stdlib Require Import List ZArith NArith Lia Bool String Ascii.
From Stdlib Require Import DecimalString.
From Stdlib Require PrimFloat Uint63.
From Stdlib Require DecimalFacts DecimalZ DecimalPos.
Import ListNotations.

Set Implicit Arguments.
Local Open Scope Z_scope.

(* ================================================================== *)
(** * Part I: definitions *)
(* ================================================================== *)

(** ** JavaScript built-ins *)

Module Js.

(** [a ?? b]: the right operand is taken only when the left one is
    [undefined] or [null]. *)
Definition nullish {A : Type} (a : option A) (b : A) : A :=
  match a with
  | Some v => v
  | None => b
  end.

(** [Array.prototype.splice(0, n)] on a list: the removed prefix and what
    stays in the array.  The delete count is clamped to [0 .. length], which
    is what [Z.to_nat] and [firstn]/[skipn] do. *)
Definition splice0 {A : Type} (n : Z) (l : list A) : list A * list A :=
  (firstn (Z.to_nat n) l, skipn (Z.to_nat n) l).

(** [array.length] as a JavaScript number. *)
Definition len {A : Type} (l : list A) : Z := Z.of_nat (List.length l).

(** Truthiness of [array.length]. *)
Definition nonempty {A : Type} (l : list A) : bool :=
  match l with
  | [] => false
  | _ :: _ => true
  end.

End Js.

Infix "??" := Js.nullish (at level 45, left associativity).

(** ** JavaScript strings and numbers

    A string is a sequence of code units; the development uses the code
    units 0..255, which cover every string the sources build. *)

Module JsString.

Local Open Scope string_scope.
Local Open Scope N_scope.

Definition hexDigit (d : N) : ascii :=
  match d with
  | 0 => "0" | 1 => "1" | 2 => "2" | 3 => "3" | 4 => "4"
  | 5 => "5" | 6 => "6" | 7 => "7" | 8 => "8" | 9 => "9"
  | 10 => "a" | 11 => "b" | 12 => "c" | 13 => "d" | 14 => "e"
  | _ => "f"
  end%char.

(** The digits of [n] in base 16, most significant first, in front of
    [acc]; [fuel] bounds the number of digits. *)
Fixpoint hexDigits (fuel : nat) (n : N) (acc : string) : string :=
  match fuel with
  | O => acc
  | S fuel' =>
      let acc' := String (hexDigit (n mod 16)) acc in
      if n / 16 =? 0 then acc' else hexDigits fuel' (n / 16) acc'
  end.

(** [n.toString(16)] for a non-negative integer [n]. *)
Definition toString16 (n : N) : string :=
  hexDigits (S (N.to_nat (N.log2 n))) n "".

Fixpoint replicate (n : nat) (c : ascii) : string :=
  match n with
  | O => ""
  | S n' => String c (replicate n' c)
  end.

(** [s.padStart(targetLength, c)] with a filler of one code unit. *)
Definition padStart (targetLength : nat) (c : ascii) (s : string) : string :=
  replicate (targetLength - String.length s) c ++ s.

(** [String(n)] for an integer [n] (below 1e21 in absolute value, where
    JavaScript prints every digit). *)
Definition ofInteger (n : Z) : string := NilZero.string_of_int (Z.to_int n).

(** [String(b)] and [Number(b)] for a boolean. *)
Definition numberOfBool (b : bool) : N := if b then 1 else 0.

(** [s.split(sep)] with a separator of one code unit. *)
Fixpoint split (sep : ascii) (s : string) : list string :=
  match s with
  | "" => [""]
  | String c s' =>
      if Ascii.eqb c sep then "" :: split sep s'
      else
        match split sep s' with
        | [] => [String c ""]
        | p :: ps => String c p :: ps
        end
  end.

(** [a || b] on a possibly missing string: [undefined] and the empty
    string are falsy. *)
Definition orElse (a : option string) (b : string) : string :=
  match a with
  | None | Some "" => b
  | Some s => s
  end.

(** White space that [parseInt] skips (TAB, LF, VT, FF, CR, SP, NBSP). *)
Definition isWhiteSpace (c : ascii) : bool :=
  let n := N_of_ascii c in
  (n =? 9) || (n =? 10) || (n =? 11) || (n =? 12) || (n =? 13) || (n =? 32) || (n =? 160).

Fixpoint trimStart (s : string) : string :=
  match s with
  | "" => ""
  | String c s' => if isWhiteSpace c then trimStart s' else s
  end.

(** The value of a hexadecimal digit, in either case. *)
Definition hexValue (c : ascii) : option Z :=
  let n := N_of_ascii c in
  if (48 <=? n) && (n <=? 57) then Some (Z.of_N (n - 48))
  else if (97 <=? n) && (n <=? 102) then Some (Z.of_N (n - 87))
  else if (65 <=? n) && (n <=? 70) then Some (Z.of_N (n - 55))
  else None.

(** The value of the longest prefix of hexadecimal digits; [acc] is the
    value read so far, [None] while no digit was read. *)
Fixpoint hexPrefix (s : string) (acc : option Z) : option Z :=
  match s with
  | "" => acc
  | String c s' =>
      match hexValue c with
      | Some d => hexPrefix s' (Some (16 * (acc ?? 0) + d)%Z)
      | None => acc
      end
  end.

(** [parseInt(s, 16)]: the mathematical integer the digits denote, [None]
    for [NaN].  Leading white space, a sign and a [0x] prefix are skipped,
    and reading stops at the first code unit that is not a digit.  The
    Number that JavaScript returns is this integer rounded to a double. *)
Definition parseInt16 (s : string) : option Z :=
  let s1 := trimStart s in
  let '(sign, s2) :=
    match s1 with
    | String "-" r => ((-1)%Z, r)
    | String "+" r => (1%Z, r)
    | _ => (1%Z, s1)
    end in
  let s3 :=
    match s2 with
    | String "0" (String "x" r) => r
    | String "0" (String "X" r) => r
    | _ => s2
    end in
  option_map (Z.mul sign) (hexPrefix s3 None).

(** [!!(flags & 1)] where [flags] is the result of [parseInt]: [NaN & 1]
    is 0, and an integer of absolute value 2^53 or more is rounded to an
    even double (or to an infinity, which [&] reads as 0). *)
Definition lowBit (flags : option Z) : bool :=
  match flags with
  | None => false
  | Some n => (Z.abs n <? 2 ^ 53)%Z && Z.odd n
  end.

(** [s] has no code unit [c]. *)
Fixpoint avoids (c : ascii) (s : string) : bool :=
  match s with
  | "" => true
  | String x s' => negb (Ascii.eqb x c) && avoids c s'
  end.

(** Every code unit of [s] is one of [0-9a-f]. *)
Fixpoint allHex (s : string) : bool :=
  match s with
  | "" => true
  | String x s' =>
      let n := N_of_ascii x in
      (((48 <=? n) && (n <=? 57)) || ((97 <=? n) && (n <=? 102)))%N && allHex s'
  end.

End JsString.

(** ** utils/data.ts, and the two sources of non-determinism it reads *)

Module Data.

(** [Date.now()] and [Math.random()] are oracles: the [k]-th call of
    [Date.now()] returns [dateNow k], and the [k]-th evaluation of
    [(Math.random() * 0xff) | 0] is [randomByte k mod 255], an integer from
    0 to 254 since [Math.random()] is below 1. *)
Record Runtime : Type := {
  dateNow : nat -> Z;
  ticks : nat;
  randomByte : nat -> N;
  draws : nat
}.

Definition tick (rt : Runtime) : Z * Runtime :=
  (dateNow rt (ticks rt),
   {| dateNow := dateNow rt; ticks := S (ticks rt);
      randomByte := randomByte rt; draws := draws rt |}).

Definition draw (rt : Runtime) : N * Runtime :=
  ((randomByte rt (draws rt) mod 255)%N,
   {| dateNow := dateNow rt; ticks := ticks rt;
      randomByte := randomByte rt; draws := S (draws rt) |}).

(** [id(length)] *)
Fixpoint id (length : nat) (rt : Runtime) : string * Runtime :=
  match length with
  | O => (EmptyString, rt)
  | S length' =>
      let '(b, rt1) := draw rt in
      let '(rest, rt2) := id length' rt1 in
      (String.append (JsString.padStart 2 "0" (JsString.toString16 b)) rest, rt2)
  end.

(** [millitime(time)] *)
Definition millitime (time : Z) : string :=
  String.append (JsString.ofInteger time) "000000".

(** [now()] *)
Definition now (rt : Runtime) : string * Runtime :=
  let '(t, rt1) := tick rt in (millitime t, rt1).

End Data.

(** ** protocol.ts and configure.ts: the telemetry records *)

Module Protocol.

(** A field typed [string | number]. *)
Inductive NumberOrString : Type :=
| Num (x : PrimFloat.float)
| Str (s : string).

#[local] Set Warnings "-register-all".

Inductive AnyValue : Type := mkAnyValue {
  stringValue : option string;
  boolValue : option bool;
  intValue : option NumberOrString;
  doubleValue : option NumberOrString;
  arrayValue : option (list AnyValue);
  kvlistValue : option (list KeyValue);
  bytesValue : option string
}
with KeyValue : Type := mkKeyValue {
  key : string;
  value : AnyValue
}.

#[local] Set Warnings "+register-all".

(** [{ stringValue: s }] *)
Definition ofString (s : string) : AnyValue :=
  {| stringValue := Some s; boolValue := None; intValue := None; doubleValue := None;
     arrayValue := None; kvlistValue := None; bytesValue := None |}.

Inductive InstrumentationScope : Type :=
| ScopeName (name : string)
| ScopeObject (name : string) (version : option string) (attributes : option (list KeyValue)).

Record SpanStatus : Type := {
  message : string;
  code : Z
}.

Record SpanEvent : Type := {
  ev_timeUnixNano : string;
  ev_name : string;
  ev_attributes : option (list KeyValue)
}.

(** A span with the fields that [makeSpan] fills in. *)
Record Span : Type := {
  traceId : string;
  spanId : string;
  parentSpanId : option string;
  name : string;
  kind : Z;
  startTimeUnixNano : string;
  endTimeUnixNano : string;
  attributes : list KeyValue;
  events : list SpanEvent;
  status : SpanStatus;
  sample : bool
}.

(** [Partial<Span>], the [details] of a span. *)
Record PartialSpan : Type := {
  d_traceId : option string;
  d_spanId : option string;
  d_parentSpanId : option string;
  d_name : option string;
  d_kind : option Z;
  d_startTimeUnixNano : option string;
  d_endTimeUnixNano : option string;
  d_attributes : option (list KeyValue);
  d_events : option (list SpanEvent);
  d_status : option SpanStatus;
  d_sample : option bool
}.

Record LogRecord : Type := {
  timeUnixNano : string;
  observedTimeUnixNano : option string;
  severityNumber : option Z;
  severityText : option string;
  body : option AnyValue;
  logAttributes : option (list KeyValue);
  droppedAttributesCount : option Z;
  flags : option Z;
  logTraceId : option string;
  logSpanId : option string
}.

(** [Partial<LogRecord>] *)
Record PartialLogRecord : Type := {
  r_timeUnixNano : option string;
  r_observedTimeUnixNano : option string;
  r_severityNumber : option Z;
  r_severityText : option string;
  r_body : option AnyValue;
  r_attributes : option (list KeyValue);
  r_droppedAttributesCount : option Z;
  r_flags : option Z;
  r_traceId : option string;
  r_spanId : option string
}.

Record NumberDataPoint : Type := {
  dp_timeUnixNano : string;
  asDouble : option NumberOrString;
  asInt : option NumberOrString
}.

(** A metric; of [data], only [data.gauge.dataPoints] is read or written
    by the sources. *)
Record Metric : Type := {
  metricName : string;
  metricUnit : option string;
  gauge : option (list NumberDataPoint)
}.

(** A parent given as an object.  The fields are read with [?.] and [??]
    by the sources, so an object may lack them. *)
Record ParentSpanObject : Type := {
  p_traceId : option string;
  p_spanId : option string;
  p_sample : option bool
}.

(** [ParentSpanObject | string | null | undefined] *)
Inductive ParentSpan : Type :=
| ParentObject (o : ParentSpanObject)
| ParentString (s : string)
| ParentAbsent.

End Protocol.

Module Configure.

Record ExportItem : Type := {
  scope : Protocol.InstrumentationScope;
  context : option Protocol.AnyValue;
  span : option Protocol.Span;
  log : option Protocol.LogRecord;
  metric : option Protocol.Metric
}.

End Configure.

(** ** JavaScript errors *)

Module JsError.

Local Open Scope string_scope.

(** An [Error] object: [name] and [message] are strings, [stack] is there
    on the engines that provide it. *)
Record Error : Type := {
  name : string;
  message : string;
  stack : option string
}.

(** [String(error)], that is [Error.prototype.toString]. *)
Definition toString (e : Error) : string :=
  if String.eqb (name e) "" then message e
  else if String.eqb (message e) "" then name e
  else name e ++ ": " ++ message e.

End JsError.

(** ** context.ts: spans, logs, measurements and the tracer *)

Module Context.

Import Protocol.
Local Open Scope string_scope.

(** An export function, seen from its caller: the call completes ([None])
    or it throws, or returns a promise that rejects, with an error. *)
Definition ExportFunction : Type := list Configure.ExportItem -> option JsError.Error.

(** What the functions of this module read and write besides their
    arguments: the clock and the random source, and the calls made to
    export functions so far, oldest first. *)
Record World : Type := {
  runtime : Data.Runtime;
  exported : list (list Configure.ExportItem)
}.

Definition setRuntime (rt : Data.Runtime) (w : World) : World :=
  {| runtime := rt; exported := exported w |}.

(** How an awaited call ends. *)
Inductive Outcome (T : Type) : Type :=
| Returned (v : T)
| Thrown (ex : JsError.Error).

Arguments Returned {T} v.
Arguments Thrown {T} ex.

(** An [async] function that is awaited by its caller. *)
Definition Async (T : Type) : Type := World -> Outcome T * World.

(** The error of calling [null] or [undefined]. *)
Definition notAFunction : JsError.Error :=
  {| JsError.name := "TypeError";
     JsError.message := "exporter is not a function";
     JsError.stack := None |}.

(** [await exporter(item)], after [item] has been evaluated. *)
Definition callExporter (exporter : option ExportFunction) (items : list Configure.ExportItem)
  : Async unit :=
  fun w =>
    match exporter with
    | None => (Thrown notAFunction, w)
    | Some f =>
        (match f items with
         | None => Returned tt
         | Some ex => Thrown ex
         end,
         {| runtime := runtime w; exported := exported w ++ [items] |})
    end.

(** The object built by [makeParentObj]. *)
Record ParentObj : Type := {
  version : option Z;
  po_traceId : option string;
  po_spanId : option string;
  po_sample : bool
}.

Definition makeParentObj (span : ParentSpan) : option ParentObj :=
  match span with
  | ParentString s =>
      let parts := JsString.split "-" s in
      let flags := JsString.parseInt16 (JsString.orElse (nth_error parts 3) "0") in
      Some {| version := JsString.parseInt16 (JsString.orElse (nth_error parts 0) "0");
              po_traceId := nth_error parts 1;
              po_spanId := nth_error parts 2;
              po_sample := JsString.lowBit flags |}
  | ParentObject o =>
      Some {| version := Some 0;
              po_traceId := p_traceId o;
              po_spanId := p_spanId o;
              po_sample := p_sample o ?? false |}
  | ParentAbsent => None
  end.

(** [{ ...span, ...details }] *)
Definition overlaySpan (s : Span) (details : option PartialSpan) : Span :=
  match details with
  | None => s
  | Some d =>
      {| traceId := d_traceId d ?? traceId s;
         spanId := d_spanId d ?? spanId s;
         parentSpanId := match d_parentSpanId d with
                         | Some p => Some p
                         | None => parentSpanId s
                         end;
         name := d_name d ?? name s;
         kind := d_kind d ?? kind s;
         startTimeUnixNano := d_startTimeUnixNano d ?? startTimeUnixNano s;
         endTimeUnixNano := d_endTimeUnixNano d ?? endTimeUnixNano s;
         attributes := d_attributes d ?? attributes s;
         events := d_events d ?? events s;
         status := d_status d ?? status s;
         sample := d_sample d ?? sample s |}
  end.

Definition makeSpan (parent : ParentSpan) (details : option PartialSpan) (w : World)
  : Span * World :=
  let parentObj := makeParentObj parent in
  let '(timestamp, rt) := Data.now (runtime w) in
  let '(traceId', rt) :=
    match parentObj with
    | Some {| po_traceId := Some t |} => (t, rt)
    | _ => Data.id 16 rt
    end in
  let '(spanId', rt) := Data.id 8 rt in
  (overlaySpan
     {| startTimeUnixNano := timestamp;
        endTimeUnixNano := timestamp;
        parentSpanId := match parentObj with
                        | Some p => po_spanId p
                        | None => None
                        end;
        traceId := traceId';
        sample := option_map po_sample parentObj ?? true;
        spanId := spanId';
        kind := 1;
        name := "";
        status := {| message := "OK"; code := 1 |};
        attributes := [];
        events := [] |}
     details,
   setRuntime rt w).

Definition span (exporter : option ExportFunction) (scope : InstrumentationScope)
  (parent : ParentSpan) (details : option PartialSpan) : Async unit :=
  fun w =>
    let '(s, w) := makeSpan parent details w in
    callExporter exporter
      [{| Configure.scope := scope; Configure.context := None;
          Configure.span := Some s; Configure.log := None; Configure.metric := None |}] w.

(** [{ ...record, ...(log ?? {}) }] *)
Definition overlayLog (r : LogRecord) (log : option PartialLogRecord) : LogRecord :=
  match log with
  | None => r
  | Some l =>
      let keep {A : Type} (new old : option A) : option A :=
        match new with
        | Some v => Some v
        | None => old
        end in
      {| timeUnixNano := r_timeUnixNano l ?? timeUnixNano r;
         observedTimeUnixNano := keep (r_observedTimeUnixNano l) (observedTimeUnixNano r);
         severityNumber := keep (r_severityNumber l) (severityNumber r);
         severityText := keep (r_severityText l) (severityText r);
         body := keep (r_body l) (body r);
         logAttributes := keep (r_attributes l) (logAttributes r);
         droppedAttributesCount := keep (r_droppedAttributesCount l) (droppedAttributesCount r);
         flags := keep (r_flags l) (flags r);
         logTraceId := keep (r_traceId l) (logTraceId r);
         logSpanId := keep (r_spanId l) (logSpanId r) |}
  end.

Definition log (exporter : option ExportFunction) (scope : InstrumentationScope)
  (severity : Z) (message : string) (parent : ParentSpan) (log : option PartialLogRecord)
  : Async unit :=
  fun w =>
    let parentObj := makeParentObj parent in
    let '(t, rt) := Data.now (runtime w) in
    callExporter exporter
      [{| Configure.scope := scope; Configure.context := None; Configure.span := None;
          Configure.log :=
            Some (overlayLog
                    {| severityNumber := Some severity;
                       timeUnixNano := t;
                       body := Some (ofString message);
                       logTraceId := match parentObj with
                                     | Some p => po_traceId p
                                     | None => None
                                     end;
                       logSpanId := match parentObj with
                                    | Some p => po_spanId p
                                    | None => None
                                    end;
                       observedTimeUnixNano := None; severityText := None;
                       logAttributes := None; droppedAttributesCount := None;
                       flags := None |}
                    log);
          Configure.metric := None |}]
      (setRuntime rt w).

Definition measurement (exporter : option ExportFunction) (scope : InstrumentationScope)
  (name unit : string) (value : PrimFloat.float) (context : option AnyValue)
  : Async Datatypes.unit :=
  fun w =>
    let '(t, rt) := Data.now (runtime w) in
    callExporter exporter
      [{| Configure.scope := scope; Configure.context := context;
          Configure.span := None; Configure.log := None;
          Configure.metric :=
            Some {| metricName := name;
                    metricUnit := Some unit;
                    gauge := Some [{| asDouble := Some (Num value); asInt := None;
                                      dp_timeUnixNano := t |}] |} |}]
      (setRuntime rt w).

Definition errorAttributes (error : JsError.Error) : list KeyValue :=
  [ {| key := "kind"; value := ofString "exception" |};
    {| key := "message"; value := ofString (JsError.toString error) |};
    {| key := "type"; value := ofString (JsError.name error) |};
    {| key := "stacktrace";
       value := ofString (JsError.stack error ?? JsError.message error) |} ].

Definition error (exporter : option ExportFunction) (scope : InstrumentationScope)
  (parent : ParentSpan) (error : JsError.Error) : Async unit :=
  log exporter scope 20 (JsError.stack error ?? "undefined") parent
    (Some {| r_attributes := Some (errorAttributes error);
             r_timeUnixNano := None; r_observedTimeUnixNano := None;
             r_severityNumber := None; r_severityText := None; r_body := None;
             r_droppedAttributesCount := None; r_flags := None;
             r_traceId := None; r_spanId := None |}).

(** *** The running span

    The callback of [runSpan] works on the object [newSpan]: it reads and
    writes its fields and calls its methods.  A callback is therefore a
    computation over the current fields of [newSpan] and the world. *)
Definition Body (T : Type) : Type := Span -> World -> Outcome T * Span * World.

Definition ret {T : Type} (v : T) : Body T := fun s w => (Returned v, s, w).

Definition throw {T : Type} (ex : JsError.Error) : Body T := fun s w => (Thrown ex, s, w).

(** Sequencing: an exception of the first part ends the callback. *)
Definition bind {A B : Type} (m : Body A) (k : A -> Body B) : Body B :=
  fun s w =>
    match m s w with
    | (Returned a, s1, w1) => k a s1 w1
    | (Thrown ex, s1, w1) => (Thrown ex, s1, w1)
    end.

(** An assignment to fields of [newSpan], such as [span.name = 'x']. *)
Definition assign (f : Span -> Span) : Body unit := fun s w => (Returned tt, f s, w).

(** [newSpan], passed where a [ParentSpan] is expected. *)
Definition asParent (s : Span) : ParentSpan :=
  ParentObject {| p_traceId := Some (traceId s); p_spanId := Some (spanId s);
                  p_sample := Some (sample s) |}.

Definition setSample (b : bool) (s : Span) : Span :=
  {| traceId := traceId s; spanId := spanId s; parentSpanId := parentSpanId s;
     name := name s; kind := kind s; startTimeUnixNano := startTimeUnixNano s;
     endTimeUnixNano := endTimeUnixNano s; attributes := attributes s;
     events := events s; status := status s; sample := b |}.

Definition setEvents (es : list SpanEvent) (s : Span) : Span :=
  {| traceId := traceId s; spanId := spanId s; parentSpanId := parentSpanId s;
     name := name s; kind := kind s; startTimeUnixNano := startTimeUnixNano s;
     endTimeUnixNano := endTimeUnixNano s; attributes := attributes s;
     events := es; status := status s; sample := sample s |}.

Definition setStatus (st : SpanStatus) (s : Span) : Span :=
  {| traceId := traceId s; spanId := spanId s; parentSpanId := parentSpanId s;
     name := name s; kind := kind s; startTimeUnixNano := startTimeUnixNano s;
     endTimeUnixNano := endTimeUnixNano s; attributes := attributes s;
     events := events s; status := st; sample := sample s |}.

Definition setEndTimeUnixNano (t : string) (s : Span) : Span :=
  {| traceId := traceId s; spanId := spanId s; parentSpanId := parentSpanId s;
     name := name s; kind := kind s; startTimeUnixNano := startTimeUnixNano s;
     endTimeUnixNano := t; attributes := attributes s;
     events := events s; status := status s; sample := sample s |}.

(** The methods of [newSpan], in the order of the object literal of
    [runSpan]; [run] follows [runSpan] below. *)
Module RunningSpan.

Definition cancel : Body unit :=
  fun s w => (Returned tt, setSample false s, w).

Definition traceparent : Body string :=
  fun s w =>
    (Returned ("00-" ++ traceId s ++ "-" ++ spanId s ++ "-"
               ++ JsString.toString16 (JsString.numberOfBool (sample s))),
     s, w).

Definition mark (name : string) (attributes : option (list KeyValue)) : Body unit :=
  fun s w =>
    let '(t, rt) := Data.now (runtime w) in
    (Returned tt,
     setEvents (events s ++ [{| ev_name := name; ev_timeUnixNano := t;
                                ev_attributes := attributes |}])%list s,
     setRuntime rt w).

(** An awaited call of one of the functions of this module. *)
Definition await {T : Type} (call : Span -> Async T) : Body T :=
  fun s w => let '(o, w') := call s w in (o, s, w').

Definition error (exporter : option ExportFunction) (scope : InstrumentationScope)
  (ex : JsError.Error) : Body unit :=
  await (fun newSpan => Context.error exporter scope (asParent newSpan) ex).

Definition log (exporter : option ExportFunction) (scope : InstrumentationScope)
  (severity : Z) (message : string) (record : option PartialLogRecord) : Body unit :=
  await (fun newSpan => Context.log exporter scope severity message (asParent newSpan) record).

Definition measurement (exporter : option ExportFunction) (scope : InstrumentationScope)
  (name unit : string) (value : PrimFloat.float) (context : option AnyValue)
  : Body Datatypes.unit :=
  await (fun _ => Context.measurement exporter scope name unit value context).

Definition span (exporter : option ExportFunction) (scope : InstrumentationScope)
  (details : option PartialSpan) : Body unit :=
  await (fun newSpan => Context.span exporter scope (asParent newSpan) details).

End RunningSpan.

(** [runSpan], returning besides its result the fields of [newSpan] as
    they are when it returns. *)
Definition runSpanOn {T : Type} (exporter : option ExportFunction)
  (scope : InstrumentationScope) (parent : ParentSpan) (fn : Body T) (w : World)
  : Outcome T * Span * World :=
  let '(newSpan, w) := makeSpan parent None w in
  (* try *)
  let '(result, newSpan, w) := fn newSpan w in
  (* catch *)
  let '(newSpan, w) :=
    match result with
    | Returned _ => (newSpan, w)
    | Thrown ex =>
        let newSpan := setStatus {| code := 2; message := "ERROR" |} newSpan in
        let '(_, newSpan, w) :=
          RunningSpan.mark "error" (Some (errorAttributes ex)) newSpan w in
        (newSpan, w)
    end in
  (* finally *)
  let '(t, rt) := Data.now (runtime w) in
  let newSpan := setEndTimeUnixNano t newSpan in
  let w := setRuntime rt w in
  match exporter with
  | Some _ =>
      if sample newSpan then
        match callExporter exporter
                [{| Configure.scope := scope; Configure.context := None;
                    Configure.span := Some newSpan; Configure.log := None;
                    Configure.metric := None |}] w with
        | (Returned _, w) => (result, newSpan, w)
        | (Thrown ex, w) => (Thrown ex, newSpan, w)
        end
      else (result, newSpan, w)
  | None => (result, newSpan, w)
  end.

Definition runSpan {T : Type} (exporter : option ExportFunction)
  (scope : InstrumentationScope) (parent : ParentSpan) (fn : Body T) : Async T :=
  fun w => let '(result, _, w) := runSpanOn exporter scope parent fn w in (result, w).

(** The [run] method of [newSpan]. *)
Definition runningSpanRun {T : Type} (exporter : option ExportFunction)
  (scope : InstrumentationScope) (fn : Body T) : Body T :=
  RunningSpan.await (fun newSpan => runSpan exporter scope (asParent newSpan) fn).

(** *** The tracer *)

Record Tracer : Type := {
  t_error : InstrumentationScope -> JsError.Error -> Async unit;
  t_log : InstrumentationScope -> Z -> string -> option PartialLogRecord -> Async unit;
  t_measurement :
    InstrumentationScope -> string -> string -> PrimFloat.float -> option AnyValue -> Async unit;
  t_span : InstrumentationScope -> option PartialSpan -> Async unit;
  t_run : forall T : Type, InstrumentationScope -> Body T -> Async T
}.

(** JavaScript passes arguments by position and checks no type: a log
    record handed over where a [ParentSpan] is expected is read through
    the fields that [makeParentObj] reads, [traceId], [spanId] and
    [sample]; a log record has no [sample]. *)
Definition recordAsParent (record : option PartialLogRecord) : ParentSpan :=
  match record with
  | Some r => ParentObject {| p_traceId := r_traceId r; p_spanId := r_spanId r;
                              p_sample := None |}
  | None => ParentAbsent
  end.

Definition tracer (exporter : ExportFunction) (parent : ParentSpan) : Tracer :=
  {| t_error := fun scope ex => error (Some exporter) scope parent ex;
     (* log(exporter, scope, severity, message, record): [record] is the
        fifth argument, which is [parent]; the sixth, [log], is missing *)
     t_log := fun scope severity message record =>
                log (Some exporter) scope severity message (recordAsParent record) None;
     t_measurement := fun scope name unit value context =>
                        measurement (Some exporter) scope name unit value context;
     t_span := fun scope details => span (Some exporter) scope parent details;
     t_run := fun T scope fn => runSpan (Some exporter) scope parent fn |}.

Definition dummyTracer : Tracer :=
  {| t_error := fun _ _ w => (Returned tt, w);
     t_log := fun _ _ _ _ w => (Returned tt, w);
     t_measurement := fun _ _ _ _ _ w => (Returned tt, w);
     t_span := fun _ _ w => (Returned tt, w);
     t_run := fun T scope fn => runSpan None scope ParentAbsent fn |}.

End Context.

(** ** exporters/pausable.ts *)

Module Pausable.

Record PausableExporterOptions : Type := {
  startPaused : option bool;
  maxQueueSize : option Z
}.

Section Stage.

(** The stage never looks inside an [ExportItem]. *)
Variable ExportItem : Type.
Variable options : option PausableExporterOptions.

(** [options?.field] *)
Definition opt {A : Type} (f : PausableExporterOptions -> option A) : option A :=
  match options with
  | Some o => f o
  | None => None
  end.

(** The two closure variables of [pausableExporter]. *)
Record State : Type := {
  paused : bool;
  pending : list ExportItem
}.

(** [let paused = options?.startPaused === true; const pending = []] *)
Definition init : State :=
  {| paused := match opt startPaused with
               | Some true => true
               | _ => false
               end;
     pending := [] |}.

(** The inner function [pausableExporter(...events)].  The second
    component lists the calls made to the inner exporter, each with its
    argument list.  The stage's variables are written before the inner
    exporter is entered, so the new state does not depend on how that
    call ends. *)
Definition pausableExporter (events : list ExportItem) (st : State)
  : State * list (list ExportItem) :=
  if paused st then
    let p := pending st ++ events in
    let p :=
      if Js.len p >? (opt maxQueueSize ?? 100000)
      then snd (Js.splice0 (Js.len p - (opt maxQueueSize ?? 100000)) p)
      else p in
    ({| paused := true; pending := p |}, [])
  else
    (st, [events]).

(** [toggle(on?)]: new state, calls to the inner exporter, and the
    returned [paused] flag. *)
Definition toggle (on : option bool) (st : State)
  : State * list (list ExportItem) * bool :=
  let paused' := on ?? negb (paused st) in
  if negb paused' && Js.nonempty (pending st) then
    let copy := pending st in
    ({| paused := paused'; pending := [] |}, [copy], paused')
  else
    ({| paused := paused'; pending := pending st |}, [], paused').

(** What a client can do with the object returned by the stage. *)
Inductive Call : Type :=
| Submit (events : list ExportItem)
| Toggle (on : option bool).

Definition step (c : Call) (st : State) : State * list (list ExportItem) :=
  match c with
  | Submit events => pausableExporter events st
  | Toggle on => fst (toggle on st)
  end.

(** A sequence of client calls, with everything forwarded on the way. *)
Fixpoint run (cs : list Call) (st : State) : State * list (list ExportItem) :=
  match cs with
  | [] => (st, [])
  | c :: cs' =>
      let '(st1, out1) := step c st in
      let '(st2, out2) := run cs' st1 in
      (st2, out1 ++ out2)
  end.

End Stage.

End Pausable.

(** ** exporters/batching.ts *)

Module Batching.

Record BatchingExportOptions : Type := {
  interval : option Z;
  batchingInterval : option Z;
  maxBatchSize : option Z;
  maxQueueSize : option Z
}.

Section Stage.

Variable ExportItem : Type.
Variable options : option BatchingExportOptions.

(** [options?.field] *)
Definition opt {A : Type} (f : BatchingExportOptions -> option A) : option A :=
  match options with
  | Some o => f o
  | None => None
  end.

(** The closure variables of [batchingExporter].  At most one timeout is
    outstanding at any time (it is cleared before it is replaced, and
    armed on submission only when [timer] is [null]), so [timer] is the
    delay of the armed timeout, or [None] for [null]. *)
Record State : Type := {
  timer : option Z;
  pending : list ExportItem
}.

Definition init : State := {| timer := None; pending := [] |}.

(** [processBatch()]: new state and the calls made to the inner exporter.
    The timer is re-armed before the inner exporter is entered. *)
Definition processBatch (st : State) : State * list (list ExportItem) :=
  let '(batch, rest) := Js.splice0 (opt maxBatchSize ?? 35) (pending st) in
  let timer' :=
    if Js.nonempty rest
    then Some (opt batchingInterval ?? (opt interval ?? 1000))
    else None in
  ({| timer := timer'; pending := rest |},
   if Js.nonempty batch then [batch] else []).

(** The returned function [batchingExporter(...events)]. *)
Definition batchingExporter (events : list ExportItem) (st : State) : State :=
  let p := pending st ++ events in
  let p :=
    if Js.len p >? (opt maxQueueSize ?? 100000)
    then snd (Js.splice0 (Js.len p - (opt maxQueueSize ?? 1000)) p)
    else p in
  {| timer := match timer st with
              | None => Some (opt interval ?? 1000)
              | Some t => Some t
              end;
     pending := p |}.

(** Several submissions in a row, no timeout firing in between. *)
Definition submitAll (subs : list (list ExportItem)) (st : State) : State :=
  fold_left (fun s events => batchingExporter events s) subs st.

(** The event loop lets armed timeouts fire, one after the other, until
    none is armed; [fuel] bounds the number of firings. *)
Fixpoint fireTimers (fuel : nat) (st : State) : State * list (list ExportItem) :=
  match fuel with
  | O => (st, [])
  | S fuel' =>
      match timer st with
      | None => (st, [])
      | Some _ =>
          let '(st1, out1) := processBatch st in
          let '(st2, out2) := fireTimers fuel' st1 in
          (st2, out1 ++ out2)
      end
  end.

End Stage.

End Batching.

(** ** exporters/faro.ts: the collector payload *)

Module Faro.

Import Protocol.
Local Open Scope string_scope.

(** A JavaScript object used as a map, with its own keys in insertion
order.  ([Object.values] lists integer-like keys first; no property below
depends on the order of the groups.) *)
Definition Obj (V : Type) : Type := list (string * V).

(** [obj[key]] for an own key. *)
Fixpoint get {V : Type} (key : string) (obj : Obj V) : option V :=
  match obj with
  | [] => None
  | (k, v) :: obj' => if String.eqb k key then Some v else get key obj'
  end.

(** [obj[key] = v]: an existing key keeps its place. *)
Fixpoint set {V : Type} (key : string) (v : V) (obj : Obj V) : Obj V :=
  match obj with
  | [] => [(key, v)]
  | (k, v') :: obj' =>
      if String.eqb k key then (k, v) :: obj' else (k, v') :: set key v obj'
  end.

(** [Object.fromEntries(entries)] *)
Definition fromEntries {V : Type} (entries : list (string * V)) : Obj V :=
  fold_left (fun obj e => set (fst e) (snd e) obj) entries [].

(** [Object.values(obj)] *)
Definition values {V : Type} (obj : Obj V) : list V := map snd obj.

(** The members that an object literal inherits from [Object.prototype]:
[obj[key]] is not nullish for them although [obj] has no such key of its
own. *)
Definition inherited (key : string) : bool :=
  existsb (String.eqb key)
    ["constructor"; "__proto__"; "hasOwnProperty"; "isPrototypeOf";
     "propertyIsEnumerable"; "toLocaleString"; "toString"; "valueOf";
     "__defineGetter__"; "__defineSetter__"; "__lookupGetter__"; "__lookupSetter__"].

(** [parts.join(sep)] *)
Fixpoint join (sep : string) (parts : list string) : string :=
  match parts with
  | [] => ""
  | [p] => p
  | p :: ps => p ++ sep ++ join sep ps
  end.

Record FaroInstrumentationLibrary : Type := {
  libraryName : string;
  libraryVersion : string
}.

Record FaroSpans : Type := {
  spansScope : FaroInstrumentationLibrary;
  spans : list Span
}.

(** [{ trace_id, span_id }] *)
Record FaroTraceRef : Type := {
  trace_id : string;
  span_id : option string
}.

Record FaroLog : Type := {
  logMessage : option string;
  level : string;
  logContext : Obj string;
  logTimestamp : string;
  logTrace : option FaroTraceRef
}.

Section Collect.

(** Three pieces of the JavaScript run time are taken as given.

- [isoTimestamp t] is
  [new Date(Number(BigInt(t) / BigInt(1000)) / 1000).toISOString()],
  [None] when [BigInt] or [toISOString] throws;
- [numberToString] is [String] on a number, and [toNumber] is [Number] on
  the value of a data point ([undefined], a number or a string).

[parseStackTrace] of utils/stacktrace.ts works by regular expressions,
which are not modelled: [ErrorStack] and [parseStackTrace] are taken as
given too. *)
Variable isoTimestamp : string -> option string.
Variable numberToString : PrimFloat.float -> string.
Variable toNumber : option NumberOrString -> PrimFloat.float.
Variable ErrorStack : Type.
Variable parseStackTrace : string -> option ErrorStack.

Record FaroMeasurement : Type := {
  measurementType : string;
  measurementValues : Obj PrimFloat.float
}.

Record FaroException : Type := {
  exceptionTimestamp : string;
  exceptionType : option string;
  exceptionValue : option string;
  exceptionTrace : option FaroTraceRef;
  stacktrace : option ErrorStack
}.

Record FaroEvent : Type := {
  eventTimestamp : string;
  eventName : string;
  eventAttributes : Obj string;
  domain : string;
  eventTrace : option FaroTraceRef
}.

Definition makeScope (scope : InstrumentationScope) : FaroInstrumentationLibrary :=
  match scope with
  | ScopeName name => {| libraryName := name; libraryVersion := "1.0.0" |}
  | ScopeObject name version _ =>
      {| libraryName := name; libraryVersion := JsString.orElse version "1.0.0" |}
  end.

Definition getFaroLogLevel (severity : Z) : string :=
  if (severity <? 5)%Z then "trace"
  else if (severity <? 9)%Z then "debug"
  else if (severity <? 13)%Z then "info"
  else if (severity <? 17)%Z then "warning"
  else if (severity <? 21)%Z then "error"
  else "fatal".

(** [String(x)] for a field typed [string | number]. *)
Definition numberOrStringToString (x : NumberOrString) : string :=
  match x with
  | Num n => numberToString n
  | Str s => s
  end.

Fixpoint getStringValue (anyValue : AnyValue) : string :=
  match anyValue with
  | mkAnyValue stringValue boolValue intValue doubleValue arrayValue kvlistValue bytesValue =>
      match arrayValue with
      | Some elements => join ";" (map getStringValue elements)
      | None =>
          match kvlistValue with
          | Some pairs =>
              join ";"
                (map (fun kv => match kv with
                                | mkKeyValue k v => k ++ "=" ++ getStringValue v
                                end) pairs)
          | None =>
              match boolValue, doubleValue, bytesValue, intValue, stringValue with
              | Some b, _, _, _, _ => if b then "true" else "false"
              | None, Some d, _, _, _ => numberOrStringToString d
              | None, None, Some bytes, _, _ => bytes
              | None, None, None, Some i, _ => numberOrStringToString i
              | None, None, None, None, Some s => s
              | None, None, None, None, None => ""
              end
          end
      end
  end.

(** The five local variables of [collect]. *)
Record Batches : Type := {
  logsBatch : list FaroLog;
  eventsBatch : list FaroEvent;
  exceptionBatch : list FaroException;
  measurementsBatch : Obj FaroMeasurement;
  tracesBatch : Obj FaroSpans
}.

Definition noBatches : Batches :=
  {| logsBatch := []; eventsBatch := []; exceptionBatch := [];
     measurementsBatch := []; tracesBatch := [] |}.

(** The first branch of the loop body: [item] has a span. *)
Definition collectSpan (item : Configure.ExportItem) (s : Span) (b : Batches)
  : option Batches :=
  let key := libraryName (makeScope (Configure.scope item)) in
  if inherited key then None
  else
    let group := get key (tracesBatch b)
                 ?? {| spansScope := makeScope (Configure.scope item); spans := [] |} in
    Some {| logsBatch := logsBatch b; eventsBatch := eventsBatch b;
            exceptionBatch := exceptionBatch b; measurementsBatch := measurementsBatch b;
            tracesBatch :=
              set key {| spansScope := spansScope group;
                         spans := (spans group ++ [s])%list |} (tracesBatch b) |}.

(** The last branch of the loop body: [item] has a metric with a gauge. *)
Definition collectGauge (item : Configure.ExportItem) (m : Metric)
  (dataPoints : list NumberDataPoint) (b : Batches) : option Batches :=
  let key := libraryName (makeScope (Configure.scope item)) in
  match dataPoints with
  | [] =>
      (* no value: the group is created and left as it is *)
      Some {| logsBatch := logsBatch b; eventsBatch := eventsBatch b;
              exceptionBatch := exceptionBatch b; tracesBatch := tracesBatch b;
              measurementsBatch :=
                if inherited key then measurementsBatch b
                else set key (get key (measurementsBatch b)
                              ?? {| measurementType := key; measurementValues := [] |})
                       (measurementsBatch b) |}
  | point :: _ =>
      if inherited key then None
      else
        let group := get key (measurementsBatch b)
                     ?? {| measurementType := key; measurementValues := [] |} in
        Some {| logsBatch := logsBatch b; eventsBatch := eventsBatch b;
                exceptionBatch := exceptionBatch b; tracesBatch := tracesBatch b;
                measurementsBatch :=
                  set key
                    {| measurementType := measurementType group;
                       measurementValues :=
                         (* an assignment to [__proto__] of a number is ignored *)
                         if String.eqb (metricName m) "__proto__"
                         then measurementValues group
                         else set (metricName m)
                                (toNumber match asDouble point with
                                          | Some d => Some d
                                          | None => asInt point
                                          end)
                                (measurementValues group) |}
                    (measurementsBatch b) |}
  end.

(** What follows the two [if] statements on [item.span] and [item.log]. *)
Definition collectMetric (item : Configure.ExportItem) (b : Batches) : option Batches :=
  match Configure.metric item with
  | Some m =>
      match gauge m with
      | Some dataPoints => collectGauge item m dataPoints b
      | None => Some b
      end
  | None => Some b
  end.

(** The second branch of the loop body: [item] has a log and no span.  An
exception or an event ends the iteration; a plain log message does not. *)
Definition collectLog (item : Configure.ExportItem) (l : LogRecord) (b : Batches)
  : option Batches :=
  let context :=
    fromEntries (map (fun attr => (key attr, getStringValue (value attr)))
                     (logAttributes l ?? [])) in
  match isoTimestamp (timeUnixNano l) with
  | None => None
  | Some timestamp =>
      let trace :=
        match logTraceId l with
        | None | Some "" => None
        | Some t => Some {| trace_id := t; span_id := logSpanId l |}
        end in
      match body l with
      | None => None
      | Some logBody =>
          if option_map (String.eqb "exception") (get "kind" context) ?? false then
            Some {| logsBatch := logsBatch b; eventsBatch := eventsBatch b;
                    measurementsBatch := measurementsBatch b; tracesBatch := tracesBatch b;
                    exceptionBatch :=
                      (exceptionBatch b
                       ++ [{| exceptionTimestamp := timestamp;
                              exceptionType := get "type" context;
                              exceptionValue := stringValue logBody;
                              exceptionTrace := trace;
                              stacktrace :=
                                parseStackTrace
                                  (match get "stacktrace" context with
                                   | Some st => st
                                   | None => stringValue logBody ?? ""
                                   end) |}])%list |}
          else if option_map (String.eqb "event") (get "kind" context) ?? false then
            Some {| logsBatch := logsBatch b; exceptionBatch := exceptionBatch b;
                    measurementsBatch := measurementsBatch b; tracesBatch := tracesBatch b;
                    eventsBatch :=
                      (eventsBatch b
                       ++ [{| eventTimestamp := timestamp;
                              eventName := getStringValue logBody;
                              eventAttributes := context;
                              domain := libraryName (makeScope (Configure.scope item));
                              eventTrace := trace |}])%list |}
          else
            collectMetric item
              {| eventsBatch := eventsBatch b; exceptionBatch := exceptionBatch b;
                 measurementsBatch := measurementsBatch b; tracesBatch := tracesBatch b;
                 logsBatch :=
                   (logsBatch b
                    ++ [{| logTimestamp := timestamp;
                           logMessage := stringValue logBody;
                           level := getFaroLogLevel (severityNumber l ?? 0);
                           logContext := context;
                           logTrace := trace |}])%list |}
      end
  end.

(** One iteration of the loop of [collect]; [None] when it throws. *)
Definition collectItem (item : Configure.ExportItem) (b : Batches) : option Batches :=
  match Configure.span item with
  | Some s => collectSpan item s b
  | None =>
      match Configure.log item with
      | Some l => collectLog item l b
      | None => collectMetric item b
      end
  end.

Fixpoint collectAll (batch : list Configure.ExportItem) (b : Batches) : option Batches :=
  match batch with
  | [] => Some b
  | item :: batch' =>
      match collectItem item b with
      | Some b' => collectAll batch' b'
      | None => None
      end
  end.

(** [collect(batch)]: traces, logs, measurements, exceptions and events. *)
Definition collect (batch : list Configure.ExportItem)
  : option (list FaroSpans * list FaroLog * list FaroMeasurement
            * list FaroException * list FaroEvent) :=
  match collectAll batch noBatches with
  | Some b =>
      Some (values (tracesBatch b), logsBatch b, values (measurementsBatch b),
            exceptionBatch b, eventsBatch b)
  | None => None
  end.

End Collect.

End Faro.

(** ** Notions used to state the properties, and sample data *)

Module Notions.

Import Protocol.
Local Open Scope string_scope.

(** The trace id and the span id that a parent reference carries: the
    fields of an object, the second and third part of a traceparent
    string. *)
Definition traceIdOf (p : ParentSpan) : option string :=
  match p with
  | ParentObject o => p_traceId o
  | ParentString s => nth_error (JsString.split "-" s) 1
  | ParentAbsent => None
  end.

Definition spanIdOf (p : ParentSpan) : option string :=
  match p with
  | ParentObject o => p_spanId o
  | ParentString s => nth_error (JsString.split "-" s) 2
  | ParentAbsent => None
  end.

(** The log records handed to export functions so far, oldest first. *)
Definition emittedLogs (w : Context.World) : list LogRecord :=
  flat_map (fun item => match Configure.log item with
                        | Some l => [l]
                        | None => []
                        end)
           (List.concat (Context.exported w)).

(** The item that [runSpan] exports for a finished span. *)
Definition spanItem (scope : InstrumentationScope) (s : Span) : Configure.ExportItem :=
  {| Configure.scope := scope; Configure.context := None; Configure.span := Some s;
     Configure.log := None; Configure.metric := None |}.

(** How the export call at the end of [runSpan] fails, if it is made and
    fails. *)
Definition finalExportFailure (exporter : option Context.ExportFunction)
  (scope : InstrumentationScope) (s : Span) : option JsError.Error :=
  match exporter with
  | Some f => if sample s then f [spanItem scope s] else None
  | None => None
  end.

(** The invariant of the pausable stage: unpaused, it has nothing queued. *)
Definition drained {ExportItem : Type} (st : Pausable.State ExportItem) : Prop :=
  Pausable.paused st = false -> Pausable.pending st = [].

(** The limit that the batching stage compares the queue length with. *)
Definition queueLimit (options : option Batching.BatchingExportOptions) : Z :=
  Batching.opt options Batching.maxQueueSize ?? 100000.

(** The size of a batch of the batching stage. *)
Definition batchSize (options : option Batching.BatchingExportOptions) : Z :=
  Batching.opt options Batching.maxBatchSize ?? 35.

(** What the inner exporter has seen once a queue [l] is drained in batches
of [b]: the calls put end to end are [l], no call is empty or larger than
[b], there are [ceil(|l| / b)] of them, and the last one has [|l| mod b]
items, or [b] when that is zero. *)
Definition batched {ExportItem : Type} (b : Z) (l : list ExportItem)
  (calls : list (list ExportItem)) : Prop :=
  List.concat calls = l /\
  Forall (fun c => 0 < Js.len c <= b) calls /\
  Js.len calls = (Js.len l + b - 1) / b /\
  (0 < Js.len l ->
   Js.len (last calls []) = if (Js.len l mod b =? 0)%Z then b else Js.len l mod b).

End Notions.

Module Sample.

Import Protocol.
Local Open Scope string_scope.

(** Export items for the pipeline stages, which do not look inside them:
the [n] consecutive integers from [start] on. *)
Fixpoint itemsFrom (start : Z) (n : nat) : list Z :=
  match n with
  | O => []
  | S n' => start :: itemsFrom (start + 1) n'
  end.

(** A clock that advances by a millisecond per reading and a fixed
    sequence of random bytes. *)
Definition runtime : Data.Runtime :=
  {| Data.dateNow := fun k => 1700000000000 + Z.of_nat k;
     Data.ticks := 0;
     Data.randomByte := fun k => (N.of_nat k * 37 + 11)%N;
     Data.draws := 0 |}.

Definition world : Context.World :=
  {| Context.runtime := runtime; Context.exported := [] |}.

(** A random source whose first eight bytes print as [b7ad6b7169203331]. *)
Definition collidingWorld : Context.World :=
  {| Context.runtime :=
       {| Data.dateNow := fun k => 1700000000000 + Z.of_nat k;
          Data.ticks := 0;
          Data.randomByte := fun k => nth k [183; 173; 107; 113; 105; 32; 51; 49]%N 0%N;
          Data.draws := 0 |};
     Context.exported := [] |}.

Definition parent : ParentSpan :=
  ParentObject {| p_traceId := Some "0af7651916cd43dd8448eb211c80319c";
                  p_spanId := Some "b7ad6b7169203331";
                  p_sample := Some true |}.

(** A parent whose trace id is a UUID. *)
Definition uuidParent : ParentSpan :=
  ParentObject {| p_traceId := Some "123e4567-e89b-12d3-a456-426614174000";
                  p_spanId := Some "b7ad6b7169203331";
                  p_sample := Some true |}.

(** A parent with an empty trace id. *)
Definition emptyTraceParent : ParentSpan :=
  ParentObject {| p_traceId := Some "";
                  p_spanId := Some "b7ad6b7169203331";
                  p_sample := Some true |}.

Definition delivers : Context.ExportFunction := fun _ => None.

Definition networkError : JsError.Error :=
  {| JsError.name := "NetworkError"; JsError.message := "collector unreachable";
     JsError.stack := None |}.

Definition rejects : Context.ExportFunction := fun _ => Some networkError.

Definition rangeError : JsError.Error :=
  {| JsError.name := "RangeError"; JsError.message := "boom"; JsError.stack := None |}.

(** The value of a gauge. *)
Definition clsValue : PrimFloat.float := PrimFloat.of_uint63 (Uint63.of_Z 12).

(** An export item that carries both a plain log message and a gauge. *)
Definition logAndGauge : Configure.ExportItem :=
  {| Configure.scope := ScopeName "app";
     Configure.context := None;
     Configure.span := None;
     Configure.log :=
       Some {| timeUnixNano := "1700000000000000000";
               observedTimeUnixNano := None;
               severityNumber := Some 9;
               severityText := None;
               body := Some (ofString "hi");
               logAttributes := None;
               droppedAttributesCount := None;
               flags := None;
               logTraceId := None;
               logSpanId := None |};
     Configure.metric :=
       Some {| metricName := "cls";
               metricUnit := Some "%";
               gauge := Some [{| dp_timeUnixNano := "1700000000000000000";
                                 asDouble := Some (Num clsValue);
                                 asInt := None |}] |} |}.

(** Stand-ins for the run-time functions that [Faro.collect] takes. *)
Definition isoTimestamp (t : string) : option string := Some "2023-11-14T22:13:20.000Z".

Definition numberToString (x : PrimFloat.float) : string := "0".

Definition toNumber (v : option NumberOrString) : PrimFloat.float :=
  match v with
  | Some (Num x) => x
  | _ => PrimFloat.nan
  end.

Definition parseStackTrace (stack : string) : option (list string) := None.

(** [{ severityText: 'INFO' }] *)
Definition record : PartialLogRecord :=
  {| r_severityText := Some "INFO";
     r_timeUnixNano := None; r_observedTimeUnixNano := None; r_severityNumber := None;
     r_body := None; r_attributes := None; r_droppedAttributesCount := None;
     r_flags := None; r_traceId := None; r_spanId := None |}.

End Sample.

(** ** exporters/buffered.ts *)

Module Buffered.

Record BufferedExportOptions : Type := {
  maxBatchSize : option Z
}.

Section Stage.

Variable ExportItem : Type.
Variable options : option BufferedExportOptions.

(** [options?.field] *)
Definition opt {A : Type} (f : BufferedExportOptions -> option A) : option A :=
  match options with
  | Some o => f o
  | None => None
  end.

(** The closure variables [pending] and [obj.used], and the number of
invocations of [send] that are suspended at [await exporter(...batch)].
JavaScript runs one invocation at a time and switches only at an [await]:
everything between two awaits is one step. *)
Record State : Type := {
  pending : list ExportItem;
  used : bool;
  suspended : nat
}.

Definition init : State := {| pending := []; used := false; suspended := 0 |}.

(** One turn of the loop of [send]: the test [pending.length] and, when it
holds, the body up to its [await], where the invocation is suspended.  When
the test fails the invocation ends.  The second component lists the calls
made to the inner exporter. *)
Definition sendTurn (st : State) : State * list (list ExportItem) :=
  if Js.nonempty (pending st) then
    let '(batch, rest) := Js.splice0 (opt maxBatchSize ?? 35) (pending st) in
    ({| pending := rest; used := used st; suspended := S (suspended st) |}, [batch])
  else (st, []).

(** [send()], up to its first [await] or to its end. *)
Definition send (st : State) : State * list (list ExportItem) :=
  if negb (used st) then (st, []) else sendTurn st.

(** [bufferedExporter(...events)], up to its first [await] or to its end. *)
Definition bufferedExporter (events : list ExportItem) (st : State)
  : State * list (list ExportItem) :=
  let st1 := {| pending := pending st ++ events; used := true; suspended := suspended st |} in
  if Js.len (pending st1) >? (opt maxBatchSize ?? 35) then send st1 else (st1, []).

(** The promise that a suspended invocation of [send] awaits is settled.
When it is fulfilled the invocation goes on with the next turn of its loop;
when it is rejected the invocation ends with that error.  An inner exporter
that throws instead of returning a promise ends the invocation the same
way. *)
Definition settle (fulfilled : bool) (st : State) : State * list (list ExportItem) :=
  match suspended st with
  | O => (st, [])
  | S n =>
      let st1 := {| pending := pending st; used := used st; suspended := n |} in
      if fulfilled then sendTurn st1 else (st1, [])
  end.

(** What can happen to the object returned by the stage. *)
Inductive Event : Type :=
| Submit (events : list ExportItem)
| Flush
| Settle (fulfilled : bool).

Definition step (e : Event) (st : State) : State * list (list ExportItem) :=
  match e with
  | Submit events => bufferedExporter events st
  | Flush => send st
  | Settle fulfilled => settle fulfilled st
  end.

Fixpoint run (es : list Event) (st : State) : State * list (list ExportItem) :=
  match es with
  | [] => (st, [])
  | e :: es' =>
      let '(st1, out1) := step e st in
      let '(st2, out2) := run es' st1 in
      (st2, out1 ++ out2)
  end.

(** The items submitted by a sequence of events, in order. *)
Definition submitted (es : list Event) : list ExportItem :=
  flat_map (fun e => match e with
                     | Submit events => events
                     | _ => []
                     end) es.

(** No promise of the sequence is rejected. *)
Definition allFulfilled (es : list Event) : bool :=
  forallb (fun e => match e with
                    | Settle false => false
                    | _ => true
                    end) es.

End Stage.

End Buffered.

(** ** The events of the batching and of the pausable stage *)

Module BatchingEvents.

Section Events.

Variable ExportItem : Type.
Variable options : option Batching.BatchingExportOptions.

(** What can happen to a batching stage: a submission, the armed timeout
firing, and a teardown signal of the host (the page is hidden or unloaded,
the process exits), whose listener calls [processBatch] directly. *)
Inductive Event : Type :=
| Submit (events : list ExportItem)
| Fire
| Teardown.

Definition step (e : Event) (st : Batching.State ExportItem)
  : Batching.State ExportItem * list (list ExportItem) :=
  match e with
  | Submit events => (Batching.batchingExporter options events st, [])
  | Fire =>
      match Batching.timer st with
      | Some _ => Batching.processBatch options st
      | None => (st, [])
      end
  | Teardown => Batching.processBatch options st
  end.

Fixpoint run (es : list Event) (st : Batching.State ExportItem)
  : Batching.State ExportItem * list (list ExportItem) :=
  match es with
  | [] => (st, [])
  | e :: es' =>
      let '(st1, out1) := step e st in
      let '(st2, out2) := run es' st1 in
      (st2, out1 ++ out2)
  end.

Definition submitted (es : list Event) : list ExportItem :=
  flat_map (fun e => match e with
                     | Submit events => events
                     | _ => []
                     end) es.

End Events.

End BatchingEvents.

Module Order.

(** [Subseq l1 l2]: [l1] is [l2] with some items left out, the others in
their order. *)
Inductive Subseq {A : Type} : list A -> list A -> Prop :=
| subseq_nil : Subseq [] []
| subseq_skip (x : A) (l1 l2 : list A) : Subseq l1 l2 -> Subseq l1 (x :: l2)
| subseq_keep (x : A) (l1 l2 : list A) : Subseq l1 l2 -> Subseq (x :: l1) (x :: l2).

(** The items submitted to a pausable stage by a sequence of calls. *)
Definition submittedTo {ExportItem : Type} (cs : list (Pausable.Call ExportItem))
  : list ExportItem :=
  flat_map (fun c => match c with
                     | Pausable.Submit events => events
                     | Pausable.Toggle _ _ => []
                     end) cs.

End Order.

(** ** Invariants of the pipeline stages *)

Module Invariants.

(** The buffered stage, as long as its inner exporter does not fail: an
unused stage has an empty queue, and when no invocation of [send] is under
way the queue holds at most a batch. *)
Definition settled {ExportItem : Type} (options : option Buffered.BufferedExportOptions)
  (st : Buffered.State ExportItem) : Prop :=
  (Buffered.used st = false -> Buffered.pending st = []) /\
  (Buffered.suspended st = 0%nat ->
   Js.len (Buffered.pending st) <= Buffered.opt options Buffered.maxBatchSize ?? 35).

End Invariants.

(** ** Notions used to state what [collect] keeps *)

Module Collected.

Import Protocol.

(** The name that [collect] files an item under. *)
Definition scopeName (item : Configure.ExportItem) : string :=
  Faro.libraryName (Faro.makeScope (Configure.scope item)).

(** The spans of the items of [batch] filed under [name], in batch order. *)
Definition spansOf (name : string) (batch : list Configure.ExportItem) : list Span :=
  flat_map (fun item => match Configure.span item with
                        | Some s => if String.eqb (scopeName item) name then [s] else []
                        | None => []
                        end) batch.

(** The spans of the groups of [traces] named [name]. *)
Definition groupedAs (name : string) (traces : list Faro.FaroSpans) : list Span :=
  List.concat (map Faro.spans
                 (filter (fun g => String.eqb (Faro.libraryName (Faro.spansScope g)) name)
                         traces)).

(** An item that [collect] reads as a log record: it has one, and no span. *)
Definition isLogItem (item : Configure.ExportItem) : bool :=
  match Configure.span item, Configure.log item with
  | None, Some _ => true
  | _, _ => false
  end.

(** The span groups are filed under the name they carry, once each. *)
Definition wellFiled {ErrorStack : Type} (b : Faro.Batches ErrorStack) : Prop :=
  (forall k g, In (k, g) (Faro.tracesBatch b) -> Faro.libraryName (Faro.spansScope g) = k)
  /\ NoDup (map fst (Faro.tracesBatch b)).

(** The spans filed under [k] so far. *)
Definition filedSpans {ErrorStack : Type} (k : string) (b : Faro.Batches ErrorStack)
  : list Span :=
  match Faro.get k (Faro.tracesBatch b) with
  | Some g => Faro.spans g
  | None => []
  end.

End Collected.

(** ** instrument/unhandled-errors.ts *)

Module UnhandledErrors.

Import Protocol Context.
Local Open Scope string_scope.

Definition scope : InstrumentationScope :=
  ScopeObject "koll/unhandled-errors" (Some "0.0.1") None.

(** [ignore] is a function of the client: it returns a boolean or throws. *)
Record InstrumentUnhandledErrorsOptions : Type := {
  ignore : option (JsError.Error -> Outcome bool)
}.

(** The arguments that the browser passes to [window.onerror]. *)
Record ErrorArgs : Type := {
  a_event : string;
  a_source : option string;
  a_lineno : option Z;
  a_colno : option Z;
  a_error : option JsError.Error
}.

(** A function held by [window.onerror].  A function is compared by
    identity: [id] numbers the handlers of other scripts, and for [onError]
    the call of [instrumentUnhandledErrors] that created the closure.  A
    closure carries the variables it captured.  Of a handler of another
    script only this is known: whether it throws. *)
#[local] Set Warnings "-register-all".

Inductive Handler : Type :=
| Foreign (id : nat) (fails : option JsError.Error)
| OnError (id : nat) (exporter : ExportFunction)
    (options : option InstrumentUnhandledErrorsOptions) (original : option Handler).

#[local] Set Warnings "+register-all".

(** A listener for [unhandledrejection]: the closure [onReject]. *)
Record Listener : Type := {
  l_id : nat;
  l_exporter : ExportFunction;
  l_options : option InstrumentUnhandledErrorsOptions
}.

(** [window], as far as this module reads and writes it; [closures]
    counts the calls of [instrumentUnhandledErrors] so far. *)
Record Window : Type := {
  onerror : option Handler;
  rejectionListeners : list Listener;
  closures : nat
}.

(** What calling handlers changes: the world of the exporters, and the
    calls received by handlers of other scripts. *)
Record Page : Type := {
  world : World;
  foreignCalls : list (nat * ErrorArgs)
}.

(** [handleError(error)].  [sendError] is not awaited: the export call is
    made before [handleError] returns, and how it ends is not observed. *)
Definition handleError (exporter : ExportFunction)
  (options : option InstrumentUnhandledErrorsOptions) (error : JsError.Error)
  : Async unit :=
  fun w =>
    let send := (Returned tt, snd (Context.error (Some exporter) scope ParentAbsent error w)) in
    match match options with
          | Some o => ignore o
          | None => None
          end with
    | None => send
    | Some f =>
        match f error with
        | Returned false => (Returned tt, w)
        | Returned true => send
        | Thrown ex => (Thrown ex, w)
        end
    end.

(** A call of a handler; for [onError], the [try] block and then the
    [finally] block, whose exception replaces the one of the [try] block. *)
Fixpoint callHandler (h : Handler) (args : ErrorArgs) (p : Page) : Outcome unit * Page :=
  match h with
  | Foreign id fails =>
      (match fails with
       | None => Returned tt
       | Some ex => Thrown ex
       end,
       {| world := world p; foreignCalls := (foreignCalls p ++ [(id, args)])%list |})
  | OnError _ exporter options original =>
      let '(o, w) :=
        match a_error args with
        | None => (Returned tt, world p)
        | Some error => handleError exporter options error (world p)
        end in
      let p1 := {| world := w; foreignCalls := foreignCalls p |} in
      match original with
      | None => (o, p1)
      | Some h' =>
          let '(o', p2) := callHandler h' args p1 in
          (match o' with
           | Thrown ex => Thrown ex
           | Returned _ => o
           end, p2)
      end
  end.

(** The browser reports an error to [window.onerror]. *)
Definition reportError (win : Window) (args : ErrorArgs) (p : Page) : Outcome unit * Page :=
  match onerror win with
  | Some h => callHandler h args p
  | None => (Returned tt, p)
  end.

(** [onReject(evt)]; [reason] is [evt.reason] when it is an [Error]. *)
Definition onReject (l : Listener) (reason : option JsError.Error) : Async unit :=
  fun w =>
    match reason with
    | Some error => handleError (l_exporter l) (l_options l) error w
    | None => (Returned tt, w)
    end.

(** The function that [instrumentUnhandledErrors] returns: the closure
    over [onError], [onReject] and [original]. *)
Record Uninstaller : Type := {
  u_id : nat;
  u_original : option Handler
}.

Definition instrumentUnhandledErrors (exporter : ExportFunction)
  (options : option InstrumentUnhandledErrorsOptions) (win : Window)
  : Window * Uninstaller :=
  let original := onerror win in
  let id := closures win in
  ({| onerror := Some (OnError id exporter options original);
      rejectionListeners :=
        (rejectionListeners win
         ++ [{| l_id := id; l_exporter := exporter; l_options := options |}])%list;
      closures := S id |},
   {| u_id := id; u_original := original |}).

Definition uninstall (u : Uninstaller) (win : Window) : Window :=
  {| onerror :=
       match onerror win with
       | Some (OnError id _ _ _) =>
           if Nat.eqb id (u_id u) then u_original u else onerror win
       | _ => onerror win
       end;
     rejectionListeners :=
       filter (fun l => negb (Nat.eqb (l_id l) (u_id u))) (rejectionListeners win);
     closures := closures win |}.

(** Several instrumentations installed one after the other, the first of
    the list first. *)
Fixpoint installAll
  (layers : list (ExportFunction * option InstrumentUnhandledErrorsOptions)) (win : Window)
  : Window :=
  match layers with
  | [] => win
  | (exporter, options) :: layers' =>
      installAll layers' (fst (instrumentUnhandledErrors exporter options win))
  end.

(** Whether an instrumentation reports [error]: its [ignore] is missing or
    answers [true]. *)
Definition reports (error : JsError.Error)
  (layer : ExportFunction * option InstrumentUnhandledErrorsOptions) : bool :=
  match match snd layer with
        | Some o => ignore o
        | None => None
        end with
  | None => true
  | Some f =>
      match f error with
      | Returned true => true
      | _ => false
      end
  end.

End UnhandledErrors.

(** ** Notions used to state what reporting an error does *)

Module Reporting.

Import Context UnhandledErrors.

(** What reporting an error to a window does: [n] export calls, and the
    calls [fc] to handlers of other scripts. *)
Definition reportsAs (win : Window) (args : ErrorArgs) (n : nat)
  (fc : list (nat * ErrorArgs)) : Prop :=
  forall p : Page,
    List.length (exported (world (snd (reportError win args p))))
    = (n + List.length (exported (world p)))%nat
    /\ foreignCalls (snd (reportError win args p)) = (foreignCalls p ++ fc)%list.

(** The listeners of a window were registered by earlier calls of
    [instrumentUnhandledErrors]. *)
Definition listenersKnown (win : Window) : Prop :=
  Forall (fun l => (l_id l < closures win)%nat) (rejectionListeners win).

End Reporting.

(** ** exporters/faro.ts: the exporter *)

Module FaroExporter.

Import Protocol.
Local Open Scope string_scope.

(** [meta.app] *)
Record FaroApp : Type := {
  appName : option string;
  appVersion : option string;
  release : option string;
  environment : option string
}.

Record Resource : Type := {
  resourceAttributes : list KeyValue
}.

Record ResourceSpans : Type := {
  scopeSpans : list Faro.FaroSpans;
  resource : Resource
}.

Record FaroTrace : Type := {
  resourceSpans : list ResourceSpans
}.

(** What the exporter does to its surroundings. *)
Inductive Effect : Type :=
| Beacon (destination body : string)
| Fetch (destination body : string)
| ConsoleError (message : string).

(** How the promise of the exporter settles. *)
Inductive Settled : Type :=
| Resolved
| Rejected.

(** [navigator.sendBeacon], when there is a [navigator] that has it, and
    [fetch]: whether the beacon is accepted, and whether the promise of
    [fetch] is fulfilled ([None]) or rejected with an error. *)
Record Network : Type := {
  sendBeacon : option (string -> string -> bool);
  fetch : string -> string -> option JsError.Error
}.

Section Exporter.

Variable isoTimestamp : string -> option string.
Variable numberToString : PrimFloat.float -> string.
Variable toNumber : option NumberOrString -> PrimFloat.float.
Variable ErrorStack : Type.
Variable parseStackTrace : string -> option ErrorStack.

(** The members of [FaroMeta] besides [app], which the exporter passes on
    without reading them. *)
Variable Other : Type.

Record FaroMeta : Type := {
  app : option FaroApp;
  other : Other
}.

Record FaroPayload : Type := {
  meta : FaroMeta;
  events : option (list Faro.FaroEvent);
  exceptions : option (list (Faro.FaroException ErrorStack));
  measurements : option (list Faro.FaroMeasurement);
  logs : option (list Faro.FaroLog);
  traces : option FaroTrace
}.

(** [JSON.stringify] on a payload. *)
Variable stringify : FaroPayload -> string.

(** [options], with the value that [options.meta()] returns at the call. *)
Record FaroExporterOptions : Type := {
  destination : string;
  metaNow : FaroMeta
}.

(** [if (l.length) result.field = l] *)
Definition present {A : Type} (l : list A) : option (list A) :=
  if Js.nonempty l then Some l else None.

(** The payload built for a batch; [None] when [meta.app.name] or
    [collect] throws. *)
Definition payload (options : FaroExporterOptions) (batch : list Configure.ExportItem)
  : option FaroPayload :=
  match app (metaNow options) with
  | None => None
  | Some a =>
      let resource :=
        {| resourceAttributes :=
             [{| key := "service.name";
                 value := {| stringValue := appName a; boolValue := None; intValue := None;
                             doubleValue := None; arrayValue := None; kvlistValue := None;
                             bytesValue := None |} |}] |} in
      match Faro.collect isoTimestamp numberToString toNumber parseStackTrace batch with
      | None => None
      | Some (traces, logs, measurements, exceptions, events) =>
          Some {| meta := metaNow options;
                  events := present events;
                  exceptions := present exceptions;
                  measurements := present measurements;
                  logs := present logs;
                  traces :=
                    if Js.nonempty traces
                    then Some {| resourceSpans := [{| scopeSpans := traces;
                                                      resource := resource |}] |}
                    else None |}
      end
  end.

(** [await fetch(destination, { method: 'POST', body }).then(...)] *)
Definition post (net : Network) (destination body : string) : list Effect :=
  Fetch destination body
  :: match fetch net destination body with
     | None => []
     | Some ex =>
         [ConsoleError ("failed to reach logging backend: "
                        ++ (JsError.stack ex ?? "undefined"))]
     end.

(** The returned function [faroExporter(...batch)]. *)
Definition faroExporter (options : FaroExporterOptions) (net : Network)
  (batch : list Configure.ExportItem) : Settled * list Effect :=
  match payload options batch with
  | None => (Rejected, [])
  | Some result =>
      let body := stringify result in
      match sendBeacon net with
      | Some beacon =>
          if beacon (destination options) body
          then (Resolved, [Beacon (destination options) body])
          else (Resolved, Beacon (destination options) body
                          :: post net (destination options) body)
      | None => (Resolved, post net (destination options) body)
      end
  end.

End Exporter.

(** The requests that reached a server: accepted beacons, and calls of
    [fetch] whose promise is fulfilled. *)
Definition delivered (net : Network) (e : Effect) : bool :=
  match e with
  | Beacon destination body =>
      match sendBeacon net with
      | Some beacon => beacon destination body
      | None => false
      end
  | Fetch destination body =>
      match fetch net destination body with
      | None => true
      | Some _ => false
      end
  | ConsoleError _ => false
  end.

End FaroExporter.

(* ================================================================== *)
(** * Part II: properties *)
(* ================================================================== *)

(** ** Strings *)

Section StringFacts.

Local Open Scope string_scope.

Lemma split_avoids (sep : ascii) (s : string) :
  JsString.avoids sep s = true -> JsString.split sep s = [s].
Proof.
  induction s as [| x s IH]; simpl; [reflexivity |].
  intros H. apply andb_prop in H. destruct H as [Hx Hs].
  apply negb_true_iff in Hx. rewrite Hx, (IH Hs). reflexivity.
Qed.

Lemma split_app (sep : ascii) (a rest : string) :
  JsString.avoids sep a = true ->
  JsString.split sep (a ++ String sep rest) = a :: JsString.split sep rest.
Proof.
  induction a as [| x a IH]; simpl.
  - intros _. rewrite Ascii.eqb_refl. reflexivity.
  - intros H. apply andb_prop in H. destruct H as [Hx Ha].
    apply negb_true_iff in Hx. rewrite Hx, (IH Ha). reflexivity.
Qed.

Lemma length_append (a b : string) :
  String.length (a ++ b) = (String.length a + String.length b)%nat.
Proof. induction a as [| x a IH]; simpl; [reflexivity | now rewrite IH]. Qed.

Lemma allHex_app (a b : string) :
  JsString.allHex a = true -> JsString.allHex b = true -> JsString.allHex (a ++ b) = true.
Proof.
  induction a as [| x a IH]; simpl; intros Ha Hb; [exact Hb |].
  apply andb_prop in Ha. destruct Ha as [Hx Ha].
  rewrite Hx, (IH Ha Hb). reflexivity.
Qed.

Lemma allHex_avoids_dash (s : string) : JsString.allHex s = true -> JsString.avoids "-" s = true.
Proof.
  induction s as [| x s IH]; simpl; intros H; [reflexivity |].
  apply andb_prop in H. destruct H as [Hx Hs]. rewrite (IH Hs), andb_true_r.
  apply negb_true_iff. destruct (Ascii.eqb_spec x "-") as [-> | Hne]; [| reflexivity].
  discriminate Hx.
Qed.

(** A byte drawn from the random source prints as two hexadecimal digits. *)
Lemma hexByte (b : N) :
  (b < 255)%N ->
  let s := JsString.padStart 2 "0" (JsString.toString16 b) in
  String.length s = 2%nat /\ JsString.allHex s = true.
Proof.
  intros Hb.
  assert (Hall : forallb (fun k =>
                   let s := JsString.padStart 2 "0" (JsString.toString16 (N.of_nat k)) in
                   Nat.eqb (String.length s) 2 && JsString.allHex s) (seq 0 255) = true)
    by (vm_compute; reflexivity).
  rewrite forallb_forall in Hall.
  assert (Hin : In (N.to_nat b) (seq 0 255)) by (apply in_seq; lia).
  specialize (Hall (N.to_nat b) Hin). rewrite N2Nat.id in Hall.
  cbv zeta in Hall |- *.
  apply andb_prop in Hall. destruct Hall as [H1 H2].
  split; [apply Nat.eqb_eq; exact H1 | exact H2].
Qed.

Lemma id_hex (n : nat) :
  forall rt : Data.Runtime,
    String.length (fst (Data.id n rt)) = (2 * n)%nat /\
    JsString.allHex (fst (Data.id n rt)) = true /\
    Data.dateNow (snd (Data.id n rt)) = Data.dateNow rt /\
    Data.ticks (snd (Data.id n rt)) = Data.ticks rt.
Proof.
  induction n as [| n IH]; intros rt; [repeat split |].
  cbn [Data.id]. unfold Data.draw.
  set (rt1 := {| Data.dateNow := Data.dateNow rt; Data.ticks := Data.ticks rt;
                 Data.randomByte := Data.randomByte rt; Data.draws := S (Data.draws rt) |}).
  destruct (IH rt1) as (Hlen & Hhex & Hd & Ht).
  destruct (Data.id n rt1) as [rest rt2]. cbn [fst snd] in *.
  destruct (@hexByte (Data.randomByte rt (Data.draws rt) mod 255)%N) as [Hl Hh].
  { apply N.mod_lt. discriminate. }
  rewrite length_append, Hl, Hlen.
  split; [lia |]. split; [apply allHex_app; assumption |].
  split; assumption.
Qed.

End StringFacts.

(** ** Lists and JavaScript built-ins *)

Section ListFacts.

Context {A : Type}.

Lemma len_app (l1 l2 : list A) : Js.len (l1 ++ l2) = Js.len l1 + Js.len l2.
Proof. unfold Js.len. rewrite length_app. lia. Qed.

Lemma len_nonneg (l : list A) : 0 <= Js.len l.
Proof. unfold Js.len. lia. Qed.

Lemma nonempty_false (l : list A) : Js.nonempty l = false <-> l = [].
Proof. destruct l; simpl; split; congruence. Qed.

Lemma nonempty_true (l : list A) : Js.nonempty l = true <-> 0 < Js.len l.
Proof.
  destruct l; unfold Js.len; simpl; split; try congruence; try lia.
Qed.

Lemma len_skipn (n : Z) (l : list A) :
  0 <= n <= Js.len l -> Js.len (skipn (Z.to_nat n) l) = Js.len l - n.
Proof. unfold Js.len. intros H. rewrite length_skipn. lia. Qed.

Lemma len_firstn (n : Z) (l : list A) :
  0 <= n <= Js.len l -> Js.len (firstn (Z.to_nat n) l) = n.
Proof. unfold Js.len. intros H. rewrite length_firstn. lia. Qed.

Lemma skipn_all_len (n : Z) (l : list A) :
  Js.len l <= n -> skipn (Z.to_nat n) l = [].
Proof. unfold Js.len. intros H. apply skipn_all2. lia. Qed.

Lemma firstn_all_len (n : Z) (l : list A) :
  Js.len l <= n -> firstn (Z.to_nat n) l = l.
Proof. unfold Js.len. intros H. apply firstn_all2. lia. Qed.

End ListFacts.

(** ** The pausable stage *)

Section PausableProps.

Variable ExportItem : Type.
Variable options : option Pausable.PausableExporterOptions.

Lemma drained_init : Notions.drained (Pausable.init ExportItem options).
Proof. intros _. reflexivity. Qed.

Lemma drained_pausableExporter (events : list ExportItem) (st : Pausable.State ExportItem) :
  Notions.drained st -> Notions.drained (fst (Pausable.pausableExporter options events st)).
Proof.
  unfold Notions.drained, Pausable.pausableExporter. intros H.
  destruct (Pausable.paused st) eqn:Hp; simpl; [discriminate |].
  rewrite Hp. exact H.
Qed.

Lemma toggle_flushes (on : option bool) (st : Pausable.State ExportItem) :
  let '(st', out, p) := Pausable.toggle on st in
  p = Pausable.paused st' /\
  (Pausable.paused st' = false ->
     Pausable.pending st' = [] /\
     out = if Js.nonempty (Pausable.pending st) then [Pausable.pending st] else []) /\
  (Pausable.paused st' = true ->
     Pausable.pending st' = Pausable.pending st /\ out = []).
Proof.
  unfold Pausable.toggle.
  destruct (on ?? negb (Pausable.paused st)) eqn:Hon; simpl.
  - repeat split; congruence.
  - destruct (Js.nonempty (Pausable.pending st)) eqn:Hne; simpl.
    + repeat split; congruence.
    + apply nonempty_false in Hne. repeat split; congruence.
Qed.

Lemma drained_toggle (on : option bool) (st : Pausable.State ExportItem) :
  Notions.drained (fst (fst (Pausable.toggle on st))).
Proof.
  pose proof (toggle_flushes on st) as H.
  destruct (Pausable.toggle on st) as [[st' out] p]. simpl.
  intros Hp. apply H. exact Hp.
Qed.

Lemma drained_step (c : Pausable.Call ExportItem) (st : Pausable.State ExportItem) :
  Notions.drained st -> Notions.drained (fst (Pausable.step options c st)).
Proof.
  destruct c as [events | on]; simpl; intros H.
  - apply drained_pausableExporter; exact H.
  - apply drained_toggle.
Qed.

Lemma drained_run (cs : list (Pausable.Call ExportItem)) :
  forall st, Notions.drained st -> Notions.drained (fst (Pausable.run options cs st)).
Proof.
  induction cs as [| c cs IH]; simpl; intros st H.
  - exact H.
  - pose proof (drained_step c H) as H1.
    destruct (Pausable.step options c st) as [st1 out1]. simpl in H1.
    specialize (IH st1 H1).
    destruct (Pausable.run options cs st1) as [st2 out2]. exact IH.
Qed.

End PausableProps.

(** C10.  In every state the pausable stage can reach from its initial state
    by submissions and toggles: if the stage is unpaused its queue is empty
    and a submission is handed to the inner exporter as it is, the queue
    untouched; and a toggle that leaves the stage unpaused empties the queue
    within the same call, forwarding what was queued in one call, in queue
    order. *)
Theorem pausable_unpaused_queue_empty :
  forall (ExportItem : Type) (options : option Pausable.PausableExporterOptions)
         (cs : list (Pausable.Call ExportItem)) (st : Pausable.State ExportItem),
    fst (Pausable.run options cs (Pausable.init ExportItem options)) = st ->
    (Pausable.paused st = false ->
       Pausable.pending st = [] /\
       forall events, Pausable.pausableExporter options events st = (st, [events])) /\
    (forall on,
       let st' := fst (fst (Pausable.toggle on st)) in
       let out := snd (fst (Pausable.toggle on st)) in
       Pausable.paused st' = false ->
       Pausable.pending st' = [] /\
       out = if Js.nonempty (Pausable.pending st) then [Pausable.pending st] else []).
Proof.
  intros ExportItem options cs st Hrun.
  assert (Hinv : Notions.drained st).
  { rewrite <- Hrun. apply drained_run, drained_init. }
  split.
  - intros Hp. split; [exact (Hinv Hp) |].
    intros events. unfold Pausable.pausableExporter. rewrite Hp. reflexivity.
  - intros on. pose proof (toggle_flushes on st) as H.
    destruct (Pausable.toggle on st) as [[st' out] p]. simpl.
    intros Hp. apply H. exact Hp.
Qed.

(** A stage started paused, fed twice, then toggled. *)
Lemma pausable_unpaused_queue_empty_witness :
  let options := Some {| Pausable.startPaused := Some true; Pausable.maxQueueSize := None |} in
  let cs := [Pausable.Submit [1; 2]; Pausable.Submit [3]; Pausable.Toggle Z None] in
  let st := fst (Pausable.run options cs (Pausable.init Z options)) in
  Pausable.paused st = false /\
  Pausable.pending st = [] /\
  snd (Pausable.run options cs (Pausable.init Z options)) = [[1; 2; 3]].
Proof.
  intros options cs st.
  destruct (@pausable_unpaused_queue_empty Z options cs st eq_refl) as [H _].
  split; [reflexivity |].
  split; [apply H; reflexivity | reflexivity].
Defined.

(** ** The batching stage *)

Section BatchingProps.

Variable ExportItem : Type.
Variable options : option Batching.BatchingExportOptions.

Lemma batchingExporter_fits (events : list ExportItem) (st : Batching.State ExportItem) :
  Js.len (Batching.pending st ++ events) <= (Notions.queueLimit options) ->
  Batching.pending (Batching.batchingExporter options events st)
  = Batching.pending st ++ events.
Proof.
  unfold Notions.queueLimit, Batching.batchingExporter. intros H. simpl.
  destruct (Z.gtb_spec (Js.len (Batching.pending st ++ events))
              (Batching.opt options Batching.maxQueueSize ?? 100000)); [lia | reflexivity].
Qed.

Lemma batchingExporter_arms (events : list ExportItem) (st : Batching.State ExportItem) :
  Batching.timer (Batching.batchingExporter options events st) <> None.
Proof.
  unfold Batching.batchingExporter. simpl.
  destruct (Batching.timer st); discriminate.
Qed.

Lemma submitAll_fits (subs : list (list ExportItem)) :
  forall st : Batching.State ExportItem,
    Js.len (Batching.pending st ++ List.concat subs) <= (Notions.queueLimit options) ->
    Batching.pending (Batching.submitAll options subs st)
    = Batching.pending st ++ List.concat subs.
Proof.
  induction subs as [| events subs IH]; simpl; intros st H.
  - now rewrite app_nil_r.
  - rewrite app_assoc in H.
    assert (Hfit : Js.len (Batching.pending st ++ events) <= (Notions.queueLimit options)).
    { rewrite len_app in H. pose proof (len_nonneg (List.concat subs)). lia. }
    unfold Batching.submitAll in *. simpl.
    rewrite IH; rewrite batchingExporter_fits by exact Hfit.
    + now rewrite app_assoc.
    + exact H.
Qed.

Lemma submitAll_timer (subs : list (list ExportItem)) :
  forall st : Batching.State ExportItem,
    Batching.timer (Batching.submitAll options subs st) = None ->
    subs = [] /\ Batching.timer st = None.
Proof.
  induction subs as [| events subs IH]; simpl; intros st H.
  - split; [reflexivity | exact H].
  - unfold Batching.submitAll in *. simpl in H.
    destruct (IH _ H) as [_ Habs].
    now apply batchingExporter_arms in Habs.
Qed.

Lemma fireTimers_idle (fuel : nat) (st : Batching.State ExportItem) :
  Batching.timer st = None -> Batching.fireTimers options fuel st = (st, []).
Proof. intros H. destruct fuel; simpl; [reflexivity | now rewrite H]. Qed.

Lemma batched_single (b : Z) (l : list ExportItem) :
  0 < Js.len l <= b -> Notions.batched b l [l].
Proof.
  intros H. unfold Notions.batched. simpl. rewrite app_nil_r.
  split; [reflexivity |]. split; [repeat constructor; lia |]. split.
  - change (Js.len [l]) with 1.
    apply Z.div_unique with (r := Js.len l - 1); lia.
  - intros _. destruct (Z.eq_dec (Js.len l) b) as [-> | Hne].
    + rewrite Z_mod_same_full. reflexivity.
    + rewrite Z.mod_small by lia.
      destruct (Z.eqb_spec (Js.len l) 0); [lia | reflexivity].
Qed.

Lemma batched_cons (b : Z) (l : list ExportItem) (calls : list (list ExportItem)) :
  0 < b -> b < Js.len l ->
  Notions.batched b (skipn (Z.to_nat b) l) calls ->
  Notions.batched b l (firstn (Z.to_nat b) l :: calls).
Proof.
  intros Hb Hl (Hcat & Hall & Hcnt & Hlast).
  assert (Hrest : Js.len (skipn (Z.to_nat b) l) = Js.len l - b)
    by (apply len_skipn; lia).
  rewrite Hrest in Hcnt, Hlast.
  assert (Hdiv : (Js.len l - b + b - 1) / b = (Js.len l + b - 1) / b - 1).
  { replace (Js.len l - b + b - 1) with (Js.len l + b - 1 + (-1) * b) by lia.
    rewrite Z.div_add by lia. lia. }
  assert (Hmod : (Js.len l - b) mod b = Js.len l mod b).
  { replace (Js.len l - b) with (Js.len l + (-1) * b) by lia.
    apply Z.mod_add. lia. }
  unfold Notions.batched. simpl. rewrite Hcat, firstn_skipn.
  split; [reflexivity |]. split.
  - constructor; [| exact Hall]. rewrite len_firstn; lia.
  - split.
    + change (Js.len (firstn (Z.to_nat b) l :: calls)) with (Z.of_nat (S (List.length calls))).
      rewrite Hdiv in Hcnt. unfold Js.len at 1 in Hcnt. lia.
    + intros _. rewrite <- Hmod. rewrite <- Hlast by lia.
      destruct calls as [| c calls]; [| reflexivity].
      exfalso. change (Js.len (@nil (list ExportItem))) with 0 in Hcnt.
      assert (1 <= (Js.len l - b + b - 1) / b); [| lia].
      apply Z.div_le_lower_bound; lia.
Qed.

(** Enough firings empty the queue, batch by batch. *)
Lemma fireTimers_drains (fuel : nat) :
  forall (l : list ExportItem) (t : Z),
    0 < (Notions.batchSize options) ->
    Js.len l <= (Notions.batchSize options) * Z.of_nat fuel ->
    (1 <= fuel)%nat ->
    let r := Batching.fireTimers options fuel {| Batching.timer := Some t; Batching.pending := l |} in
    fst r = {| Batching.timer := None; Batching.pending := [] |} /\
    Notions.batched (Notions.batchSize options) l (snd r).
Proof.
  induction fuel as [| fuel IH]; intros l t Hb Hlen Hfuel; [lia |].
  cbn [Batching.fireTimers Batching.timer].
  unfold Batching.processBatch, Js.splice0. cbn [Batching.pending].
  fold (Notions.batchSize options).
  destruct (skipn (Z.to_nat (Notions.batchSize options)) l) as [| x rest] eqn:Hrest.
  - (* the queue fits in one batch *)
    cbn [Js.nonempty]. rewrite fireTimers_idle by reflexivity.
    assert (Hfit : Js.len l <= (Notions.batchSize options)).
    { pose proof (firstn_skipn (Z.to_nat (Notions.batchSize options)) l) as E. rewrite Hrest, app_nil_r in E.
      rewrite <- E. unfold Js.len. rewrite length_firstn. lia. }
    rewrite firstn_all_len by exact Hfit.
    destruct l as [| y l]; cbn [Js.nonempty fst snd app].
    + split; [reflexivity |]. unfold Notions.batched. simpl.
      split; [reflexivity |]. split; [constructor |]. split.
      * change (Js.len (@nil (list ExportItem))) with 0.
        change (Js.len (@nil ExportItem)) with 0.
        rewrite Z.div_small; lia.
      * change (Js.len (@nil ExportItem)) with 0. lia.
    + split; [reflexivity |]. apply batched_single.
      split; [| exact Hfit]. unfold Js.len. simpl. lia.
  - (* more than one batch: the timer is armed again *)
    cbn [Js.nonempty].
    assert (Hbig : (Notions.batchSize options) < Js.len l).
    { destruct (Z_lt_le_dec (Notions.batchSize options) (Js.len l)) as [H | H]; [exact H |].
      rewrite skipn_all_len in Hrest by exact H. discriminate. }
    assert (Hlen' : Js.len (x :: rest) <= (Notions.batchSize options) * Z.of_nat fuel).
    { rewrite <- Hrest. rewrite len_skipn by lia. lia. }
    assert (Hfuel' : (1 <= fuel)%nat).
    { destruct fuel; [| lia]. unfold Js.len in Hlen'. simpl in Hlen'. lia. }
    specialize (IH (x :: rest)
                   (Batching.opt options Batching.batchingInterval
                    ?? (Batching.opt options Batching.interval ?? 1000))
                   Hb Hlen' Hfuel').
    cbv zeta in IH.
    destruct (Batching.fireTimers options fuel _) as [st2 out2].
    destruct IH as [Hst Hout]. cbn [fst snd] in *.
    assert (Hne : Js.nonempty (firstn (Z.to_nat (Notions.batchSize options)) l) = true).
    { apply nonempty_true. rewrite len_firstn; lia. }
    rewrite Hne. split; [exact Hst |].
    cbn [app]. apply batched_cons; [exact Hb | exact Hbig |].
    rewrite Hrest. exact Hout.
Qed.

(** On overflow with no [maxQueueSize] configured, the comparison uses
    100000 and the trim uses 1000. *)
Lemma batchingExporter_default_overflow (events : list ExportItem) (st : Batching.State ExportItem) :
  Batching.opt options Batching.maxQueueSize = None ->
  100000 < Js.len (Batching.pending st ++ events) ->
  let p := Batching.pending st ++ events in
  Batching.pending (Batching.batchingExporter options events st)
  = skipn (Z.to_nat (Js.len p - 1000)) p /\
  Js.len (Batching.pending (Batching.batchingExporter options events st)) = 1000.
Proof.
  intros Hopt Hlen p. unfold Batching.batchingExporter. simpl. rewrite Hopt. simpl.
  fold p.
  destruct (Z.gtb_spec (Js.len p) 100000); [| unfold p in *; lia].
  split; [reflexivity |]. rewrite len_skipn; unfold p in *; lia.
Qed.

End BatchingProps.

(** C4.  A batching stage built with no options, given 100001 items in one
    submission, keeps the newest 1000 of them, not the newest 100000: the
    queue is compared with 100000 but trimmed to 1000. *)
Theorem batching_default_overflow_keeps_1000 :
  let st := Batching.batchingExporter None (Sample.itemsFrom 1 (Z.to_nat 100001))
              (Batching.init Z) in
  Batching.pending st = Sample.itemsFrom 99002 1000 /\
  Js.len (Batching.pending st) = 1000 /\
  Js.len (Batching.pending st) <> 100000.
Proof.
  assert (Hlen : forall n s, Js.len (Sample.itemsFrom s n) = Z.of_nat n).
  { induction n as [| n IH]; intros s; [reflexivity |].
    unfold Js.len in *. simpl List.length. rewrite Nat2Z.inj_succ, IH, Nat2Z.inj_succ. reflexivity. }
  assert (Hskip : forall k n s,
             skipn k (Sample.itemsFrom s (k + n)) = Sample.itemsFrom (s + Z.of_nat k) n).
  { induction k as [| k IH]; intros n s.
    - simpl. f_equal. lia.
    - cbn [Nat.add Sample.itemsFrom skipn]. rewrite IH. f_equal. lia. }
  intros st.
  destruct (@batchingExporter_default_overflow Z None
              (Sample.itemsFrom 1 (Z.to_nat 100001)) (Batching.init Z) eq_refl) as [Hp Hl].
  { cbn [Batching.init Batching.pending app]. rewrite Hlen. lia. }
  fold st in Hp, Hl. cbn [Batching.init Batching.pending app] in Hp.
  rewrite Hlen in Hp.
  split; [| split; [exact Hl | lia]].
  rewrite Hp.
  replace (Z.to_nat 100001) with (Z.to_nat 99001 + 1000)%nat by lia.
  replace (Z.to_nat (Z.of_nat (Z.to_nat 99001 + 1000) - 1000)) with (Z.to_nat 99001) by lia.
  rewrite Hskip. f_equal.
Qed.

(** C9 (amended).  With batches of 35 and a queue limit that the [N]
    submitted items do not exceed, letting the timers fire after the last
    submission empties the queue and disarms the timer; the inner exporter
    is called [ceil(N/35)] times, with non-empty batches of at most 35 items
    that, put end to end, are the submitted items in submission order, and
    the last call carries [N mod 35] items, or 35 when that is zero. *)
Theorem batching_drains_in_batches_of_35 :
  forall (ExportItem : Type) (options : option Batching.BatchingExportOptions)
         (subs : list (list ExportItem)) (fuel : nat),
    Batching.opt options Batching.maxBatchSize ?? 35 = 35 ->
    Js.len (List.concat subs) <= Batching.opt options Batching.maxQueueSize ?? 100000 ->
    Js.len (List.concat subs) < Z.of_nat fuel ->
    let N := Js.len (List.concat subs) in
    let r := Batching.fireTimers options fuel
               (Batching.submitAll options subs (Batching.init ExportItem)) in
    Batching.timer (fst r) = None /\
    Batching.pending (fst r) = [] /\
    List.concat (snd r) = List.concat subs /\
    Forall (fun c => 0 < Js.len c <= 35) (snd r) /\
    Js.len (snd r) = (N + 34) / 35 /\
    (0 < N -> Js.len (last (snd r) []) = if N mod 35 =? 0 then 35 else N mod 35).
Proof.
  intros ExportItem options subs fuel Hb Hq Hfuel N r.
  pose proof (@submitAll_fits ExportItem options subs (Batching.init ExportItem) Hq) as Hpend.
  cbn [Batching.init Batching.pending app] in Hpend.
  subst r. remember (Batching.submitAll options subs (Batching.init ExportItem)) as st eqn:Hst.
  destruct st as [[t |] p]; cbn [Batching.pending] in Hpend; subst p.
  - pose proof (@fireTimers_drains ExportItem options fuel (List.concat subs) t) as H.
    unfold Notions.batchSize in H. rewrite Hb in H.
    pose proof (len_nonneg (List.concat subs)) as Hnn.
    destruct H as [H1 (H2 & H3 & H4 & H5)]; [lia | lia | lia |].
    rewrite H1. cbn [Batching.timer Batching.pending].
    replace (N + 34) with (N + 35 - 1) by lia.
    repeat split; assumption.
  - symmetry in Hst. apply (f_equal (@Batching.timer ExportItem)) in Hst.
    cbn [Batching.timer] in Hst. apply submitAll_timer in Hst. destruct Hst as [-> _].
    subst N. cbn [Batching.fireTimers List.concat].
    rewrite fireTimers_idle by reflexivity. cbn [fst snd List.concat Batching.timer Batching.pending Batching.init].
    change (Js.len (@nil ExportItem)) with 0.
    repeat split; try reflexivity; try constructor. lia.
Qed.

(** Three submissions, 80 items in all, default queue limit. *)
Lemma batching_drains_in_batches_of_35_witness :
  let options := Some {| Batching.interval := None; Batching.batchingInterval := Some 100;
                         Batching.maxBatchSize := Some 35; Batching.maxQueueSize := None |} in
  let subs := [Sample.itemsFrom 1 30; Sample.itemsFrom 31 10; Sample.itemsFrom 41 40] in
  let r := Batching.fireTimers options 81 (Batching.submitAll options subs (Batching.init Z)) in
  Js.len (List.concat subs) = 80 /\
  List.concat (snd r) = Sample.itemsFrom 1 80 /\
  Js.len (snd r) = 3 /\
  Js.len (last (snd r) []) = 10.
Proof.
  intros options subs r.
  destruct (@batching_drains_in_batches_of_35 Z options subs 81%nat) as (_ & _ & H3 & _ & H5 & H6).
  - reflexivity.
  - vm_compute. discriminate.
  - reflexivity.
  - split; [reflexivity |]. split; [exact H3 |]. split; [exact H5 |].
    apply H6. reflexivity.
Defined.

(** C9 as stated fails when the queue limit is below the number of items:
    with [maxQueueSize = 20], 50 items submitted at once leave one call with
    the 20 newest items, where [ceil(50/35) = 2] calls were promised. *)
Lemma batching_drains_counterexample :
  let options := Some {| Batching.interval := None; Batching.batchingInterval := None;
                         Batching.maxBatchSize := Some 35; Batching.maxQueueSize := Some 20 |} in
  let r := Batching.fireTimers options 51
             (Batching.submitAll options [Sample.itemsFrom 1 50] (Batching.init Z)) in
  snd r = [Sample.itemsFrom 31 20] /\
  Js.len (snd r) <> (50 + 34) / 35 /\
  Js.len (last (snd r) []) <> 50 mod 35.
Proof.
  vm_compute. repeat split; discriminate.
Qed.

(** ** The trace and span engine *)

Section ContextProps.

Import Protocol Context.
Local Open Scope string_scope.

Lemma traceparent_value (s : Span) (w : World) :
  RunningSpan.traceparent s w
  = (Returned ("00-" ++ traceId s ++ "-" ++ spanId s ++ "-"
               ++ (if sample s then "1" else "0")), s, w).
Proof. unfold RunningSpan.traceparent. destruct (sample s); reflexivity. Qed.

Lemma split_traceparent (t i f : string) :
  JsString.avoids "-" t = true -> JsString.avoids "-" i = true ->
  JsString.avoids "-" f = true ->
  JsString.split "-" ("00-" ++ t ++ "-" ++ i ++ "-" ++ f) = ["00"; t; i; f].
Proof.
  intros Ht Hi Hf.
  change ("00-" ++ t ++ "-" ++ i ++ "-" ++ f)
    with ("00" ++ String "-" (t ++ String "-" (i ++ String "-" f))).
  rewrite !split_app by (assumption || reflexivity).
  rewrite split_avoids by assumption. reflexivity.
Qed.

(** [makeSpan] calls no export function. *)
Lemma makeSpan_plain (parent : ParentSpan) (w : World) :
  exported (snd (makeSpan parent None w)) = exported w.
Proof.
  unfold makeSpan. destruct (Data.now (runtime w)) as [t rt].
  destruct (makeParentObj parent) as [[v [tid |] sid smp] |];
    try destruct (Data.id 16 rt) as [a rt1];
    match goal with |- context [Data.id 8 ?r] => destruct (Data.id 8 r) end;
    reflexivity.
Qed.

(** [tracer(exporter, parent).log(scope, severity, message, record)]
    never reads [parent]: the emitted record takes its trace id and span
    id from [record], and no other field of [record] reaches it. *)
Lemma tracer_log_emits (exporter : ExportFunction) (parent : ParentSpan)
  (scope : InstrumentationScope) (severity : Z) (message : string)
  (record : option PartialLogRecord) (w : World) :
  Notions.emittedLogs (snd (t_log (tracer exporter parent) scope severity message record w))
  = (Notions.emittedLogs w
     ++ [{| timeUnixNano := fst (Data.now (runtime w));
            observedTimeUnixNano := None;
            severityNumber := Some severity;
            severityText := None;
            body := Some (ofString message);
            logAttributes := None;
            droppedAttributesCount := None;
            flags := None;
            logTraceId := match record with Some r => r_traceId r | None => None end;
            logSpanId := match record with Some r => r_spanId r | None => None end |}])%list.
Proof.
  unfold tracer, t_log, log, callExporter, Notions.emittedLogs. cbn [snd].
  destruct (Data.now (runtime w)) as [t rt]. cbn [fst snd exported setRuntime].
  rewrite concat_app, flat_map_app. cbn [List.concat flat_map app Configure.log].
  destruct record as [r |]; reflexivity.
Qed.

(** The two ids of a new span, as functions of the parent and of the random
source. *)
Lemma makeSpan_fields (parent : ParentSpan) (w : World) :
  let s := fst (makeSpan parent None w) in
  let rt := snd (Data.now (runtime w)) in
  traceId s = match Notions.traceIdOf parent with
              | Some t => t
              | None => fst (Data.id 16 rt)
              end /\
  spanId s = fst (Data.id 8 match Notions.traceIdOf parent with
                            | Some _ => rt
                            | None => snd (Data.id 16 rt)
                            end).
Proof.
  cbv zeta. unfold makeSpan.
  assert (Hparent : match makeParentObj parent with
                    | Some p => po_traceId p
                    | None => None
                    end = Notions.traceIdOf parent)
    by (destruct parent; reflexivity).
  destruct (Data.now (runtime w)) as [t0 rt]. cbn [snd].
  destruct (makeParentObj parent) as [[v [tid |] sid smp] |]; cbn [po_traceId] in Hparent;
    rewrite <- Hparent.
  - destruct (Data.id 8 rt) as [sid' rt']. split; reflexivity.
  - destruct (Data.id 16 rt) as [tid' rt1]. cbn [snd].
    destruct (Data.id 8 rt1) as [sid' rt']. split; reflexivity.
  - destruct (Data.id 16 rt) as [tid' rt1]. cbn [snd].
    destruct (Data.id 8 rt1) as [sid' rt']. split; reflexivity.
Qed.

Lemma split_parts_avoid (sep : ascii) (s : string) :
  Forall (fun p => JsString.avoids sep p = true) (JsString.split sep s).
Proof.
  induction s as [| x s IH]; simpl.
  - repeat constructor.
  - destruct (Ascii.eqb x sep) eqn:Hx.
    + constructor; [reflexivity | exact IH].
    + destruct (JsString.split sep s) as [| p ps].
      * constructor; [| constructor]. simpl. rewrite Hx. reflexivity.
      * inversion IH as [| ? ? Hp Hps]; subst.
        constructor; [| exact Hps]. simpl. rewrite Hx, Hp. reflexivity.
Qed.

(** The ids of a span started without parent or under a traceparent string
have no ['-']. *)
Lemma makeSpan_ids_avoid_dash (parent : ParentSpan) (w : World) :
  (forall o, parent <> ParentObject o) ->
  JsString.avoids "-" (traceId (fst (makeSpan parent None w))) = true /\
  JsString.avoids "-" (spanId (fst (makeSpan parent None w))) = true.
Proof.
  intros Hparent.
  destruct (makeSpan_fields parent w) as [Htrace Hspan].
  rewrite Htrace, Hspan. split.
  - destruct parent as [o | s |].
    + now contradiction (Hparent o).
    + cbn [Notions.traceIdOf].
      destruct (nth_error (JsString.split "-" s) 1) as [t |] eqn:Ht.
      * pose proof (split_parts_avoid "-" s) as Hall.
        rewrite Forall_forall in Hall. apply Hall.
        eapply nth_error_In. exact Ht.
      * apply allHex_avoids_dash. apply id_hex.
    + apply allHex_avoids_dash. apply id_hex.
  - apply allHex_avoids_dash. apply id_hex.
Qed.

End ContextProps.

Import Protocol Context.
Local Open Scope string_scope.

(** C1.  A tracer bound to a parent with a trace id and a span id, asked to
    log with the record [{ severityText: 'INFO' }], emits one log record
    that has no trace id, no span id and no severity text: the parent is
    not read and the record is not applied. *)
Theorem tracer_log_loses_parent_and_record :
  let w := snd (t_log (tracer Sample.delivers Sample.parent)
                  (ScopeName "app") 9 "hello" (Some Sample.record) Sample.world) in
  Notions.traceIdOf Sample.parent = Some "0af7651916cd43dd8448eb211c80319c" /\
  Notions.spanIdOf Sample.parent = Some "b7ad6b7169203331" /\
  map logTraceId (Notions.emittedLogs w) = [None] /\
  map logSpanId (Notions.emittedLogs w) = [None] /\
  map severityText (Notions.emittedLogs w) = [None].
Proof.
  cbv zeta. rewrite tracer_log_emits. repeat split; reflexivity.
Qed.

(** C2.  [traceparent()] ends in a flags field of one digit, [1] for a
    sampled span and [0] otherwise, not in the two digits [01] or [00]. *)
Theorem traceparent_flags_one_digit :
  forall (s : Span) (w : World),
    let flags := if sample s then "1" else "0" in
    fst (fst (RunningSpan.traceparent s w))
    = Returned ("00-" ++ traceId s ++ "-" ++ spanId s ++ "-" ++ flags) /\
    String.length flags = 1%nat.
Proof.
  intros s w flags. rewrite traceparent_value. subst flags.
  split; [reflexivity | destruct (sample s); reflexivity].
Qed.

(** A run without parent whose callback returns its traceparent. *)
Example traceparent_of_root_span :
  fst (runSpan (Some Sample.delivers) (ScopeName "app") ParentAbsent
         RunningSpan.traceparent Sample.world)
  = Returned "00-0b30557a9fc4e90f34597ea3c8ed1338-5d82a7ccf1173c61-1".
Proof. vm_compute. reflexivity. Qed.

(** C3 (amended).  For a running span whose trace id and span id contain no
    ['-'], parsing the string that [traceparent()] returns gives back the
    span's trace id, span id and sample flag. *)
Theorem traceparent_roundtrip :
  forall (s : Span) (w : World) (tp : string),
    JsString.avoids "-" (traceId s) = true ->
    JsString.avoids "-" (spanId s) = true ->
    fst (fst (RunningSpan.traceparent s w)) = Returned tp ->
    makeParentObj (ParentString tp)
    = Some {| version := Some 0;
              po_traceId := Some (traceId s);
              po_spanId := Some (spanId s);
              po_sample := sample s |}.
Proof.
  intros s w tp Ht Hi Htp. rewrite traceparent_value in Htp. cbn [fst] in Htp.
  assert (E : tp = "00-" ++ traceId s ++ "-" ++ spanId s ++ "-"
                    ++ (if sample s then "1" else "0")) by congruence.
  rewrite E. unfold makeParentObj.
  rewrite split_traceparent by (assumption || (destruct (sample s); reflexivity)).
  cbn [nth_error]. destruct (sample s); reflexivity.
Qed.

(** The span of a run under a traceparent string. *)
Lemma traceparent_roundtrip_witness :
  let s := fst (makeSpan (ParentString "00-0af7651916cd43dd8448eb211c80319c-b7ad6b7169203331-00")
                  None Sample.world) in
  traceId s = "0af7651916cd43dd8448eb211c80319c" /\
  sample s = false /\
  makeParentObj (ParentString "00-0af7651916cd43dd8448eb211c80319c-0b30557a9fc4e90f-0")
  = Some {| version := Some 0;
            po_traceId := Some (traceId s);
            po_spanId := Some (spanId s);
            po_sample := sample s |}.
Proof.
  intros s. split; [reflexivity |]. split; [reflexivity |].
  apply (@traceparent_roundtrip s Sample.world); reflexivity.
Defined.

(** C3 as stated fails for a span whose trace id has a ['-'] in it, here a
    span started under a parent whose trace id is a UUID: the parsed trace
    id is the UUID's first group and the parsed span id its second. *)
Lemma traceparent_roundtrip_counterexample :
  let s := fst (makeSpan Sample.uuidParent None Sample.world) in
  let tp := "00-123e4567-e89b-12d3-a456-426614174000-0b30557a9fc4e90f-1" in
  fst (fst (RunningSpan.traceparent s Sample.world)) = Returned tp /\
  traceId s = "123e4567-e89b-12d3-a456-426614174000" /\
  spanId s = "0b30557a9fc4e90f" /\
  option_map po_traceId (makeParentObj (ParentString tp)) = Some (Some "123e4567") /\
  option_map po_spanId (makeParentObj (ParentString tp)) = Some (Some "e89b").
Proof. vm_compute. repeat split; reflexivity. Qed.

(** C6 (amended).  When the callback throws [ex], [runSpan] sets the status
    of the span to [{code: 2, message: "ERROR"}] and appends one event named
    ["error"] that carries the attributes derived from [ex]; it then raises
    [ex] itself, unless the export call that ends the run is made and fails,
    in which case the failure of that call is raised instead. *)
Theorem runSpan_rethrows_after_recording :
  forall (T : Type) (exporter : option ExportFunction) (scope : InstrumentationScope)
         (parent : ParentSpan) (fn : Body T) (w : World)
         (ex : JsError.Error) (s1 : Span) (w1 : World),
    fn (fst (makeSpan parent None w)) (snd (makeSpan parent None w)) = (Thrown ex, s1, w1) ->
    let newSpan := snd (fst (runSpanOn exporter scope parent fn w)) in
    status newSpan = {| message := "ERROR"; code := 2 |} /\
    events newSpan
    = (events s1 ++ [{| ev_timeUnixNano := fst (Data.now (runtime w1));
                        ev_name := "error";
                        ev_attributes := Some (errorAttributes ex) |}])%list /\
    sample newSpan = sample s1 /\
    fst (runSpan exporter scope parent fn w)
    = match Notions.finalExportFailure exporter scope newSpan with
      | None => Thrown ex
      | Some failure => Thrown failure
      end.
Proof.
  intros T exporter scope parent fn w ex s1 w1 Hfn.
  unfold runSpan, runSpanOn.
  destruct (makeSpan parent None w) as [s0 w0]. cbn [fst snd] in Hfn.
  rewrite Hfn. unfold RunningSpan.mark.
  destruct (Data.now (runtime w1)) as [t1 rt1]. cbn [fst snd runtime setRuntime].
  destruct (Data.now rt1) as [t2 rt2].
  set (newSpan := setEndTimeUnixNano t2 _).
  assert (Hsample : sample newSpan = sample s1) by reflexivity.
  assert (Hstatus : status newSpan = {| message := "ERROR"; code := 2 |}) by reflexivity.
  assert (Hevents : events newSpan
                    = (events s1 ++ [{| ev_timeUnixNano := t1; ev_name := "error";
                                        ev_attributes := Some (errorAttributes ex) |}])%list)
    by reflexivity.
  clearbody newSpan.
  unfold Notions.finalExportFailure, Notions.spanItem, callExporter.
  destruct exporter as [f |].
  - destruct (sample newSpan) eqn:Hs.
    + match goal with |- context [f ?items] => destruct (f items) eqn:Hf end;
        cbn [fst snd]; rewrite Hs, Hf; auto.
    + cbn [fst snd]. rewrite Hs. auto.
  - cbn [fst snd]. auto.
Qed.

(** A callback that throws, with an exporter that delivers. *)
Lemma runSpan_rethrows_after_recording_witness :
  let r := runSpanOn (Some Sample.delivers) (ScopeName "app") ParentAbsent
             (@throw unit Sample.rangeError) Sample.world in
  fst (fst r) = Thrown Sample.rangeError /\
  status (snd (fst r)) = {| message := "ERROR"; code := 2 |} /\
  map ev_name (events (snd (fst r))) = ["error"].
Proof.
  intros r.
  destruct (@runSpan_rethrows_after_recording unit (Some Sample.delivers) (ScopeName "app")
              ParentAbsent (@throw unit Sample.rangeError) Sample.world
              Sample.rangeError
              (fst (makeSpan ParentAbsent None Sample.world))
              (snd (makeSpan ParentAbsent None Sample.world)) eq_refl)
    as (Hstatus & Hevents & _ & Hresult).
  split; [reflexivity |]. split; [exact Hstatus |].
  unfold r. rewrite Hevents. reflexivity.
Defined.

(** C6 as stated fails when the exporter rejects: the caller of [runSpan]
    then sees the exporter's error, not the one the callback threw. *)
Lemma runSpan_rethrows_counterexample :
  fst (runSpan (Some Sample.rejects) (ScopeName "app") ParentAbsent
         (@throw unit Sample.rangeError) Sample.world)
  = Thrown Sample.networkError /\
  JsError.name Sample.networkError = "NetworkError" /\
  JsError.name Sample.rangeError = "RangeError".
Proof. vm_compute. repeat split; reflexivity. Qed.

(** C7.  If the callback reaches a call of [cancel()] and what it does
    afterwards leaves the sample flag false, [runSpan] hands nothing to the
    export function when the callback ends, whether it returns or throws:
    the export function has seen the calls of the callback and no other,
    and the run ends the way the callback ended. *)
Theorem cancel_suppresses_export :
  forall (A T : Type) (exporter : ExportFunction) (scope : InstrumentationScope)
         (parent : ParentSpan) (before : Body A) (after : A -> Body T) (w : World)
         (a : A) (s1 : Span) (w1 : World),
    before (fst (makeSpan parent None w)) (snd (makeSpan parent None w))
    = (Returned a, s1, w1) ->
    sample (snd (fst (after a (setSample false s1) w1))) = false ->
    let fn := bind before (fun a => bind RunningSpan.cancel (fun _ => after a)) in
    let ended := after a (setSample false s1) w1 in
    exported (snd (runSpan (Some exporter) scope parent fn w)) = exported (snd ended) /\
    fst (runSpan (Some exporter) scope parent fn w) = fst (fst ended).
Proof.
  intros A T exporter scope parent before after w a s1 w1 Hbefore Hafter fn ended.
  unfold runSpan, runSpanOn. subst fn ended.
  destruct (makeSpan parent None w) as [s0 w0]. cbn [fst snd] in Hbefore.
  cbv beta delta [bind RunningSpan.cancel]. rewrite Hbefore. cbv beta iota.
  destruct (after a (setSample false s1) w1) as [[result s2] w2]. cbn [fst snd] in Hafter |- *.
  destruct result as [v | ex].
  - destruct (Data.now (runtime w2)) as [t rt].
    cbn [sample setEndTimeUnixNano]. rewrite Hafter. split; reflexivity.
  - unfold RunningSpan.mark.
    destruct (Data.now (runtime w2)) as [t1 rt1]. cbn [runtime setRuntime].
    destruct (Data.now rt1) as [t2 rt2].
    cbn [sample setEndTimeUnixNano setEvents setStatus]. rewrite Hafter. split; reflexivity.
Qed.

(** A callback that sets the status, cancels the span and then throws. *)
Lemma cancel_suppresses_export_witness :
  let before := assign (fun s => setStatus {| message := "working"; code := 0 |} s) in
  let after := fun _ : unit => @throw unit Sample.rangeError in
  let fn := bind before (fun a => bind RunningSpan.cancel (fun _ => after a)) in
  exported (snd (runSpan (Some Sample.delivers) (ScopeName "app") Sample.parent fn Sample.world))
  = [] /\
  fst (runSpan (Some Sample.delivers) (ScopeName "app") Sample.parent fn Sample.world)
  = Thrown Sample.rangeError.
Proof.
  intros before after fn.
  exact (@cancel_suppresses_export unit unit Sample.delivers (ScopeName "app") Sample.parent
           before after Sample.world tt
           (setStatus {| message := "working"; code := 0 |}
              (fst (makeSpan Sample.parent None Sample.world)))
           (snd (makeSpan Sample.parent None Sample.world))
           eq_refl eq_refl).
Defined.

(** C8 (amended).  The span that [makeSpan(P)] returns has the trace id of
    [P] when [P] carries a non-empty one; when [P] is absent or carries no
    trace id, its trace id is generated: 32 hexadecimal digits read from the
    random source.  Its span id is generated in every case, 16 hexadecimal
    digits read from the random source after the trace id, whatever the span
    id of [P] is. *)
Theorem makeSpan_ids :
  forall (parent : ParentSpan) (w : World),
    let s := fst (makeSpan parent None w) in
    let rt := snd (Data.now (runtime w)) in
    (forall t, Notions.traceIdOf parent = Some t -> t <> "" ->
               traceId s = t /\ spanId s = fst (Data.id 8 rt)) /\
    (Notions.traceIdOf parent = None ->
       traceId s = fst (Data.id 16 rt) /\
       String.length (traceId s) = 32%nat /\
       JsString.allHex (traceId s) = true /\
       spanId s = fst (Data.id 8 (snd (Data.id 16 rt)))) /\
    String.length (spanId s) = 16%nat /\
    JsString.allHex (spanId s) = true.
Proof.
  intros parent w s rt.
  destruct (makeSpan_fields parent w) as [Htrace Hspan]. fold s rt in Htrace, Hspan.
  split; [| split].
  - intros t Ht _. rewrite Ht in Htrace, Hspan. split; assumption.
  - intros Hnone. rewrite Hnone in Htrace, Hspan.
    pose proof (id_hex 16 rt) as (Hlen & Hhex & _).
    rewrite Htrace. repeat split; assumption.
  - rewrite Hspan. split; apply id_hex.
Qed.

(** C8 as stated fails in two ways.  The span id is whatever the random
    source yields, which can be the span id of the parent; and a parent with
    an empty trace id passes it on, where a generated one was promised. *)
Lemma makeSpan_ids_counterexample :
  Notions.spanIdOf Sample.parent = Some "b7ad6b7169203331" /\
  spanId (fst (makeSpan Sample.parent None Sample.collidingWorld)) = "b7ad6b7169203331" /\
  Notions.traceIdOf Sample.emptyTraceParent = Some "" /\
  traceId (fst (makeSpan Sample.emptyTraceParent None Sample.world)) = "".
Proof. vm_compute. repeat split; reflexivity. Qed.

(** ** The collector payload *)

Section FaroProps.

Variable isoTimestamp : string -> option string.
Variable numberToString : PrimFloat.float -> string.
Variable toNumber : option NumberOrString -> PrimFloat.float.
Variable ErrorStack : Type.
Variable parseStackTrace : string -> option ErrorStack.

(** An item with a span adds to the span groups and to nothing else,
whatever else it carries. *)
Lemma collectItem_span (item : Configure.ExportItem) (s : Span)
  (b b' : Faro.Batches ErrorStack) :
  Configure.span item = Some s ->
  Faro.collectItem isoTimestamp numberToString toNumber parseStackTrace item b = Some b' ->
  Faro.logsBatch b' = Faro.logsBatch b /\
  Faro.eventsBatch b' = Faro.eventsBatch b /\
  Faro.exceptionBatch b' = Faro.exceptionBatch b /\
  Faro.measurementsBatch b' = Faro.measurementsBatch b.
Proof.
  unfold Faro.collectItem, Faro.collectSpan. intros ->.
  destruct (Faro.inherited _); [discriminate |].
  intros [= <-]. repeat split.
Qed.

(** An item without span whose log is an exception or an event adds to
that one list and to nothing else, whatever metric it carries. *)
Lemma collectItem_exception_or_event (item : Configure.ExportItem) (l : LogRecord)
  (b b' : Faro.Batches ErrorStack) (kind : string) :
  Configure.span item = None ->
  Configure.log item = Some l ->
  Faro.get "kind"
    (Faro.fromEntries (map (fun attr => (key attr, Faro.getStringValue numberToString (value attr)))
                           (logAttributes l ?? []))) = Some kind ->
  kind = "exception" \/ kind = "event" ->
  Faro.collectItem isoTimestamp numberToString toNumber parseStackTrace item b = Some b' ->
  Faro.logsBatch b' = Faro.logsBatch b /\
  Faro.measurementsBatch b' = Faro.measurementsBatch b /\
  Faro.tracesBatch b' = Faro.tracesBatch b /\
  (List.length (Faro.exceptionBatch b') + List.length (Faro.eventsBatch b')
   = S (List.length (Faro.exceptionBatch b) + List.length (Faro.eventsBatch b)))%nat.
Proof.
  unfold Faro.collectItem, Faro.collectLog. intros -> -> -> Hkind.
  destruct (isoTimestamp (timeUnixNano l)) as [timestamp |]; [| discriminate].
  destruct (body l) as [logBody |]; [| discriminate].
  destruct Hkind as [-> | ->]; cbn [option_map String.eqb Ascii.eqb Bool.eqb Js.nullish];
    intros [= <-]; cbn [Faro.logsBatch Faro.measurementsBatch Faro.tracesBatch
                        Faro.exceptionBatch Faro.eventsBatch];
    rewrite length_app; cbn [List.length]; repeat split; lia.
Qed.

End FaroProps.

(** C5.  An item that carries a plain log message and a gauge adds to two
categories of the payload, the logs and the measurements: the branch for
plain log messages does not end the iteration, so the metric branch runs
as well. *)
Theorem collect_log_and_gauge_counted_twice :
  forall (isoTimestamp : string -> option string)
         (numberToString : PrimFloat.float -> string)
         (toNumber : option NumberOrString -> PrimFloat.float)
         (ErrorStack : Type) (parseStackTrace : string -> option ErrorStack)
         (timestamp : string),
    isoTimestamp "1700000000000000000" = Some timestamp ->
    Faro.collect isoTimestamp numberToString toNumber parseStackTrace [Sample.logAndGauge]
    = Some ([],
            [{| Faro.logMessage := Some "hi";
                Faro.level := "info";
                Faro.logContext := [];
                Faro.logTimestamp := timestamp;
                Faro.logTrace := None |}],
            [{| Faro.measurementType := "app";
                Faro.measurementValues := [("cls", toNumber (Some (Num Sample.clsValue)))] |}],
            [],
            []).
Proof.
  intros isoTimestamp numberToString toNumber ErrorStack parseStackTrace timestamp Hts.
  unfold Faro.collect, Faro.collectAll, Faro.collectItem, Faro.collectLog.
  cbn [Sample.logAndGauge Configure.span Configure.log timeUnixNano].
  rewrite Hts. reflexivity.
Qed.

Lemma collect_log_and_gauge_counted_twice_witness :
  exists logs measurements,
    Faro.collect Sample.isoTimestamp Sample.numberToString Sample.toNumber
      Sample.parseStackTrace [Sample.logAndGauge]
    = Some ([], logs, measurements, [], []) /\
    List.length logs = 1%nat /\ List.length measurements = 1%nat.
Proof.
  eexists. eexists. split.
  - apply (@collect_log_and_gauge_counted_twice Sample.isoTimestamp Sample.numberToString
             Sample.toNumber (list string) Sample.parseStackTrace
             "2023-11-14T22:13:20.000Z" eq_refl).
  - split; reflexivity.
Defined.

(** ** Further properties of the pipeline and of the engine *)

Section PausableFlush.

Variable ExportItem : Type.
Variable options : option Pausable.PausableExporterOptions.

(** Submissions to a paused stage queue up, and nothing is forwarded. *)
Lemma run_submits_paused (subs : list (list ExportItem)) :
  forall st : Pausable.State ExportItem,
    Pausable.paused st = true ->
    Js.len (Pausable.pending st ++ List.concat subs)
    <= Pausable.opt options Pausable.maxQueueSize ?? 100000 ->
    Pausable.run options (map (@Pausable.Submit ExportItem) subs) st
    = ({| Pausable.paused := true;
          Pausable.pending := Pausable.pending st ++ List.concat subs |}, []).
Proof.
  induction subs as [| events subs IH]; intros st Hp Hlen.
  - cbn [map Pausable.run List.concat]. rewrite app_nil_r.
    destruct st as [p q]. cbn [Pausable.paused] in Hp. subst p. reflexivity.
  - cbn [map Pausable.run Pausable.step List.concat] in *.
    unfold Pausable.pausableExporter. rewrite Hp.
    rewrite app_assoc in Hlen.
    assert (Hfit : Js.len (Pausable.pending st ++ events)
                   <= Pausable.opt options Pausable.maxQueueSize ?? 100000).
    { rewrite len_app in Hlen. pose proof (len_nonneg (List.concat subs)). lia. }
    destruct (Z.gtb_spec (Js.len (Pausable.pending st ++ events))
                (Pausable.opt options Pausable.maxQueueSize ?? 100000)); [lia |].
    rewrite IH; cbn [Pausable.paused Pausable.pending]; try reflexivity; try assumption.
    rewrite <- app_assoc. reflexivity.
Qed.

End PausableFlush.

(** X1.  Items submitted to a stage that starts paused, no more of them than
the queue limit, are forwarded by [toggle(false)] in one call that holds
all of them in submission order; nothing is forwarded before. *)
Theorem pausable_toggle_flushes_everything :
  forall (ExportItem : Type) (maxQueueSize : option Z) (subs : list (list ExportItem)),
    let options := Some {| Pausable.startPaused := Some true;
                           Pausable.maxQueueSize := maxQueueSize |} in
    List.concat subs <> [] ->
    Js.len (List.concat subs) <= maxQueueSize ?? 100000 ->
    Pausable.run options
      (map (@Pausable.Submit ExportItem) subs ++ [Pausable.Toggle ExportItem (Some false)])
      (Pausable.init ExportItem options)
    = ({| Pausable.paused := false; Pausable.pending := [] |}, [List.concat subs]).
Proof.
  intros ExportItem maxQueueSize subs options Hne Hlen.
  assert (Hrun : forall cs1 cs2 (st : Pausable.State ExportItem),
             Pausable.run options (cs1 ++ cs2) st
             = let '(st1, out1) := Pausable.run options cs1 st in
               let '(st2, out2) := Pausable.run options cs2 st1 in
               (st2, (out1 ++ out2)%list)).
  { induction cs1 as [| c cs1 IH]; intros cs2 st; cbn [app Pausable.run].
    - destruct (Pausable.run options cs2 st). reflexivity.
    - destruct (Pausable.step options c st) as [st1 out1]. rewrite IH.
      destruct (Pausable.run options cs1 st1) as [st2 out2].
      destruct (Pausable.run options cs2 st2) as [st3 out3].
      rewrite app_assoc. reflexivity. }
  rewrite Hrun, run_submits_paused by (try reflexivity; exact Hlen).
  cbn [Pausable.init Pausable.pending app Pausable.run Pausable.step Pausable.toggle
       Pausable.paused Js.nullish fst negb andb].
  destruct (List.concat subs) as [| x l]; [contradiction |]. reflexivity.
Qed.

Lemma pausable_toggle_flushes_everything_witness :
  Pausable.run (Some {| Pausable.startPaused := Some true; Pausable.maxQueueSize := Some 5 |})
    [Pausable.Submit [1; 2]; Pausable.Submit [3]; Pausable.Toggle Z (Some false)]
    (Pausable.init Z (Some {| Pausable.startPaused := Some true;
                              Pausable.maxQueueSize := Some 5 |}))
  = ({| Pausable.paused := false; Pausable.pending := [] |}, [[1; 2; 3]]).
Proof.
  apply (@pausable_toggle_flushes_everything Z (Some 5) [[1; 2]; [3]]).
  - discriminate.
  - vm_compute. discriminate.
Defined.

(** X2.  When the callback returns and leaves the span sampled, [runSpan]
with an exporter hands it the finished span in one call, made after every
call of the callback, and returns what the callback returned provided that
call does not fail. *)
Theorem runSpan_exports_once :
  forall (T : Type) (exporter : ExportFunction) (scope : InstrumentationScope)
         (parent : ParentSpan) (fn : Body T) (w : World) (v : T) (s1 : Span) (w1 : World),
    fn (fst (makeSpan parent None w)) (snd (makeSpan parent None w)) = (Returned v, s1, w1) ->
    sample s1 = true ->
    let finished := setEndTimeUnixNano (fst (Data.now (runtime w1))) s1 in
    exported (snd (runSpan (Some exporter) scope parent fn w))
    = (exported w1 ++ [[Notions.spanItem scope finished]])%list /\
    (exporter [Notions.spanItem scope finished] = None ->
     fst (runSpan (Some exporter) scope parent fn w) = Returned v).
Proof.
  intros T exporter scope parent fn w v s1 w1 Hfn Hs finished. subst finished.
  unfold runSpan, runSpanOn.
  destruct (makeSpan parent None w) as [s0 w0]. cbn [fst snd] in Hfn. rewrite Hfn.
  destruct (Data.now (runtime w1)) as [t rt]. cbn [fst].
  cbn [sample setEndTimeUnixNano]. rewrite Hs.
  unfold callExporter, Notions.spanItem. cbn [runtime exported setRuntime].
  destruct (exporter _) as [failure |] eqn:Hexp; cbn [fst snd exported].
  - split; [reflexivity | discriminate].
  - split; reflexivity.
Qed.

Lemma runSpan_exports_once_witness :
  map (map Configure.span)
    (exported (snd (runSpan (Some Sample.delivers) (ScopeName "app") ParentAbsent
                      (ret tt) Sample.world)))
  = [[Some (setEndTimeUnixNano "1700000000001000000"
              (fst (makeSpan ParentAbsent None Sample.world)))]].
Proof.
  destruct (@runSpan_exports_once unit Sample.delivers (ScopeName "app") ParentAbsent
              (ret tt) Sample.world tt
              (fst (makeSpan ParentAbsent None Sample.world))
              (snd (makeSpan ParentAbsent None Sample.world)) eq_refl eq_refl) as [H _].
  rewrite H. reflexivity.
Defined.

(** X3.  A span started under a running span, by its [run] method, has the
trace id of that span, the span id of that span as its parent span id, and
its sample flag. *)
Theorem child_span_inherits :
  forall (s : Span) (w : World),
    let child := fst (makeSpan (asParent s) None w) in
    traceId child = traceId s /\
    parentSpanId child = Some (spanId s) /\
    sample child = sample s.
Proof.
  intros s w child. subst child. unfold makeSpan, asParent, makeParentObj.
  destruct (Data.now (runtime w)) as [t rt]. cbn [po_traceId].
  destruct (Data.id 8 rt) as [sid rt']. repeat split.
Qed.

Local Open Scope list_scope.

(** ** Order-preserving selection *)

Section SubseqFacts.

Context {A : Type}.

Lemma subseq_refl (l : list A) : Order.Subseq l l.
Proof. induction l; [constructor | apply Order.subseq_keep; assumption]. Qed.

Lemma subseq_nil_l (l : list A) : Order.Subseq [] l.
Proof. induction l; constructor; assumption. Qed.

Lemma subseq_trans (l1 l2 l3 : list A) :
  Order.Subseq l1 l2 -> Order.Subseq l2 l3 -> Order.Subseq l1 l3.
Proof.
  intros H12 H23. revert l1 H12.
  induction H23 as [| x l2 l3 H IH | x l2 l3 H IH]; intros l1 H12.
  - exact H12.
  - constructor. apply IH. exact H12.
  - inversion H12 as [| y k1 k2 Hk | y k1 k2 Hk]; subst.
    + apply Order.subseq_skip. apply IH. exact Hk.
    + apply Order.subseq_keep. apply IH. exact Hk.
Qed.

Lemma subseq_app (l1 l2 k1 k2 : list A) :
  Order.Subseq l1 l2 -> Order.Subseq k1 k2 -> Order.Subseq (l1 ++ k1) (l2 ++ k2).
Proof.
  intros Hl Hk. induction Hl; simpl.
  - exact Hk.
  - apply Order.subseq_skip. assumption.
  - apply Order.subseq_keep. assumption.
Qed.

Lemma subseq_skipn (n : nat) (l : list A) : Order.Subseq (skipn n l) l.
Proof.
  revert l. induction n as [| n IH]; intros l; [apply subseq_refl |].
  destruct l as [| x l]; [constructor |]. simpl. apply Order.subseq_skip. apply IH.
Qed.

Lemma subseq_length (l1 l2 : list A) :
  Order.Subseq l1 l2 -> (List.length l1 <= List.length l2)%nat.
Proof. induction 1; simpl; lia. Qed.

End SubseqFacts.

(** ** The buffered stage *)

Section BufferedProps.

Variable ExportItem : Type.
Variable options : option Buffered.BufferedExportOptions.

Lemma sendTurn_keeps (st : Buffered.State ExportItem) :
  List.concat (snd (Buffered.sendTurn options st)) ++ Buffered.pending (fst (Buffered.sendTurn options st))
  = Buffered.pending st /\
  Buffered.used (fst (Buffered.sendTurn options st)) = Buffered.used st.
Proof.
  unfold Buffered.sendTurn, Js.splice0.
  destruct (Js.nonempty (Buffered.pending st)); cbn [fst snd List.concat Buffered.pending Buffered.used app].
  - rewrite app_nil_r, firstn_skipn. split; reflexivity.
  - split; reflexivity.
Qed.

Lemma step_keeps (e : Buffered.Event ExportItem) (st : Buffered.State ExportItem) :
  List.concat (snd (Buffered.step options e st)) ++ Buffered.pending (fst (Buffered.step options e st))
  = Buffered.pending st ++ Buffered.submitted [e].
Proof.
  destruct e as [events | | fulfilled]; cbn [Buffered.step Buffered.submitted flat_map];
    rewrite ?app_nil_r.
  - unfold Buffered.bufferedExporter, Buffered.send. cbn [Buffered.pending Buffered.used negb].
    destruct (_ >? _).
    + apply (sendTurn_keeps {| Buffered.pending := Buffered.pending st ++ events;
                               Buffered.used := true;
                               Buffered.suspended := Buffered.suspended st |}).
    + reflexivity.
  - unfold Buffered.send. destruct (negb (Buffered.used st)); [reflexivity |].
    apply sendTurn_keeps.
  - unfold Buffered.settle. destruct (Buffered.suspended st) as [| n]; [reflexivity |].
    destruct fulfilled; [| reflexivity].
    apply (sendTurn_keeps {| Buffered.pending := Buffered.pending st;
                             Buffered.used := Buffered.used st;
                             Buffered.suspended := n |}).
Qed.

Lemma run_keeps (es : list (Buffered.Event ExportItem)) :
  forall st : Buffered.State ExportItem,
    List.concat (snd (Buffered.run options es st)) ++ Buffered.pending (fst (Buffered.run options es st))
    = Buffered.pending st ++ Buffered.submitted es.
Proof.
  induction es as [| e es IH]; intros st.
  - cbn. now rewrite app_nil_r.
  - cbn [Buffered.run]. pose proof (step_keeps e st) as He.
    destruct (Buffered.step options e st) as [st1 out1]. cbn [fst snd] in He.
    specialize (IH st1). destruct (Buffered.run options es st1) as [st2 out2].
    cbn [fst snd] in *.
    assert (Hs : Buffered.submitted (e :: es)
                 = Buffered.submitted [e] ++ Buffered.submitted es)
      by (cbn; now rewrite app_nil_r).
    rewrite concat_app, <- app_assoc, IH, app_assoc, He, Hs.
    rewrite <- app_assoc. reflexivity.
Qed.

Lemma run_app (es1 es2 : list (Buffered.Event ExportItem)) :
  forall st : Buffered.State ExportItem,
    Buffered.run options (es1 ++ es2) st
    = (fst (Buffered.run options es2 (fst (Buffered.run options es1 st))),
       snd (Buffered.run options es1 st)
       ++ snd (Buffered.run options es2 (fst (Buffered.run options es1 st)))).
Proof.
  induction es1 as [| e es1 IH]; intros st; cbn [app Buffered.run].
  - cbn [fst snd app]. now destruct (Buffered.run options es2 st).
  - destruct (Buffered.step options e st) as [st1 out1]. rewrite IH.
    destruct (Buffered.run options es1 st1) as [st2 out2]. cbn [fst snd].
    destruct (Buffered.run options es2 st2) as [st3 out3]. cbn [fst snd].
    now rewrite app_assoc.
Qed.

Lemma sendTurn_settled (st : Buffered.State ExportItem) :
  0 <= Buffered.opt options Buffered.maxBatchSize ?? 35 ->
  (Buffered.used st = false -> Buffered.pending st = []) ->
  (Buffered.pending st = [] \/ Buffered.used st = true) ->
  (Buffered.pending st = [] ->
   Buffered.suspended st = 0%nat ->
   Js.len (Buffered.pending st) <= Buffered.opt options Buffered.maxBatchSize ?? 35) ->
  Invariants.settled options (fst (Buffered.sendTurn options st)).
Proof.
  intros Hmax Hused Hor Hempty. unfold Buffered.sendTurn, Js.splice0, Invariants.settled.
  destruct (Buffered.pending st) as [| x l] eqn:Hp; cbn [Js.nonempty fst].
  - rewrite Hp. split; [reflexivity |]. intros H0. apply Hempty; [reflexivity | exact H0].
  - cbn [Buffered.used Buffered.suspended Buffered.pending]. split; [| discriminate].
    intros Hu. destruct Hor as [H | H]; [discriminate | congruence].
Qed.

Lemma step_settled (e : Buffered.Event ExportItem) (st : Buffered.State ExportItem) :
  0 <= Buffered.opt options Buffered.maxBatchSize ?? 35 ->
  Buffered.allFulfilled [e] = true ->
  Invariants.settled options st -> Invariants.settled options (fst (Buffered.step options e st)).
Proof.
  intros Hmax Hok [Hused Hquiet].
  destruct e as [events | | fulfilled]; cbn [Buffered.step].
  - unfold Buffered.bufferedExporter, Buffered.send. cbn [Buffered.pending Buffered.used negb].
    destruct (Z.gtb_spec (Js.len (Buffered.pending st ++ events))
                (Buffered.opt options Buffered.maxBatchSize ?? 35)) as [Hgt | Hle].
    + apply sendTurn_settled; cbn [Buffered.pending Buffered.used Buffered.suspended];
        try assumption; try discriminate.
      * right. reflexivity.
      * intros H _. rewrite H. change (Js.len (@nil ExportItem)) with 0. exact Hmax.
    + split; cbn [fst Buffered.pending Buffered.used Buffered.suspended]; [discriminate |].
      intros _. exact Hle.
  - unfold Buffered.send. destruct (negb (Buffered.used st)) eqn:Hn.
    + split; assumption.
    + apply negb_false_iff in Hn.
      apply sendTurn_settled;
        [exact Hmax | exact Hused | right; exact Hn | intros _; exact Hquiet].
  - unfold Buffered.settle. destruct (Buffered.suspended st) as [| n] eqn:Hs.
    + split; [exact Hused | intros _; apply Hquiet; reflexivity].
    + destruct fulfilled; [| discriminate Hok].
      apply sendTurn_settled; cbn [Buffered.pending Buffered.used Buffered.suspended];
        try assumption.
      * destruct (Buffered.used st) eqn:Hu; [right; reflexivity | left; now apply Hused].
      * intros H _. rewrite H. change (Js.len (@nil ExportItem)) with 0. exact Hmax.
Qed.

Lemma run_settled (es : list (Buffered.Event ExportItem)) :
  forall st : Buffered.State ExportItem,
    0 <= Buffered.opt options Buffered.maxBatchSize ?? 35 ->
    Buffered.allFulfilled es = true ->
    Invariants.settled options st -> Invariants.settled options (fst (Buffered.run options es st)).
Proof.
  induction es as [| e es IH]; intros st Hmax Hok Hst; [exact Hst |].
  cbn [Buffered.run]. cbn [Buffered.allFulfilled forallb] in Hok.
  apply andb_prop in Hok. destruct Hok as [He Hes].
  assert (H1 : Invariants.settled options (fst (Buffered.step options e st))).
  { apply step_settled; try assumption. cbn. now rewrite He. }
  destruct (Buffered.step options e st) as [st1 out1]. cbn [fst] in H1.
  specialize (IH st1 Hmax Hes H1).
  destruct (Buffered.run options es st1) as [st2 out2]. exact IH.
Qed.

(** Every call holds at least one and at most a batch of items. *)
Lemma sendTurn_bounds (st : Buffered.State ExportItem) :
  1 <= Buffered.opt options Buffered.maxBatchSize ?? 35 ->
  Forall (fun c => 1 <= Js.len c <= Buffered.opt options Buffered.maxBatchSize ?? 35)
    (snd (Buffered.sendTurn options st)).
Proof.
  intros Hmax. unfold Buffered.sendTurn, Js.splice0.
  destruct (Js.nonempty (Buffered.pending st)) eqn:Hne; cbn [snd]; [| constructor].
  constructor; [| constructor]. apply nonempty_true in Hne.
  destruct (Z_le_gt_dec (Js.len (Buffered.pending st))
              (Buffered.opt options Buffered.maxBatchSize ?? 35)) as [Hle | Hgt].
  - rewrite firstn_all_len by exact Hle. lia.
  - rewrite len_firstn; lia.
Qed.

Lemma step_bounds (e : Buffered.Event ExportItem) (st : Buffered.State ExportItem) :
  1 <= Buffered.opt options Buffered.maxBatchSize ?? 35 ->
  Forall (fun c => 1 <= Js.len c <= Buffered.opt options Buffered.maxBatchSize ?? 35)
    (snd (Buffered.step options e st)).
Proof.
  intros Hmax. destruct e as [events | | fulfilled]; cbn [Buffered.step].
  - unfold Buffered.bufferedExporter, Buffered.send. cbn [Buffered.used negb].
    destruct (_ >? _); [apply sendTurn_bounds; exact Hmax | constructor].
  - unfold Buffered.send. destruct (negb _); [constructor | apply sendTurn_bounds; exact Hmax].
  - unfold Buffered.settle. destruct (Buffered.suspended st); [constructor |].
    destruct fulfilled; [apply sendTurn_bounds; exact Hmax | constructor].
Qed.

(** Fulfilled promises empty the queue, batch by batch, and then let the
suspended invocations end. *)
Lemma settle_drains (k : nat) :
  forall st : Buffered.State ExportItem,
    1 <= Buffered.opt options Buffered.maxBatchSize ?? 35 ->
    (1 <= Buffered.suspended st)%nat ->
    Js.len (Buffered.pending st) + Z.of_nat (Buffered.suspended st) <= Z.of_nat k ->
    let r := Buffered.run options (repeat (Buffered.Settle ExportItem true) k) st in
    Buffered.pending (fst r) = [] /\
    Buffered.suspended (fst r) = 0%nat /\
    Buffered.used (fst r) = Buffered.used st /\
    Notions.batched (Buffered.opt options Buffered.maxBatchSize ?? 35)
      (Buffered.pending st) (snd r).
Proof.
  set (b := Buffered.opt options Buffered.maxBatchSize ?? 35).
  induction k as [| k IH]; intros st Hmax Hsus Hk;
    [pose proof (len_nonneg (Buffered.pending st)); lia |].
  cbn [repeat Buffered.run Buffered.step]. unfold Buffered.settle.
  destruct (Buffered.suspended st) as [| n] eqn:Hs; [lia |].
  unfold Buffered.sendTurn, Js.splice0. cbn [Buffered.pending Buffered.used Buffered.suspended].
  fold b.
  destruct (Buffered.pending st) as [| x l] eqn:Hp; cbn [Js.nonempty].
  - (* the queue is empty: this invocation ends *)
    destruct n as [| n].
    + (* it was the last one: nothing else can happen *)
      assert (Hidle : forall j, Buffered.run options (repeat (Buffered.Settle ExportItem true) j)
                             {| Buffered.pending := []; Buffered.used := Buffered.used st;
                                Buffered.suspended := 0 |}
                           = ({| Buffered.pending := []; Buffered.used := Buffered.used st;
                                 Buffered.suspended := 0 |}, [])).
      { induction j as [| j IHj]; [reflexivity |].
        cbn [repeat Buffered.run Buffered.step]. unfold Buffered.settle.
        cbn [Buffered.suspended]. rewrite IHj. reflexivity. }
      rewrite Hidle. cbn [fst snd app Buffered.pending Buffered.suspended Buffered.used].
      repeat split; try reflexivity; try constructor.
      * change (Js.len (@nil (list ExportItem))) with 0.
        change (Js.len (@nil ExportItem)) with 0. rewrite Z.div_small; lia.
      * change (Js.len (@nil ExportItem)) with 0. lia.
    + specialize (IH {| Buffered.pending := []; Buffered.used := Buffered.used st;
                        Buffered.suspended := S n |} Hmax).
      cbn [Buffered.pending Buffered.suspended Buffered.used] in IH.
      change (Js.len (@nil ExportItem)) with 0 in *.
      destruct IH as (H1 & H2 & H3 & H4); [lia | lia |].
      destruct (Buffered.run options _ _) as [st2 out2]. cbn [fst snd app] in *.
      split; [exact H1 | split; [exact H2 | split; [exact H3 | exact H4]]].
  - (* one more batch *)
    set (q := x :: l) in *.
    specialize (IH {| Buffered.pending := skipn (Z.to_nat b) q; Buffered.used := Buffered.used st;
                      Buffered.suspended := S n |} Hmax).
    cbn [Buffered.pending Buffered.suspended Buffered.used] in IH.
    assert (Hq : 1 <= Js.len q) by (unfold q, Js.len; simpl; lia).
    destruct (Z_le_gt_dec (Js.len q) b) as [Hle | Hgt].
    + rewrite skipn_all_len in IH |- * by exact Hle.
      rewrite firstn_all_len by exact Hle.
      change (Js.len (@nil ExportItem)) with 0 in IH.
      destruct IH as (H1 & H2 & H3 & _); [lia | lia |].
      destruct (Buffered.run options _ _) as [st2 out2] eqn:Hrun. cbn [fst snd] in *.
      assert (Hout : out2 = []).
      { pose proof (run_keeps (repeat (Buffered.Settle ExportItem true) k)
                      {| Buffered.pending := []; Buffered.used := Buffered.used st;
                         Buffered.suspended := S n |}) as Hkeep.
        rewrite Hrun in Hkeep. cbn [fst snd Buffered.pending app] in Hkeep.
        rewrite H1, app_nil_r in Hkeep.
        assert (Hsub : Buffered.submitted (repeat (Buffered.Settle ExportItem true) k) = []).
        { clear. induction k; [reflexivity | exact IHk]. }
        rewrite Hsub in Hkeep.
        pose proof (Forall_forall (fun c : list ExportItem => 1 <= Js.len c <= b) out2) as Hall.
        destruct out2 as [| c out2]; [reflexivity |].
        assert (Hb : Forall (fun c0 => 1 <= Js.len c0 <= b) (c :: out2)).
        { clear - Hrun Hmax. revert Hrun. generalize (c :: out2). intros o Hrun.
          assert (Hgen : forall j (s : Buffered.State ExportItem),
                     Forall (fun c0 => 1 <= Js.len c0 <= b)
                       (snd (Buffered.run options (repeat (Buffered.Settle ExportItem true) j) s))).
          { induction j as [| j IHj]; intros s; [constructor |].
            cbn [repeat Buffered.run]. pose proof (step_bounds (Buffered.Settle ExportItem true) s Hmax) as Hs.
            destruct (Buffered.step options _ s) as [s1 o1]. specialize (IHj s1).
            destruct (Buffered.run options _ s1) as [s2 o2]. cbn [snd] in *.
            apply Forall_app. split; assumption. }
          specialize (Hgen k {| Buffered.pending := []; Buffered.used := Buffered.used st;
                                Buffered.suspended := S n |}).
          rewrite Hrun in Hgen. exact Hgen. }
        inversion Hb as [| ? ? Hc _]; subst.
        cbn [List.concat] in Hkeep. destruct c as [| y c].
        - change (Js.len (@nil ExportItem)) with 0 in Hc. lia.
        - discriminate Hkeep. }
      subst out2. cbn [app].
      split; [exact H1 | split; [exact H2 | split; [exact H3 |]]].
      apply batched_single. lia.
    + rewrite len_skipn in IH by lia.
      destruct IH as (H1 & H2 & H3 & H4); [lia | lia |].
      destruct (Buffered.run options _ _) as [st2 out2]. cbn [fst snd app] in *.
      split; [exact H1 | split; [exact H2 | split; [exact H3 |]]].
      apply batched_cons; [lia | lia | exact H4].
Qed.

End BufferedProps.

(** X4.  Buffered stage, for every sequence of submissions, flushes and
settled promises, in any interleaving: the items handed to the inner
exporter so far, call after call, followed by the items still queued, are
exactly the items submitted, in submission order. *)
Theorem buffered_forwards_in_order :
  forall (ExportItem : Type) (options : option Buffered.BufferedExportOptions)
         (es : list (Buffered.Event ExportItem)),
    let r := Buffered.run options es (Buffered.init ExportItem) in
    List.concat (snd r) ++ Buffered.pending (fst r) = Buffered.submitted es.
Proof.
  intros ExportItem options es r. subst r.
  rewrite run_keeps. reflexivity.
Qed.

(** X5.  Buffered stage with a batch size of at least 1: every call to the
inner exporter holds at least one item and at most a batch. *)
Theorem buffered_batches_bounded :
  forall (ExportItem : Type) (options : option Buffered.BufferedExportOptions)
         (es : list (Buffered.Event ExportItem)),
    1 <= Buffered.opt options Buffered.maxBatchSize ?? 35 ->
    Forall (fun c => 1 <= Js.len c <= Buffered.opt options Buffered.maxBatchSize ?? 35)
      (snd (Buffered.run options es (Buffered.init ExportItem))).
Proof.
  intros ExportItem options es Hmax. generalize (Buffered.init ExportItem).
  induction es as [| e es IH]; intros st; [constructor |].
  cbn [Buffered.run]. pose proof (@step_bounds ExportItem options e st Hmax) as He.
  destruct (Buffered.step options e st) as [st1 out1]. specialize (IH st1).
  destruct (Buffered.run options es st1) as [st2 out2]. cbn [snd] in *.
  apply Forall_app. split; assumption.
Qed.

Lemma buffered_batches_bounded_witness :
  snd (Buffered.run (Some {| Buffered.maxBatchSize := Some 2 |})
         [Buffered.Submit [1; 2]; Buffered.Submit [3; 4; 5]; Buffered.Settle Z true;
          Buffered.Settle Z true; Buffered.Settle Z true]
         (Buffered.init Z))
  = [[1; 2]; [3; 4]; [5]] /\
  Forall (fun c => 1 <= Js.len c <= 2) [[1; 2]; [3; 4]; [5]].
Proof.
  split; [reflexivity |].
  apply (@buffered_batches_bounded Z (Some {| Buffered.maxBatchSize := Some 2 |})
           [Buffered.Submit [1; 2]; Buffered.Submit [3; 4; 5]; Buffered.Settle Z true;
            Buffered.Settle Z true; Buffered.Settle Z true]).
  vm_compute. discriminate.
Defined.

(** X6.  Buffered stage whose inner exporter never fails, batch size not
negative: whenever no invocation of [send] is under way, the queue holds at
most one batch of items (they wait for the next overflow or flush). *)
Theorem buffered_at_rest_holds_a_batch :
  forall (ExportItem : Type) (options : option Buffered.BufferedExportOptions)
         (es : list (Buffered.Event ExportItem)),
    0 <= Buffered.opt options Buffered.maxBatchSize ?? 35 ->
    Buffered.allFulfilled es = true ->
    let st := fst (Buffered.run options es (Buffered.init ExportItem)) in
    Buffered.suspended st = 0%nat ->
    Js.len (Buffered.pending st) <= Buffered.opt options Buffered.maxBatchSize ?? 35.
Proof.
  intros ExportItem options es Hmax Hok st. subst st.
  apply (@run_settled ExportItem options es); try assumption.
  split; intros _; [reflexivity | exact Hmax].
Qed.

Lemma buffered_at_rest_holds_a_batch_witness :
  let st := fst (Buffered.run (Some {| Buffered.maxBatchSize := Some 2 |})
                   [Buffered.Submit [1; 2; 3]; Buffered.Settle Z true; Buffered.Settle Z true;
                    Buffered.Submit [4]]
                   (Buffered.init Z)) in
  Buffered.pending st = [4] /\ Js.len (Buffered.pending st) <= 2.
Proof.
  intros st. split; [reflexivity |].
  apply (@buffered_at_rest_holds_a_batch Z (Some {| Buffered.maxBatchSize := Some 2 |})
           [Buffered.Submit [1; 2; 3]; Buffered.Settle Z true; Buffered.Settle Z true;
            Buffered.Submit [4]]).
  - vm_compute. discriminate.
  - reflexivity.
  - reflexivity.
Defined.

(** X7.  Buffered stage with a batch size of at least 1: a submission that
makes a fresh stage's queue larger than a batch starts a drain that, once
the inner exporter has fulfilled its promises, has forwarded every item,
the remainder below a batch included: the calls are the items in order,
[ceil(N / batch)] of them, none larger than a batch, and the queue is
empty. *)
Theorem buffered_overflow_drains_everything :
  forall (ExportItem : Type) (options : option Buffered.BufferedExportOptions)
         (events : list ExportItem) (k : nat),
    1 <= Buffered.opt options Buffered.maxBatchSize ?? 35 ->
    Buffered.opt options Buffered.maxBatchSize ?? 35 < Js.len events ->
    Js.len events < Z.of_nat k ->
    let r := Buffered.run options
               (Buffered.Submit events :: repeat (Buffered.Settle ExportItem true) k)
               (Buffered.init ExportItem) in
    Buffered.pending (fst r) = [] /\
    Buffered.suspended (fst r) = 0%nat /\
    Notions.batched (Buffered.opt options Buffered.maxBatchSize ?? 35) events (snd r).
Proof.
  intros ExportItem options events k Hmax Hlen Hk r. subst r.
  set (b := Buffered.opt options Buffered.maxBatchSize ?? 35) in *.
  cbn [Buffered.run Buffered.step]. unfold Buffered.bufferedExporter, Buffered.send.
  cbn [Buffered.init Buffered.pending Buffered.used Buffered.suspended app negb].
  fold b. destruct (Z.gtb_spec (Js.len events) b) as [_ | Hle]; [| lia].
  unfold Buffered.sendTurn, Js.splice0. cbn [Buffered.pending Buffered.used Buffered.suspended].
  fold b.
  assert (Hne : Js.nonempty events = true) by (apply nonempty_true; lia).
  rewrite Hne.
  pose proof (@settle_drains ExportItem options k
                {| Buffered.pending := skipn (Z.to_nat b) events; Buffered.used := true;
                   Buffered.suspended := 1 |} Hmax) as H.
  cbn [Buffered.pending Buffered.suspended Buffered.used] in H. fold b in H.
  rewrite len_skipn in H by lia.
  destruct H as (H1 & H2 & _ & H4); [lia | lia |].
  destruct (Buffered.run options _ _) as [st2 out2]. cbn [fst snd app] in *.
  split; [exact H1 | split; [exact H2 |]].
  apply batched_cons; [lia | exact Hlen | exact H4].
Qed.

Lemma buffered_overflow_drains_everything_witness :
  Buffered.run (Some {| Buffered.maxBatchSize := Some 2 |})
    (Buffered.Submit [1; 2; 3; 4; 5] :: repeat (Buffered.Settle Z true) 6)
    (Buffered.init Z)
  = ({| Buffered.pending := []; Buffered.used := true; Buffered.suspended := 0 |},
     [[1; 2]; [3; 4]; [5]]) /\
  Notions.batched 2 [1; 2; 3; 4; 5] [[1; 2]; [3; 4]; [5]].
Proof.
  split; [reflexivity |].
  apply (@buffered_overflow_drains_everything Z (Some {| Buffered.maxBatchSize := Some 2 |})
           [1; 2; 3; 4; 5] 6%nat); vm_compute; (reflexivity || discriminate).
Defined.

(** X8.  Buffered stage with a batch size of zero or less: a non-empty
submission to a fresh stage starts a drain that never ends and never
forwards an item: every turn calls the inner exporter with no item and
leaves the queue as it is. *)
Theorem buffered_zero_batch_never_drains :
  forall (ExportItem : Type) (options : option Buffered.BufferedExportOptions)
         (events : list ExportItem) (k : nat),
    Buffered.opt options Buffered.maxBatchSize ?? 35 <= 0 ->
    events <> [] ->
    Buffered.run options
      (Buffered.Submit events :: repeat (Buffered.Settle ExportItem true) k)
      (Buffered.init ExportItem)
    = ({| Buffered.pending := events; Buffered.used := true; Buffered.suspended := 1 |},
       repeat [] (S k)).
Proof.
  intros ExportItem options events k Hmax Hne.
  set (b := Buffered.opt options Buffered.maxBatchSize ?? 35) in *.
  assert (Hturn : forall n, Buffered.sendTurn options
                              {| Buffered.pending := events; Buffered.used := true;
                                 Buffered.suspended := n |}
                            = ({| Buffered.pending := events; Buffered.used := true;
                                  Buffered.suspended := S n |}, [[]])).
  { intros n. unfold Buffered.sendTurn, Js.splice0. cbn [Buffered.pending Buffered.used Buffered.suspended].
    fold b. replace (Z.to_nat b) with 0%nat by lia.
    destruct events as [| x l]; [contradiction | reflexivity]. }
  assert (Hloop : forall j, Buffered.run options (repeat (Buffered.Settle ExportItem true) j)
                              {| Buffered.pending := events; Buffered.used := true;
                                 Buffered.suspended := 1 |}
                            = ({| Buffered.pending := events; Buffered.used := true;
                                  Buffered.suspended := 1 |}, repeat [] j)).
  { induction j as [| j IH]; [reflexivity |].
    cbn [repeat Buffered.run Buffered.step]. unfold Buffered.settle.
    cbn [Buffered.pending Buffered.used Buffered.suspended]. rewrite Hturn, IH. reflexivity. }
  cbn [Buffered.run Buffered.step]. unfold Buffered.bufferedExporter, Buffered.send.
  cbn [Buffered.init Buffered.pending Buffered.used Buffered.suspended app negb]. fold b.
  assert (Hlen : 0 < Js.len events).
  { destruct events as [| x l]; [contradiction |]. unfold Js.len. simpl. lia. }
  destruct (Z.gtb_spec (Js.len events) b) as [_ | Hle]; [| lia].
  rewrite Hturn, Hloop. reflexivity.
Qed.

Lemma buffered_zero_batch_never_drains_witness :
  Buffered.run (Some {| Buffered.maxBatchSize := Some 0 |})
    [Buffered.Submit [7]; Buffered.Settle Z true; Buffered.Settle Z true]
    (Buffered.init Z)
  = ({| Buffered.pending := [7]; Buffered.used := true; Buffered.suspended := 1 |},
     [[]; []; []]).
Proof.
  apply (@buffered_zero_batch_never_drains Z (Some {| Buffered.maxBatchSize := Some 0 |})
           [7] 2%nat).
  - vm_compute. discriminate.
  - discriminate.
Defined.

(** ** The batching stage under submissions, timeouts and teardown signals *)

Section BatchingEventProps.

Variable ExportItem : Type.
Variable options : option Batching.BatchingExportOptions.

Lemma processBatch_keeps (st : Batching.State ExportItem) :
  List.concat (snd (Batching.processBatch options st))
  ++ Batching.pending (fst (Batching.processBatch options st))
  = Batching.pending st.
Proof.
  unfold Batching.processBatch, Js.splice0. cbn [fst snd Batching.pending].
  destruct (firstn _ (Batching.pending st)) as [| x l] eqn:Hf; cbn [Js.nonempty List.concat].
  - rewrite <- (firstn_skipn (Z.to_nat (Batching.opt options Batching.maxBatchSize ?? 35))
                  (Batching.pending st)) at 2.
    rewrite Hf. reflexivity.
  - rewrite app_nil_r, <- Hf. apply firstn_skipn.
Qed.

Lemma processBatch_bounds (st : Batching.State ExportItem) :
  Forall (fun c => 1 <= Js.len c <= Batching.opt options Batching.maxBatchSize ?? 35)
    (snd (Batching.processBatch options st)).
Proof.
  unfold Batching.processBatch, Js.splice0. cbn [snd].
  set (b := Batching.opt options Batching.maxBatchSize ?? 35).
  destruct (Js.nonempty (firstn (Z.to_nat b) (Batching.pending st))) eqn:Hne; [| constructor].
  constructor; [| constructor]. apply nonempty_true in Hne.
  split; [lia |]. unfold Js.len in *. rewrite length_firstn in *. lia.
Qed.

Lemma processBatch_armed (st : Batching.State ExportItem) :
  Batching.pending (fst (Batching.processBatch options st)) <> [] ->
  Batching.timer (fst (Batching.processBatch options st)) <> None.
Proof.
  unfold Batching.processBatch, Js.splice0. cbn [fst Batching.pending Batching.timer].
  destruct (skipn _ (Batching.pending st)); cbn [Js.nonempty]; [congruence | discriminate].
Qed.

Lemma batchingExporter_subseq (events : list ExportItem) (st : Batching.State ExportItem) :
  Order.Subseq (Batching.pending (Batching.batchingExporter options events st))
    (Batching.pending st ++ events).
Proof.
  unfold Batching.batchingExporter, Js.splice0. cbn [Batching.pending snd].
  destruct (_ >? _); [apply subseq_skipn | apply subseq_refl].
Qed.

Lemma batchingExporter_bound (events : list ExportItem) (st : Batching.State ExportItem) :
  0 <= Notions.queueLimit options ->
  Js.len (Batching.pending (Batching.batchingExporter options events st))
  <= Notions.queueLimit options.
Proof.
  unfold Notions.queueLimit, Batching.batchingExporter, Js.splice0, Batching.opt.
  cbn [Batching.pending snd]. intros Hlim.
  set (p := Batching.pending st ++ events).
  destruct options as [[i bi mb [q |]] |]; cbn [Js.nullish Batching.maxQueueSize] in *.
  - destruct (Z.gtb_spec (Js.len p) q); [| assumption]. rewrite len_skipn; lia.
  - destruct (Z.gtb_spec (Js.len p) 100000); [| assumption]. rewrite len_skipn; lia.
  - destruct (Z.gtb_spec (Js.len p) 100000); [| assumption]. rewrite len_skipn; lia.
Qed.

(** What every step keeps: a non-empty queue has its timer armed. *)
Lemma step_armed (e : BatchingEvents.Event ExportItem) (st : Batching.State ExportItem) :
  (Batching.pending st <> [] -> Batching.timer st <> None) ->
  Batching.pending (fst (BatchingEvents.step options e st)) <> [] ->
  Batching.timer (fst (BatchingEvents.step options e st)) <> None.
Proof.
  intros Hst. destruct e as [events | |]; cbn [BatchingEvents.step].
  - intros _. cbn [fst]. apply batchingExporter_arms.
  - destruct (Batching.timer st) eqn:Ht.
    + apply processBatch_armed.
    + cbn [fst]. rewrite Ht. exact Hst.
  - apply processBatch_armed.
Qed.

Lemma step_subseq (e : BatchingEvents.Event ExportItem) (st : Batching.State ExportItem) :
  Order.Subseq
    (List.concat (snd (BatchingEvents.step options e st))
     ++ Batching.pending (fst (BatchingEvents.step options e st)))
    (Batching.pending st ++ BatchingEvents.submitted [e]).
Proof.
  destruct e as [events | |]; cbn [BatchingEvents.step BatchingEvents.submitted flat_map];
    rewrite ?app_nil_r.
  - cbn [fst snd List.concat app]. apply batchingExporter_subseq.
  - destruct (Batching.timer st); [rewrite processBatch_keeps |]; apply subseq_refl.
  - rewrite processBatch_keeps. apply subseq_refl.
Qed.

Lemma step_pending_subseq (e : BatchingEvents.Event ExportItem) (st : Batching.State ExportItem) :
  Order.Subseq (Batching.pending (fst (BatchingEvents.step options e st)))
    (Batching.pending st ++ BatchingEvents.submitted [e]).
Proof.
  eapply subseq_trans; [| apply step_subseq].
  rewrite <- (app_nil_l (Batching.pending _)) at 1.
  apply subseq_app; [apply subseq_nil_l | apply subseq_refl].
Qed.

Lemma submitted_cons (e : BatchingEvents.Event ExportItem) (es : list (BatchingEvents.Event ExportItem)) :
  BatchingEvents.submitted (e :: es)
  = BatchingEvents.submitted [e] ++ BatchingEvents.submitted es.
Proof. cbn. now rewrite app_nil_r. Qed.

Lemma run_subseq (es : list (BatchingEvents.Event ExportItem)) :
  forall st : Batching.State ExportItem,
    Order.Subseq
      (List.concat (snd (BatchingEvents.run options es st))
       ++ Batching.pending (fst (BatchingEvents.run options es st)))
      (Batching.pending st ++ BatchingEvents.submitted es).
Proof.
  induction es as [| e es IH]; intros st.
  - cbn. rewrite app_nil_r. apply subseq_refl.
  - cbn [BatchingEvents.run]. pose proof (step_subseq e st) as He.
    destruct (BatchingEvents.step options e st) as [st1 out1]. cbn [fst snd] in He.
    specialize (IH st1). destruct (BatchingEvents.run options es st1) as [st2 out2].
    cbn [fst snd] in *. rewrite concat_app, <- app_assoc, submitted_cons.
    apply subseq_trans with (l2 := List.concat out1 ++ Batching.pending st1
                                   ++ BatchingEvents.submitted es).
    + apply subseq_app; [apply subseq_refl | exact IH].
    + rewrite !app_assoc. apply subseq_app; [exact He | apply subseq_refl].
Qed.

Lemma run_armed (es : list (BatchingEvents.Event ExportItem)) :
  forall st : Batching.State ExportItem,
    (Batching.pending st <> [] -> Batching.timer st <> None) ->
    Batching.pending (fst (BatchingEvents.run options es st)) <> [] ->
    Batching.timer (fst (BatchingEvents.run options es st)) <> None.
Proof.
  induction es as [| e es IH]; intros st Hst; [exact Hst |].
  cbn [BatchingEvents.run]. pose proof (step_armed e st Hst) as H1.
  destruct (BatchingEvents.step options e st) as [st1 out1]. cbn [fst] in H1.
  specialize (IH st1 H1). destruct (BatchingEvents.run options es st1) as [st2 out2].
  exact IH.
Qed.

Lemma run_bounds (es : list (BatchingEvents.Event ExportItem)) :
  forall st : Batching.State ExportItem,
    Forall (fun c => 1 <= Js.len c <= Batching.opt options Batching.maxBatchSize ?? 35)
      (snd (BatchingEvents.run options es st)).
Proof.
  induction es as [| e es IH]; intros st; [constructor |].
  cbn [BatchingEvents.run].
  assert (He : Forall (fun c => 1 <= Js.len c <= Batching.opt options Batching.maxBatchSize ?? 35)
                 (snd (BatchingEvents.step options e st))).
  { destruct e as [events | |]; cbn [BatchingEvents.step].
    - constructor.
    - destruct (Batching.timer st); [apply processBatch_bounds | constructor].
    - apply processBatch_bounds. }
  destruct (BatchingEvents.step options e st) as [st1 out1]. specialize (IH st1).
  destruct (BatchingEvents.run options es st1) as [st2 out2]. cbn [snd] in *.
  apply Forall_app. split; assumption.
Qed.

Lemma run_bound (es : list (BatchingEvents.Event ExportItem)) :
  forall st : Batching.State ExportItem,
    0 <= Notions.queueLimit options ->
    Js.len (Batching.pending st) <= Notions.queueLimit options ->
    Js.len (Batching.pending (fst (BatchingEvents.run options es st)))
    <= Notions.queueLimit options.
Proof.
  induction es as [| e es IH]; intros st Hlim Hst; [exact Hst |].
  cbn [BatchingEvents.run].
  assert (H1 : Js.len (Batching.pending (fst (BatchingEvents.step options e st)))
               <= Notions.queueLimit options).
  { assert (Hpb : Js.len (Batching.pending (fst (Batching.processBatch options st)))
                  <= Notions.queueLimit options).
    { pose proof (processBatch_keeps st) as Hk.
      apply (f_equal (@Js.len ExportItem)) in Hk. rewrite len_app in Hk.
      pose proof (len_nonneg (List.concat (snd (Batching.processBatch options st)))). lia. }
    destruct e as [events | |]; cbn [BatchingEvents.step].
    - apply batchingExporter_bound. exact Hlim.
    - destruct (Batching.timer st); [exact Hpb | exact Hst].
    - exact Hpb. }
  destruct (BatchingEvents.step options e st) as [st1 out1]. cbn [fst] in H1.
  specialize (IH st1 Hlim H1). destruct (BatchingEvents.run options es st1) as [st2 out2].
  exact IH.
Qed.

(** Without overflow nothing is dropped. *)
Lemma run_keeps_all (es : list (BatchingEvents.Event ExportItem)) :
  forall st : Batching.State ExportItem,
    Js.len (Batching.pending st ++ BatchingEvents.submitted es) <= Notions.queueLimit options ->
    List.concat (snd (BatchingEvents.run options es st))
    ++ Batching.pending (fst (BatchingEvents.run options es st))
    = Batching.pending st ++ BatchingEvents.submitted es.
Proof.
  induction es as [| e es IH]; intros st Hfit.
  - cbn. now rewrite app_nil_r.
  - cbn [BatchingEvents.run]. rewrite submitted_cons in Hfit |- *.
    assert (He : List.concat (snd (BatchingEvents.step options e st))
                 ++ Batching.pending (fst (BatchingEvents.step options e st))
                 = Batching.pending st ++ BatchingEvents.submitted [e]).
    { destruct e as [events | |]; cbn [BatchingEvents.step BatchingEvents.submitted flat_map];
        rewrite ?app_nil_r.
      - cbn [fst snd List.concat app]. apply batchingExporter_fits.
        cbn [BatchingEvents.submitted flat_map] in Hfit. rewrite app_nil_r in Hfit.
        rewrite app_assoc, len_app in Hfit.
        pose proof (len_nonneg (BatchingEvents.submitted es)). lia.
      - destruct (Batching.timer st); [apply processBatch_keeps | reflexivity].
      - apply processBatch_keeps. }
    pose proof (step_pending_subseq e st) as Hsub.
    destruct (BatchingEvents.step options e st) as [st1 out1]. cbn [fst snd] in *.
    assert (Hfit1 : Js.len (Batching.pending st1 ++ BatchingEvents.submitted es)
                    <= Notions.queueLimit options).
    { apply subseq_length in Hsub. rewrite app_assoc in Hfit.
      rewrite len_app in Hfit |- *. unfold Js.len in *. lia. }
    specialize (IH st1 Hfit1). destruct (BatchingEvents.run options es st1) as [st2 out2].
    cbn [fst snd] in *. rewrite concat_app, <- app_assoc, IH, app_assoc, He, <- app_assoc.
    reflexivity.
Qed.

End BatchingEventProps.

(** X9. Whatever is submitted to a batching stage, and whenever its timeout
    fires or the host signals teardown, the items forwarded so far followed
    by the items still queued are a selection of the submitted items in
    submission order: nothing is forwarded twice, reordered or made up. *)
Theorem batching_forwards_a_selection_in_order :
  forall (ExportItem : Type) (options : option Batching.BatchingExportOptions)
         (es : list (BatchingEvents.Event ExportItem)),
    let r := BatchingEvents.run options es (Batching.init ExportItem) in
    Order.Subseq (List.concat (snd r) ++ Batching.pending (fst r))
      (BatchingEvents.submitted es).
Proof.
  intros ExportItem options es r. subst r.
  apply (@run_subseq ExportItem options es (Batching.init ExportItem)).
Qed.

(** X10. When the items submitted altogether do not exceed the queue limit,
    the batching stage loses nothing: the forwarded items followed by the
    queued ones are exactly the submitted items. *)
Theorem batching_keeps_everything_within_limit :
  forall (ExportItem : Type) (options : option Batching.BatchingExportOptions)
         (es : list (BatchingEvents.Event ExportItem)),
    Js.len (BatchingEvents.submitted es) <= Notions.queueLimit options ->
    let r := BatchingEvents.run options es (Batching.init ExportItem) in
    List.concat (snd r) ++ Batching.pending (fst r) = BatchingEvents.submitted es.
Proof.
  intros ExportItem options es Hfit r. subst r.
  apply (@run_keeps_all ExportItem options es (Batching.init ExportItem)). exact Hfit.
Qed.

Lemma batching_keeps_everything_within_limit_witness :
  let es := [BatchingEvents.Submit [1; 2]; BatchingEvents.Fire Z;
             BatchingEvents.Submit [3]; BatchingEvents.Teardown Z] in
  let r := BatchingEvents.run None es (Batching.init Z) in
  List.concat (snd r) ++ Batching.pending (fst r) = [1; 2; 3].
Proof.
  apply (@batching_keeps_everything_within_limit Z None
           [BatchingEvents.Submit [1; 2]; BatchingEvents.Fire Z;
            BatchingEvents.Submit [3]; BatchingEvents.Teardown Z]).
  vm_compute. discriminate.
Defined.

(** X11. The batching stage never calls the inner exporter without items
    and never with more than the batch size; with a batch size of zero or
    less it never calls the inner exporter at all. *)
Theorem batching_calls_bounded :
  forall (ExportItem : Type) (options : option Batching.BatchingExportOptions)
         (es : list (BatchingEvents.Event ExportItem)),
    let calls := snd (BatchingEvents.run options es (Batching.init ExportItem)) in
    Forall (fun c => 1 <= Js.len c <= Notions.batchSize options) calls
    /\ (Notions.batchSize options <= 0 -> calls = []).
Proof.
  intros ExportItem options es calls. subst calls.
  pose proof (@run_bounds ExportItem options es (Batching.init ExportItem)) as H.
  split; [exact H |]. intros Hb.
  destruct (snd (BatchingEvents.run options es (Batching.init ExportItem))) as [| c l];
    [reflexivity |].
  inversion H as [| ? ? Hc _]. unfold Notions.batchSize in Hb. lia.
Qed.

(** X12. With a queue limit that is not negative, the queue of a batching
    stage never holds more items than the limit, whatever is submitted. *)
Theorem batching_queue_bounded :
  forall (ExportItem : Type) (options : option Batching.BatchingExportOptions)
         (es : list (BatchingEvents.Event ExportItem)),
    0 <= Notions.queueLimit options ->
    Js.len (Batching.pending (fst (BatchingEvents.run options es (Batching.init ExportItem))))
    <= Notions.queueLimit options.
Proof.
  intros ExportItem options es Hlim.
  apply (@run_bound ExportItem options es (Batching.init ExportItem) Hlim).
  cbn. exact Hlim.
Qed.

Lemma batching_queue_bounded_witness :
  let options := Some {| Batching.interval := None; Batching.batchingInterval := None;
                         Batching.maxBatchSize := None; Batching.maxQueueSize := Some 2 |} in
  Js.len (Batching.pending
            (fst (BatchingEvents.run options
                    [BatchingEvents.Submit [1; 2; 3]; BatchingEvents.Submit [4; 5]]
                    (Batching.init Z))))
  <= 2.
Proof.
  apply (@batching_queue_bounded Z
           (Some {| Batching.interval := None; Batching.batchingInterval := None;
                    Batching.maxBatchSize := None; Batching.maxQueueSize := Some 2 |})
           [BatchingEvents.Submit [1; 2; 3]; BatchingEvents.Submit [4; 5]]).
  vm_compute. discriminate.
Defined.



(** ** The pausable stage under arbitrary submissions and toggles *)

Section PausableCallProps.

Variable ExportItem : Type.
Variable options : option Pausable.PausableExporterOptions.

Lemma pausable_step_subseq (c : Pausable.Call ExportItem) (st : Pausable.State ExportItem) :
  (Pausable.paused st = false -> Pausable.pending st = []) ->
  Order.Subseq
    (List.concat (snd (Pausable.step options c st))
     ++ Pausable.pending (fst (Pausable.step options c st)))
    (Pausable.pending st ++ Order.submittedTo [c]).
Proof.
  intros Hinv.
  destruct c as [events | on]; cbn [Pausable.step Order.submittedTo flat_map];
    rewrite ?app_nil_r.
  - unfold Pausable.pausableExporter, Js.splice0.
    destruct (Pausable.paused st) eqn:Hp; cbn [fst snd List.concat app Pausable.pending].
    + destruct (_ >? _); [apply subseq_skipn | apply subseq_refl].
    + rewrite (Hinv eq_refl), !app_nil_r. apply subseq_refl.
  - unfold Pausable.toggle.
    destruct (negb _ && Js.nonempty (Pausable.pending st));
      cbn [fst snd List.concat app Pausable.pending]; rewrite ?app_nil_r; apply subseq_refl.
Qed.

Lemma pausable_step_keeps (c : Pausable.Call ExportItem) (st : Pausable.State ExportItem) :
  Js.len (Pausable.pending st ++ Order.submittedTo [c])
  <= Pausable.opt options Pausable.maxQueueSize ?? 100000 ->
  (Pausable.paused st = false -> Pausable.pending st = []) ->
  List.concat (snd (Pausable.step options c st))
  ++ Pausable.pending (fst (Pausable.step options c st))
  = Pausable.pending st ++ Order.submittedTo [c].
Proof.
  intros Hfit Hinv.
  destruct c as [events | on]; cbn [Pausable.step Order.submittedTo flat_map] in *;
    rewrite ?app_nil_r in *.
  - unfold Pausable.pausableExporter, Js.splice0.
    destruct (Pausable.paused st) eqn:Hp; cbn [fst snd List.concat app Pausable.pending].
    + destruct (Z.gtb_spec (Js.len (Pausable.pending st ++ events))
                  (Pausable.opt options Pausable.maxQueueSize ?? 100000)); [lia | reflexivity].
    + rewrite (Hinv eq_refl), !app_nil_r. reflexivity.
  - unfold Pausable.toggle.
    destruct (negb _ && Js.nonempty (Pausable.pending st));
      cbn [fst snd List.concat app Pausable.pending]; rewrite ?app_nil_r; reflexivity.
Qed.

Lemma pausable_step_drained (c : Pausable.Call ExportItem) (st : Pausable.State ExportItem) :
  (Pausable.paused st = false -> Pausable.pending st = []) ->
  Pausable.paused (fst (Pausable.step options c st)) = false ->
  Pausable.pending (fst (Pausable.step options c st)) = [].
Proof.
  intros Hinv. destruct c as [events | on]; cbn [Pausable.step].
  - unfold Pausable.pausableExporter. destruct (Pausable.paused st) eqn:Hp; cbn [fst].
    + cbn. discriminate.
    + rewrite Hp. exact Hinv.
  - unfold Pausable.toggle.
    destruct (on ?? negb (Pausable.paused st)) eqn:Hon; cbn [negb andb fst].
    + cbn. discriminate.
    + destruct (Pausable.pending st) eqn:Hq; cbn [Js.nonempty fst Pausable.pending Pausable.paused];
        reflexivity.
Qed.

Lemma pausable_step_bound (c : Pausable.Call ExportItem) (st : Pausable.State ExportItem) :
  0 <= Pausable.opt options Pausable.maxQueueSize ?? 100000 ->
  Js.len (Pausable.pending st) <= Pausable.opt options Pausable.maxQueueSize ?? 100000 ->
  Js.len (Pausable.pending (fst (Pausable.step options c st)))
  <= Pausable.opt options Pausable.maxQueueSize ?? 100000.
Proof.
  intros Hlim Hst. destruct c as [events | on]; cbn [Pausable.step].
  - unfold Pausable.pausableExporter, Js.splice0.
    destruct (Pausable.paused st); cbn [fst snd Pausable.pending]; [| exact Hst].
    destruct (Z.gtb_spec (Js.len (Pausable.pending st ++ events))
                (Pausable.opt options Pausable.maxQueueSize ?? 100000)); [| assumption].
    rewrite len_skipn; lia.
  - unfold Pausable.toggle.
    destruct (negb _ && Js.nonempty (Pausable.pending st)); cbn [fst Pausable.pending];
      [cbn; exact Hlim | exact Hst].
Qed.

Lemma submittedTo_cons (c : Pausable.Call ExportItem) (cs : list (Pausable.Call ExportItem)) :
  Order.submittedTo (c :: cs) = Order.submittedTo [c] ++ Order.submittedTo cs.
Proof. cbn. now rewrite app_nil_r. Qed.

Lemma pausable_run_subseq (cs : list (Pausable.Call ExportItem)) :
  forall st : Pausable.State ExportItem,
    (Pausable.paused st = false -> Pausable.pending st = []) ->
    Order.Subseq
      (List.concat (snd (Pausable.run options cs st))
       ++ Pausable.pending (fst (Pausable.run options cs st)))
      (Pausable.pending st ++ Order.submittedTo cs).
Proof.
  induction cs as [| c cs IH]; intros st Hinv.
  - cbn. rewrite app_nil_r. apply subseq_refl.
  - cbn [Pausable.run]. pose proof (pausable_step_subseq c st Hinv) as Hc.
    pose proof (pausable_step_drained c st Hinv) as Hd.
    destruct (Pausable.step options c st) as [st1 out1]. cbn [fst snd] in Hc, Hd.
    specialize (IH st1 Hd). destruct (Pausable.run options cs st1) as [st2 out2].
    cbn [fst snd] in *. rewrite concat_app, <- app_assoc, submittedTo_cons.
    apply subseq_trans with (l2 := List.concat out1 ++ Pausable.pending st1
                                   ++ Order.submittedTo cs).
    + apply subseq_app; [apply subseq_refl | exact IH].
    + rewrite !app_assoc. apply subseq_app; [exact Hc | apply subseq_refl].
Qed.

Lemma pausable_run_keeps (cs : list (Pausable.Call ExportItem)) :
  forall st : Pausable.State ExportItem,
    Js.len (Pausable.pending st ++ Order.submittedTo cs)
    <= Pausable.opt options Pausable.maxQueueSize ?? 100000 ->
    (Pausable.paused st = false -> Pausable.pending st = []) ->
    List.concat (snd (Pausable.run options cs st))
    ++ Pausable.pending (fst (Pausable.run options cs st))
    = Pausable.pending st ++ Order.submittedTo cs.
Proof.
  induction cs as [| c cs IH]; intros st Hfit Hinv.
  - cbn. now rewrite app_nil_r.
  - cbn [Pausable.run]. rewrite submittedTo_cons in Hfit |- *.
    assert (Hfit0 : Js.len (Pausable.pending st ++ Order.submittedTo [c])
                    <= Pausable.opt options Pausable.maxQueueSize ?? 100000).
    { rewrite app_assoc, len_app in Hfit.
      pose proof (len_nonneg (Order.submittedTo cs)). lia. }
    pose proof (pausable_step_keeps c st Hfit0 Hinv) as Hc.
    pose proof (pausable_step_drained c st Hinv) as Hd.
    destruct (Pausable.step options c st) as [st1 out1]. cbn [fst snd] in *.
    assert (Hfit1 : Js.len (Pausable.pending st1 ++ Order.submittedTo cs)
                    <= Pausable.opt options Pausable.maxQueueSize ?? 100000).
    { apply (f_equal (@Js.len ExportItem)) in Hc. rewrite app_assoc in Hfit.
      rewrite !len_app in *. pose proof (len_nonneg (List.concat out1)). lia. }
    specialize (IH st1 Hfit1 Hd). destruct (Pausable.run options cs st1) as [st2 out2].
    cbn [fst snd] in *. rewrite concat_app, <- app_assoc, IH, app_assoc, Hc, <- app_assoc.
    reflexivity.
Qed.

Lemma pausable_run_bound (cs : list (Pausable.Call ExportItem)) :
  forall st : Pausable.State ExportItem,
    0 <= Pausable.opt options Pausable.maxQueueSize ?? 100000 ->
    Js.len (Pausable.pending st) <= Pausable.opt options Pausable.maxQueueSize ?? 100000 ->
    Js.len (Pausable.pending (fst (Pausable.run options cs st)))
    <= Pausable.opt options Pausable.maxQueueSize ?? 100000.
Proof.
  induction cs as [| c cs IH]; intros st Hlim Hst; [exact Hst |].
  cbn [Pausable.run]. pose proof (pausable_step_bound c st Hlim Hst) as H1.
  destruct (Pausable.step options c st) as [st1 out1]. cbn [fst] in H1.
  specialize (IH st1 Hlim H1). destruct (Pausable.run options cs st1) as [st2 out2].
  exact IH.
Qed.

End PausableCallProps.

(** X14. Whatever sequence of submissions and toggles a pausable stage
    sees, the items forwarded so far followed by the items still queued are
    a selection of the submitted items in submission order. *)
Theorem pausable_forwards_a_selection_in_order :
  forall (ExportItem : Type) (options : option Pausable.PausableExporterOptions)
         (cs : list (Pausable.Call ExportItem)),
    let r := Pausable.run options cs (Pausable.init ExportItem options) in
    Order.Subseq (List.concat (snd r) ++ Pausable.pending (fst r)) (Order.submittedTo cs).
Proof.
  intros ExportItem options cs r. subst r.
  apply (@pausable_run_subseq ExportItem options cs (Pausable.init ExportItem options)).
  reflexivity.
Qed.

(** X15. When the items submitted altogether do not exceed the queue limit,
    a pausable stage loses nothing, however it is toggled: the forwarded
    items followed by the queued ones are exactly the submitted items. *)
Theorem pausable_keeps_everything_within_limit :
  forall (ExportItem : Type) (options : option Pausable.PausableExporterOptions)
         (cs : list (Pausable.Call ExportItem)),
    Js.len (Order.submittedTo cs) <= Pausable.opt options Pausable.maxQueueSize ?? 100000 ->
    let r := Pausable.run options cs (Pausable.init ExportItem options) in
    List.concat (snd r) ++ Pausable.pending (fst r) = Order.submittedTo cs.
Proof.
  intros ExportItem options cs Hfit r. subst r.
  apply (@pausable_run_keeps ExportItem options cs (Pausable.init ExportItem options));
    [exact Hfit | reflexivity].
Qed.

Lemma pausable_keeps_everything_within_limit_witness :
  let cs := [Pausable.Submit [1]; Pausable.Toggle Z None; Pausable.Submit [2; 3];
             Pausable.Toggle Z (Some false); Pausable.Submit [4]] in
  let r := Pausable.run None cs (Pausable.init Z None) in
  List.concat (snd r) ++ Pausable.pending (fst r) = [1; 2; 3; 4].
Proof.
  apply (@pausable_keeps_everything_within_limit Z None
           [Pausable.Submit [1]; Pausable.Toggle Z None; Pausable.Submit [2; 3];
            Pausable.Toggle Z (Some false); Pausable.Submit [4]]).
  vm_compute. discriminate.
Defined.

(** X16. With a queue limit that is not negative, the queue of a pausable
    stage never holds more items than the limit. *)
Theorem pausable_queue_bounded :
  forall (ExportItem : Type) (options : option Pausable.PausableExporterOptions)
         (cs : list (Pausable.Call ExportItem)),
    0 <= Pausable.opt options Pausable.maxQueueSize ?? 100000 ->
    Js.len (Pausable.pending (fst (Pausable.run options cs (Pausable.init ExportItem options))))
    <= Pausable.opt options Pausable.maxQueueSize ?? 100000.
Proof.
  intros ExportItem options cs Hlim.
  apply (@pausable_run_bound ExportItem options cs (Pausable.init ExportItem options) Hlim).
  cbn. exact Hlim.
Qed.

Lemma pausable_queue_bounded_witness :
  let options := Some {| Pausable.startPaused := Some true; Pausable.maxQueueSize := Some 2 |} in
  Js.len (Pausable.pending
            (fst (Pausable.run options [Pausable.Submit [1; 2; 3]; Pausable.Submit [4]]
                    (Pausable.init Z options))))
  <= 2.
Proof.
  apply (@pausable_queue_bounded Z
           (Some {| Pausable.startPaused := Some true; Pausable.maxQueueSize := Some 2 |})
           [Pausable.Submit [1; 2; 3]; Pausable.Submit [4]]).
  vm_compute. discriminate.
Defined.

(** X17. A submission that overflows the queue of a paused stage drops the
    oldest items and keeps exactly the newest ones, as many as the limit. *)
Theorem pausable_overflow_keeps_newest :
  forall (ExportItem : Type) (options : option Pausable.PausableExporterOptions)
         (events : list ExportItem) (st : Pausable.State ExportItem),
    Pausable.paused st = true ->
    0 <= Pausable.opt options Pausable.maxQueueSize ?? 100000 ->
    Pausable.opt options Pausable.maxQueueSize ?? 100000
    < Js.len (Pausable.pending st ++ events) ->
    let r := Pausable.pausableExporter options events st in
    snd r = []
    /\ Pausable.paused (fst r) = true
    /\ Js.len (Pausable.pending (fst r)) = Pausable.opt options Pausable.maxQueueSize ?? 100000
    /\ exists dropped,
         dropped <> []
         /\ Pausable.pending st ++ events = dropped ++ Pausable.pending (fst r).
Proof.
  intros ExportItem options events st Hp Hlim Hover r. subst r.
  unfold Pausable.pausableExporter, Js.splice0. rewrite Hp.
  destruct (Z.gtb_spec (Js.len (Pausable.pending st ++ events))
              (Pausable.opt options Pausable.maxQueueSize ?? 100000)); [| lia].
  cbn [fst snd Pausable.pending Pausable.paused].
  set (p := Pausable.pending st ++ events) in *.
  set (q := Pausable.opt options Pausable.maxQueueSize ?? 100000) in *.
  split; [reflexivity |]. split; [reflexivity |].
  split; [rewrite len_skipn; lia |].
  exists (firstn (Z.to_nat (Js.len p - q)) p). split.
  - intros Hnil. apply (f_equal (@Js.len ExportItem)) in Hnil.
    rewrite len_firstn in Hnil; [| lia]. cbn in Hnil. lia.
  - symmetry. apply firstn_skipn.
Qed.

Lemma pausable_overflow_keeps_newest_witness :
  let options := Some {| Pausable.startPaused := Some true; Pausable.maxQueueSize := Some 2 |} in
  let r := Pausable.pausableExporter options [3; 4]
             {| Pausable.paused := true; Pausable.pending := [1; 2] |} in
  snd r = []
  /\ Pausable.paused (fst r) = true
  /\ Js.len (Pausable.pending (fst r)) = 2
  /\ exists dropped, dropped <> [] /\ [1; 2; 3; 4] = dropped ++ Pausable.pending (fst r).
Proof.
  apply (@pausable_overflow_keeps_newest Z
           (Some {| Pausable.startPaused := Some true; Pausable.maxQueueSize := Some 2 |})
           [3; 4] {| Pausable.paused := true; Pausable.pending := [1; 2] |});
    [reflexivity | vm_compute; discriminate | vm_compute; reflexivity].
Defined.

(** ** Identifiers and timestamps of utils/data.ts *)

Section DataProps.

Lemma substring_skip (a b : string) (m n : nat) :
  String.substring (String.length a + m) n (a ++ b)%string = String.substring m n b.
Proof. induction a as [| x a IH]; [reflexivity | exact IH]. Qed.

Lemma substring_prefix (a b : string) :
  String.substring 0 (String.length a) (a ++ b)%string = a.
Proof.
  induction a as [| x a IH]; cbn.
  - destruct b; reflexivity.
  - now rewrite IH.
Qed.

(** No byte is written as [ff]: the random byte is below 255. *)
Lemma hexByte_not_ff (b : N) :
  (b < 255)%N -> JsString.padStart 2 "0" (JsString.toString16 b) <> "ff".
Proof.
  intros Hb.
  assert (Hall : forallb (fun k =>
                   negb (String.eqb (JsString.padStart 2 "0" (JsString.toString16 (N.of_nat k)))
                           "ff"))
                   (seq 0 255) = true) by (vm_compute; reflexivity).
  rewrite forallb_forall in Hall.
  assert (Hin : In (N.to_nat b) (seq 0 255)) by (apply in_seq; lia).
  specialize (Hall (N.to_nat b) Hin). rewrite N2Nat.id in Hall.
  apply negb_true_iff in Hall. apply String.eqb_neq. exact Hall.
Qed.

Lemma id_bytes (n : nat) :
  forall (rt : Data.Runtime) (k : nat),
    (k < n)%nat -> String.substring (2 * k) 2 (fst (Data.id n rt)) <> "ff".
Proof.
  induction n as [| n IH]; intros rt k Hk; [lia |].
  cbn [Data.id]. unfold Data.draw.
  set (rt1 := {| Data.dateNow := Data.dateNow rt; Data.ticks := Data.ticks rt;
                 Data.randomByte := Data.randomByte rt; Data.draws := S (Data.draws rt) |}).
  specialize (IH rt1). destruct (Data.id n rt1) as [rest rt2]. cbn [fst] in *.
  assert (Hb : (Data.randomByte rt (Data.draws rt) mod 255 < 255)%N)
    by (apply N.mod_lt; discriminate).
  destruct (hexByte Hb) as [Hl _]. cbv zeta in Hl.
  pose proof (hexByte_not_ff Hb) as Hff.
  set (byte := JsString.padStart 2 "0"
                 (JsString.toString16 (Data.randomByte rt (Data.draws rt) mod 255))) in *.
  destruct k as [| k].
  - change (2 * 0)%nat with 0%nat. rewrite <- Hl at 1. rewrite substring_prefix. exact Hff.
  - replace (2 * S k)%nat with (String.length byte + 2 * k)%nat by lia.
    rewrite substring_skip. apply IH. lia.
Qed.

Lemma id_draws (n : nat) :
  forall rt : Data.Runtime, Data.draws (snd (Data.id n rt)) = (Data.draws rt + n)%nat.
Proof.
  induction n as [| n IH]; intros rt; [cbn; lia |].
  cbn [Data.id]. unfold Data.draw.
  set (rt1 := {| Data.dateNow := Data.dateNow rt; Data.ticks := Data.ticks rt;
                 Data.randomByte := Data.randomByte rt; Data.draws := S (Data.draws rt) |}).
  specialize (IH rt1). destruct (Data.id n rt1) as [rest rt2]. cbn [fst snd] in *.
  rewrite IH. cbn. lia.
Qed.

Lemma decimal_app_cons (d d' : Decimal.uint) :
  NilEmpty.string_of_uint (Decimal.app d d')
  = (NilEmpty.string_of_uint d ++ NilEmpty.string_of_uint d')%string.
Proof.
  rewrite <- (DecimalFacts.of_list_to_list (Decimal.app d d')), DecimalFacts.app_spec.
  induction d as [| d IH | d IH | d IH | d IH | d IH | d IH | d IH | d IH | d IH | d IH];
    cbn [DecimalFacts.to_list app DecimalFacts.of_list NilEmpty.string_of_uint String.append];
    [now rewrite DecimalFacts.of_list_to_list | now rewrite IH ..].
Qed.

Lemma string_of_uint_nonnil (d : Decimal.uint) :
  d <> Decimal.Nil -> NilZero.string_of_uint d = NilEmpty.string_of_uint d.
Proof. destruct d; [congruence | reflexivity ..]. Qed.

Lemma decimal_app_nonnil (d d' : Decimal.uint) :
  d <> Decimal.Nil -> Decimal.app d d' <> Decimal.Nil.
Proof.
  intros Hd H. apply (f_equal DecimalFacts.to_list) in H.
  rewrite DecimalFacts.app_spec in H. destruct d; [congruence | discriminate H ..].
Qed.

Lemma to_int_digits (t : Z) :
  exists d, d <> Decimal.Nil /\ (Z.to_int t = Decimal.Pos d \/ Z.to_int t = Decimal.Neg d).
Proof.
  destruct t as [| p | p]; cbn [Z.to_int].
  - exists (Decimal.D0 Decimal.Nil). split; [discriminate | now left].
  - exists (Pos.to_uint p). split; [apply DecimalPos.Unsigned.to_uint_nonnil | now left].
  - exists (Pos.to_uint p). split; [apply DecimalPos.Unsigned.to_uint_nonnil | now right].
Qed.

Lemma millitime_digits (t : Z) :
  Data.millitime t
  = NilZero.string_of_int (Decimal.app_int (Z.to_int t) (Nat.iter 6 Decimal.D0 Decimal.Nil))
  /\ Decimal.app_int (Z.to_int t) (Nat.iter 6 Decimal.D0 Decimal.Nil) <> Decimal.Pos Decimal.Nil
  /\ Decimal.app_int (Z.to_int t) (Nat.iter 6 Decimal.D0 Decimal.Nil) <> Decimal.Neg Decimal.Nil.
Proof.
  unfold Data.millitime, JsString.ofInteger.
  destruct (to_int_digits t) as (d & Hd & [-> | ->]);
    cbn [Decimal.app_int NilZero.string_of_int];
    pose proof (@decimal_app_nonnil d (Nat.iter 6 Decimal.D0 Decimal.Nil) Hd) as Hne;
    rewrite (string_of_uint_nonnil Hd), (string_of_uint_nonnil Hne), decimal_app_cons;
    (split; [reflexivity | split; congruence]).
Qed.

End DataProps.

(** X18. [id(n)] returns [2 n] lowercase hexadecimal digits, one pair for
    each of the [n] random numbers it reads and no pair ever [ff]; it does
    not read the clock. *)
Theorem id_shape :
  forall (n : nat) (rt : Data.Runtime),
    let r := Data.id n rt in
    String.length (fst r) = (2 * n)%nat
    /\ JsString.allHex (fst r) = true
    /\ (forall k, (k < n)%nat -> String.substring (2 * k) 2 (fst r) <> "ff")
    /\ Data.draws (snd r) = (Data.draws rt + n)%nat
    /\ Data.ticks (snd r) = Data.ticks rt.
Proof.
  intros n rt r. subst r.
  destruct (id_hex n rt) as (Hlen & Hhex & _ & Ht).
  split; [exact Hlen |]. split; [exact Hhex |].
  split; [intros k Hk; apply id_bytes; exact Hk |].
  split; [apply id_draws | exact Ht].
Qed.


(** ** Logging through a running span, the dummy tracer, and parents that
    are not trace contexts *)


Section NullExporterProps.

(** Without exporter [runSpan] ends as the callback ends and adds no
    export call. *)
Lemma runSpanOn_null (T : Type) (scope : InstrumentationScope) (parent : ParentSpan)
  (fn : Body T) (w : World) :
  fst (fst (runSpanOn None scope parent fn w))
  = fst (fst (fn (fst (makeSpan parent None w)) (snd (makeSpan parent None w))))
  /\ exported (snd (runSpanOn None scope parent fn w))
     = exported (snd (fn (fst (makeSpan parent None w)) (snd (makeSpan parent None w)))).
Proof.
  unfold runSpanOn.
  destruct (makeSpan parent None w) as [s0 w0]. cbn [fst snd].
  destruct (fn s0 w0) as [[result s1] w1]. cbn [fst snd].
  destruct result as [v | ex].
  - destruct (Data.now (runtime w1)) as [t rt]. split; reflexivity.
  - unfold RunningSpan.mark. destruct (Data.now (runtime w1)) as [t1 rt1].
    cbn [setRuntime runtime]. destruct (Data.now rt1) as [t rt]. split; reflexivity.
Qed.

Lemma runSpan_outcome (T : Type) (exporter : option ExportFunction)
  (scope : InstrumentationScope) (parent : ParentSpan) (fn : Body T) (w : World) :
  fst (runSpan exporter scope parent fn w)
  = fst (fst (runSpanOn exporter scope parent fn w)).
Proof.
  unfold runSpan. destruct (runSpanOn exporter scope parent fn w) as [[result s] w'].
  reflexivity.
Qed.

Lemma runSpan_world (T : Type) (exporter : option ExportFunction)
  (scope : InstrumentationScope) (parent : ParentSpan) (fn : Body T) (w : World) :
  snd (runSpan exporter scope parent fn w) = snd (runSpanOn exporter scope parent fn w).
Proof.
  unfold runSpan. destruct (runSpanOn exporter scope parent fn w) as [[result s] w'].
  reflexivity.
Qed.

Lemma dummyTracer_run (T : Type) (scope : InstrumentationScope) (fn : Body T) :
  t_run dummyTracer scope fn = runSpan None scope ParentAbsent fn.
Proof. reflexivity. Qed.

(** Logging through a span whose exporter is [null] reads the clock and
    fails on the call. *)
Lemma log_null (scope : InstrumentationScope) (severity : Z) (message : string)
  (record : option PartialLogRecord) (s : Span) (w : World) :
  RunningSpan.log None scope severity message record s w
  = (Thrown notAFunction, s, setRuntime (snd (Data.now (runtime w))) w).
Proof.
  unfold RunningSpan.log, RunningSpan.await, Context.log, callExporter.
  destruct (Data.now (runtime w)) as [t rt]. reflexivity.
Qed.

Lemma log_null_outcome (scope : InstrumentationScope) (severity : Z) (message : string)
  (record : option PartialLogRecord) (s : Span) (w : World) :
  fst (fst (RunningSpan.log None scope severity message record s w)) = Thrown notAFunction
  /\ exported (snd (RunningSpan.log None scope severity message record s w)) = exported w.
Proof. rewrite log_null. split; reflexivity. Qed.

End NullExporterProps.

(** X21. The [run] method of the dummy tracer ends as the callback ends,
    also when it throws, and adds no call to any exporter; but a callback
    that logs through its span fails with a [TypeError], since the span's
    exporter is [null]. *)
Theorem dummyTracer_run_passes_through :
  forall (T : Type) (scope : InstrumentationScope) (fn : Body T) (w : World),
    let started := makeSpan ParentAbsent None w in
    let ended := fn (fst started) (snd started) in
    fst (t_run dummyTracer scope fn w) = fst (fst ended)
    /\ exported (snd (t_run dummyTracer scope fn w)) = exported (snd ended)
    /\ forall (scope' : InstrumentationScope) (severity : Z) (message : string)
              (record : option PartialLogRecord),
         let logging := RunningSpan.log None scope' severity message record in
         fst (t_run dummyTracer scope logging w) = Thrown notAFunction
         /\ exported (snd (t_run dummyTracer scope logging w)) = exported w.
Proof.
  intros T scope fn w started ended. subst started ended.
  rewrite dummyTracer_run, runSpan_outcome, runSpan_world.
  destruct (@runSpanOn_null T scope ParentAbsent fn w) as [H1 H2].
  split; [exact H1 |]. split; [exact H2 |].
  intros scope' severity message record logging. subst logging.
  rewrite dummyTracer_run, runSpan_outcome, runSpan_world.
  destruct (@runSpanOn_null unit scope ParentAbsent
              (RunningSpan.log None scope' severity message record) w) as [H3 H4].
  rewrite H3, H4.
  destruct (@log_null_outcome scope' severity message record
              (fst (makeSpan ParentAbsent None w)) (snd (makeSpan ParentAbsent None w)))
    as [H5 H6].
  rewrite H5, H6. split; [reflexivity | apply makeSpan_plain].
Qed.

(** X22. A parent given as a string without any [-], which is no trace
    context, starts an unsampled span in a fresh trace with no parent span
    id; [runSpan] under such a parent exports no span unless the callback
    turns sampling on. *)
Theorem parent_without_dash_is_unsampled :
  forall (p : string) (w : World),
    JsString.avoids "-" p = true ->
    let started := makeSpan (ParentString p) None w in
    sample (fst started) = false
    /\ parentSpanId (fst started) = None
    /\ traceId (fst started) = fst (Data.id 16 (snd (Data.now (runtime w))))
    /\ forall (T : Type) (exporter : ExportFunction) (scope : InstrumentationScope)
              (fn : Body T),
         let ended := fn (fst started) (snd started) in
         sample (snd (fst ended)) = false ->
         exported (snd (runSpan (Some exporter) scope (ParentString p) fn w))
         = exported (snd ended).
Proof.
  intros p w Hp started.
  assert (Hs : sample (fst started) = false
               /\ parentSpanId (fst started) = None
               /\ traceId (fst started) = fst (Data.id 16 (snd (Data.now (runtime w))))).
  { subst started. unfold makeSpan, makeParentObj. rewrite (split_avoids _ _ Hp).
    destruct (Data.now (runtime w)) as [t rt]. cbn [nth_error po_traceId fst snd].
    destruct (Data.id 16 rt) as [tid rt1]. destruct (Data.id 8 rt1) as [sid rt2].
    repeat split. }
  destruct Hs as (H1 & H2 & H3). split; [exact H1 |]. split; [exact H2 |]. split; [exact H3 |].
  intros T exporter scope fn ended Hend. subst ended. unfold runSpan, runSpanOn.
  fold started. destruct started as [s0 w0]. cbn [fst snd] in *.
  destruct (fn s0 w0) as [[result s1] w1]. cbn [fst snd] in *.
  destruct result as [v | ex].
  - destruct (Data.now (runtime w1)) as [t rt]. cbn [sample setEndTimeUnixNano].
    rewrite Hend. reflexivity.
  - unfold RunningSpan.mark. destruct (Data.now (runtime w1)) as [t1 rt1].
    cbn [setRuntime runtime]. destruct (Data.now rt1) as [t rt].
    cbn [sample setEndTimeUnixNano setEvents setStatus]. rewrite Hend. reflexivity.
Qed.

Lemma parent_without_dash_is_unsampled_witness :
  let started := makeSpan (ParentString "0af7651916cd43dd8448eb211c80319c") None Sample.world in
  sample (fst started) = false
  /\ exported (snd (runSpan (Some Sample.delivers) (ScopeName "app")
                      (ParentString "0af7651916cd43dd8448eb211c80319c") (ret tt)
                      Sample.world))
     = [].
Proof.
  destruct (@parent_without_dash_is_unsampled "0af7651916cd43dd8448eb211c80319c"
              Sample.world eq_refl) as (H1 & _ & _ & H4).
  split; [exact H1 |].
  rewrite (H4 unit Sample.delivers (ScopeName "app") (ret tt)); [reflexivity | exact H1].
Defined.

(** ** Objects used as maps, and what [collect] keeps of a batch *)

Section ObjFacts.

Variable V : Type.

Lemma get_set_same (k : string) (v : V) (obj : Faro.Obj V) :
  Faro.get k (Faro.set k v obj) = Some v.
Proof.
  induction obj as [| [k0 v0] obj IH]; cbn [Faro.set Faro.get].
  - now rewrite String.eqb_refl.
  - destruct (String.eqb k0 k) eqn:Hk; cbn [Faro.get]; rewrite Hk; [reflexivity | exact IH].
Qed.

Lemma get_set_other (k k' : string) (v : V) (obj : Faro.Obj V) :
  k <> k' -> Faro.get k' (Faro.set k v obj) = Faro.get k' obj.
Proof.
  intros Hne. induction obj as [| [k0 v0] obj IH]; cbn [Faro.set Faro.get].
  - destruct (String.eqb_spec k k'); [contradiction | reflexivity].
  - destruct (String.eqb_spec k0 k) as [-> | Hk]; cbn [Faro.get].
    + destruct (String.eqb_spec k k'); [contradiction | reflexivity].
    + rewrite IH. reflexivity.
Qed.

Lemma get_in (k : string) (g : V) (obj : Faro.Obj V) :
  Faro.get k obj = Some g -> In (k, g) obj.
Proof.
  induction obj as [| [k0 v0] obj IH]; cbn [Faro.get In]; [discriminate |].
  destruct (String.eqb_spec k0 k) as [-> | Hk]; [intros [= ->]; now left |].
  intros H. right. exact (IH H).
Qed.

Lemma get_none_keys (k : string) (obj : Faro.Obj V) :
  Faro.get k obj = None <-> ~ In k (map fst obj).
Proof.
  induction obj as [| [k0 v0] obj IH]; cbn [Faro.get map fst In]; [tauto |].
  destruct (String.eqb_spec k0 k) as [-> | Hk].
  - split; [discriminate | intros H; exfalso; apply H; now left].
  - rewrite IH. tauto.
Qed.

Lemma set_keys (k : string) (v : V) (obj : Faro.Obj V) :
  map fst (Faro.set k v obj)
  = match Faro.get k obj with
    | Some _ => map fst obj
    | None => map fst obj ++ [k]
    end.
Proof.
  induction obj as [| [k0 v0] obj IH]; cbn [Faro.set Faro.get map fst app]; [reflexivity |].
  destruct (String.eqb_spec k0 k) as [-> | Hk]; cbn [map fst]; [reflexivity |].
  rewrite IH. destruct (Faro.get k obj); reflexivity.
Qed.

Lemma set_keys_nodup (k : string) (v : V) (obj : Faro.Obj V) :
  NoDup (map fst obj) -> NoDup (map fst (Faro.set k v obj)).
Proof.
  intros Hnd. rewrite set_keys. destruct (Faro.get k obj) eqn:Hg; [exact Hnd |].
  apply get_none_keys in Hg. apply NoDup_app; [exact Hnd | repeat constructor; intros [] |].
  intros x Hx [<- | []]. contradiction.
Qed.

Lemma set_in (k k' : string) (v g : V) (obj : Faro.Obj V) :
  In (k', g) (Faro.set k v obj) -> (k' = k /\ g = v) \/ In (k', g) obj.
Proof.
  induction obj as [| [k0 v0] obj IH]; cbn [Faro.set In].
  - intros [[= <- <-] | []]. now left.
  - destruct (String.eqb_spec k0 k) as [-> | Hk]; cbn [In].
    + intros [[= <- <-] | H]; [now left | right; now right].
    + intros [H | H]; [right; now left |]. destruct (IH H) as [H1 | H1]; [now left |].
      right. now right.
Qed.

(** Looking a group up by the name it carries, among the values of an
object whose keys are those names. *)
Lemma filter_values (name : V -> string) (k : string) (obj : Faro.Obj V) :
  (forall k' g, In (k', g) obj -> name g = k') ->
  NoDup (map fst obj) ->
  filter (fun g => String.eqb (name g) k) (Faro.values obj)
  = match Faro.get k obj with
    | Some g => [g]
    | None => []
    end.
Proof.
  unfold Faro.values. induction obj as [| [k0 v0] obj IH]; intros Hname Hnd; [reflexivity |].
  cbn [map snd filter Faro.get fst] in *. inversion Hnd as [| ? ? Hnotin Hnd']; subst.
  rewrite (Hname k0 v0 (or_introl eq_refl)).
  assert (Hname' : forall k' g, In (k', g) obj -> name g = k')
    by (intros k' g H; apply Hname; now right).
  rewrite (IH Hname' Hnd'). destruct (String.eqb_spec k0 k) as [-> | Hk]; [| reflexivity].
  apply get_none_keys in Hnotin. rewrite Hnotin. reflexivity.
Qed.

End ObjFacts.

Section CollectProps.

Variable isoTimestamp : string -> option string.
Variable numberToString : PrimFloat.float -> string.
Variable toNumber : option NumberOrString -> PrimFloat.float.
Variable ErrorStack : Type.
Variable parseStackTrace : string -> option ErrorStack.

Lemma collectMetric_keeps (item : Configure.ExportItem) (b b' : Faro.Batches ErrorStack) :
  Faro.collectMetric toNumber item b = Some b' ->
  Faro.logsBatch b' = Faro.logsBatch b /\
  Faro.eventsBatch b' = Faro.eventsBatch b /\
  Faro.exceptionBatch b' = Faro.exceptionBatch b /\
  Faro.tracesBatch b' = Faro.tracesBatch b.
Proof.
  unfold Faro.collectMetric, Faro.collectGauge.
  destruct (Configure.metric item) as [m |]; [| intros [= <-]; repeat split].
  destruct (gauge m) as [dataPoints |]; [| intros [= <-]; repeat split].
  destruct dataPoints as [| point rest].
  - intros [= <-]. repeat split.
  - destruct (Faro.inherited _); [discriminate |]. intros [= <-]. repeat split.
Qed.

Lemma collectLog_keeps (item : Configure.ExportItem) (l : LogRecord) (b b' : Faro.Batches ErrorStack) :
  Faro.collectLog isoTimestamp numberToString toNumber parseStackTrace item l b = Some b' ->
  Faro.tracesBatch b' = Faro.tracesBatch b /\
  (List.length (Faro.logsBatch b') + List.length (Faro.exceptionBatch b')
   + List.length (Faro.eventsBatch b')
   = S (List.length (Faro.logsBatch b) + List.length (Faro.exceptionBatch b)
        + List.length (Faro.eventsBatch b)))%nat.
Proof.
  unfold Faro.collectLog.
  destruct (isoTimestamp (timeUnixNano l)) as [timestamp |]; [| discriminate].
  destruct (body l) as [logBody |]; [| discriminate].
  destruct (option_map (String.eqb "exception") _ ?? false).
  - intros [= <-]. cbn. rewrite length_app. cbn. split; [reflexivity | lia].
  - destruct (option_map (String.eqb "event") _ ?? false).
    + intros [= <-]. cbn. rewrite length_app. cbn. split; [reflexivity | lia].
    + intros H. apply collectMetric_keeps in H. destruct H as (H1 & H2 & H3 & H4).
      cbn in *. rewrite H1, H2, H3, H4, length_app. cbn. split; [reflexivity | lia].
Qed.

Lemma collectItem_counts (item : Configure.ExportItem) (b b' : Faro.Batches ErrorStack) :
  Faro.collectItem isoTimestamp numberToString toNumber parseStackTrace item b = Some b' ->
  (List.length (Faro.logsBatch b') + List.length (Faro.exceptionBatch b')
   + List.length (Faro.eventsBatch b')
   = (if Collected.isLogItem item then 1 else 0)
     + (List.length (Faro.logsBatch b) + List.length (Faro.exceptionBatch b)
        + List.length (Faro.eventsBatch b)))%nat.
Proof.
  unfold Faro.collectItem, Collected.isLogItem.
  destruct (Configure.span item) as [s |] eqn:Hs.
  - unfold Faro.collectSpan. destruct (Faro.inherited _); [discriminate |].
    intros [= <-]. reflexivity.
  - destruct (Configure.log item) as [l |].
    + intros H. apply collectLog_keeps in H. destruct H as [_ H]. rewrite H. reflexivity.
    + intros H. apply collectMetric_keeps in H. destruct H as (H1 & H2 & H3 & _).
      rewrite H1, H2, H3. reflexivity.
Qed.

Lemma collectItem_files (item : Configure.ExportItem) (b b' : Faro.Batches ErrorStack) :
  Faro.collectItem isoTimestamp numberToString toNumber parseStackTrace item b = Some b' ->
  Collected.wellFiled b ->
  Collected.wellFiled b'
  /\ forall k, Collected.filedSpans k b' = Collected.filedSpans k b ++ Collected.spansOf k [item].
Proof.
  unfold Faro.collectItem, Collected.spansOf. cbn [flat_map].
  intros H Hwf. destruct (Configure.span item) as [s |] eqn:Hs.
  - unfold Faro.collectSpan in H. destruct (Faro.inherited _); [discriminate |].
    injection H as <-. fold (Collected.scopeName item) in *.
    set (key := Collected.scopeName item) in *.
    destruct Hwf as [Hname Hnd]. split.
    + split; cbn [Faro.tracesBatch].
      * intros k g Hin. apply set_in in Hin. destruct Hin as [[-> ->] | Hin].
        -- cbn [Faro.spansScope]. destruct (Faro.get key (Faro.tracesBatch b)) as [g0 |] eqn:Hg;
             cbn [Js.nullish Faro.spansScope]; [| reflexivity].
           apply Hname. apply get_in. exact Hg.
        -- apply Hname. exact Hin.
      * apply set_keys_nodup. exact Hnd.
    + intros k. unfold Collected.filedSpans. cbn [Faro.tracesBatch].
      destruct (String.eqb_spec key k) as [<- | Hk].
      * rewrite get_set_same. cbn [Faro.spans].
        destruct (Faro.get key (Faro.tracesBatch b)); cbn [Js.nullish Faro.spans];
          now rewrite app_nil_r.
      * rewrite (@get_set_other _ _ _ _ _ Hk), !app_nil_r. reflexivity.
  - assert (Ht : Faro.tracesBatch b' = Faro.tracesBatch b).
    { destruct (Configure.log item) as [l |].
      - apply collectLog_keeps in H. tauto.
      - apply collectMetric_keeps in H. tauto. }
    unfold Collected.wellFiled, Collected.filedSpans. rewrite Ht. split; [exact Hwf |].
    intros k. now rewrite app_nil_r.
Qed.

Lemma collectAll_files (batch : list Configure.ExportItem) :
  forall b b' : Faro.Batches ErrorStack,
    Faro.collectAll isoTimestamp numberToString toNumber parseStackTrace batch b = Some b' ->
    Collected.wellFiled b ->
    Collected.wellFiled b'
    /\ (forall k, Collected.filedSpans k b' = Collected.filedSpans k b ++ Collected.spansOf k batch)
    /\ (List.length (Faro.logsBatch b') + List.length (Faro.exceptionBatch b')
        + List.length (Faro.eventsBatch b')
        = List.length (filter Collected.isLogItem batch)
          + (List.length (Faro.logsBatch b) + List.length (Faro.exceptionBatch b)
             + List.length (Faro.eventsBatch b)))%nat.
Proof.
  induction batch as [| item batch IH]; intros b b' H Hwf.
  - injection H as <-. split; [exact Hwf |]. split; [| reflexivity].
    intros k. cbn. now rewrite app_nil_r.
  - cbn [Faro.collectAll] in H.
    destruct (Faro.collectItem isoTimestamp numberToString toNumber parseStackTrace item b) as [b1 |] eqn:H1; [| discriminate].
    destruct (@collectItem_files _ _ _ H1 Hwf) as [Hwf1 Hs1].
    pose proof (@collectItem_counts _ _ _ H1) as Hc1.
    destruct (IH b1 b' H Hwf1) as (Hwf' & Hs' & Hc').
    split; [exact Hwf' |]. split.
    + intros k. rewrite Hs', Hs1, <- app_assoc. f_equal.
      unfold Collected.spansOf. cbn [flat_map]. now rewrite app_nil_r.
    + cbn [filter]. rewrite Hc'. destruct (Collected.isLogItem item); cbn [List.length]; lia.
Qed.

(** An item that makes the loop body throw makes [collect] throw, wherever
it is in the batch. *)
Lemma collectAll_throws (item : Configure.ExportItem) (batch : list Configure.ExportItem) :
  In item batch ->
  (forall b, Faro.collectItem isoTimestamp numberToString toNumber parseStackTrace item b = None) ->
  forall b, Faro.collectAll isoTimestamp numberToString toNumber parseStackTrace batch b = None.
Proof.
  intros Hin Hnone. induction batch as [| x batch IH]; [destruct Hin |].
  intros b. cbn [Faro.collectAll].
  destruct Hin as [-> | Hin]; [now rewrite Hnone |].
  destruct (Faro.collectItem isoTimestamp numberToString toNumber parseStackTrace x b); [apply IH; exact Hin | reflexivity].
Qed.

End CollectProps.

(** X23. When [collect] returns, the span groups have distinct names, and
    the group of each name holds exactly the spans of the items of that
    scope name, in the order of the batch: no span is lost, doubled or filed
    under another name. *)
Theorem collect_groups_spans_by_scope_name :
  forall (isoTimestamp : string -> option string)
         (numberToString : PrimFloat.float -> string)
         (toNumber : option NumberOrString -> PrimFloat.float)
         (ErrorStack : Type) (parseStackTrace : string -> option ErrorStack)
         (batch : list Configure.ExportItem)
         traces logs measurements exceptions events,
    Faro.collect isoTimestamp numberToString toNumber parseStackTrace batch
    = Some (traces, logs, measurements, exceptions, events) ->
    NoDup (map (fun g => Faro.libraryName (Faro.spansScope g)) traces)
    /\ forall name, Collected.groupedAs name traces = Collected.spansOf name batch.
Proof.
  intros isoTimestamp numberToString toNumber ErrorStack parseStackTrace batch
         traces logs measurements exceptions events H.
  unfold Faro.collect in H.
  destruct (Faro.collectAll _ _ _ _ batch (Faro.noBatches ErrorStack)) as [b |] eqn:Hall;
    [| discriminate].
  injection H as <- _ _ _ _.
  assert (Hwf0 : Collected.wellFiled (Faro.noBatches ErrorStack))
    by (split; [intros k g [] | constructor]).
  destruct (@collectAll_files _ _ _ _ _ batch _ _ Hall Hwf0) as ((Hname & Hnd) & Hs & _).
  split.
  - unfold Faro.values. rewrite map_map.
    rewrite (map_ext_in _ fst); [exact Hnd |].
    intros [k g] Hin. cbn [fst snd]. apply Hname. exact Hin.
  - intros name. unfold Collected.groupedAs.
    rewrite (@filter_values _ (fun g => Faro.libraryName (Faro.spansScope g)) name _ Hname Hnd).
    specialize (Hs name). unfold Collected.filedSpans in Hs. cbn [Faro.tracesBatch Faro.noBatches Faro.get app] in Hs.
    rewrite <- Hs. destruct (Faro.get name (Faro.tracesBatch b)); cbn; [apply app_nil_r | reflexivity].
Qed.

Lemma collect_groups_spans_by_scope_name_witness :
  let s1 := fst (makeSpan ParentAbsent None Sample.world) in
  let s2 := fst (makeSpan Sample.parent None Sample.world) in
  let batch := [Notions.spanItem (ScopeName "api") s1; Notions.spanItem (ScopeName "ui") s2;
                Sample.logAndGauge; Notions.spanItem (ScopeObject "api" (Some "2.0") None) s2] in
  exists traces,
    map Faro.spans traces = [[s1; s2]; [s2]]
    /\ Collected.groupedAs "api" traces = Collected.spansOf "api" batch.
Proof.
  intros s1 s2 batch.
  destruct (Faro.collect Sample.isoTimestamp Sample.numberToString Sample.toNumber
              Sample.parseStackTrace batch)
    as [[[[[traces logs] measurements] exceptions] events] |] eqn:H; [| discriminate H].
  exists traces. split.
  - vm_compute in H. injection H as <- _ _ _ _. reflexivity.
  - exact (proj2 (@collect_groups_spans_by_scope_name _ _ _ _ _ batch _ _ _ _ _ H) "api").
Defined.

(** X24. When [collect] returns, every item that has a log record and no
    span is filed once, as a log message, an exception or an event: the
    three lists together have as many entries as there are such items. *)
Theorem collect_files_each_log_once :
  forall (isoTimestamp : string -> option string)
         (numberToString : PrimFloat.float -> string)
         (toNumber : option NumberOrString -> PrimFloat.float)
         (ErrorStack : Type) (parseStackTrace : string -> option ErrorStack)
         (batch : list Configure.ExportItem)
         traces logs measurements exceptions events,
    Faro.collect isoTimestamp numberToString toNumber parseStackTrace batch
    = Some (traces, logs, measurements, exceptions, events) ->
    (List.length logs + List.length exceptions + List.length events
     = List.length (filter Collected.isLogItem batch))%nat.
Proof.
  intros isoTimestamp numberToString toNumber ErrorStack parseStackTrace batch
         traces logs measurements exceptions events H.
  unfold Faro.collect in H.
  destruct (Faro.collectAll _ _ _ _ batch (Faro.noBatches ErrorStack)) as [b |] eqn:Hall;
    [| discriminate].
  injection H as _ <- _ <- <-.
  assert (Hwf0 : Collected.wellFiled (Faro.noBatches ErrorStack))
    by (split; [intros k g [] | constructor]).
  destruct (@collectAll_files _ _ _ _ _ batch _ _ Hall Hwf0) as (_ & _ & Hc).
  rewrite Hc. cbn. lia.
Qed.

Lemma collect_files_each_log_once_witness :
  exists traces logs measurements exceptions events,
    Faro.collect Sample.isoTimestamp Sample.numberToString Sample.toNumber
      Sample.parseStackTrace
      [Sample.logAndGauge;
       Notions.spanItem (ScopeName "api") (fst (makeSpan ParentAbsent None Sample.world));
       Sample.logAndGauge]
    = Some (traces, logs, measurements, exceptions, events)
    /\ (List.length logs + List.length exceptions + List.length events = 2)%nat.
Proof.
  destruct (Faro.collect Sample.isoTimestamp Sample.numberToString Sample.toNumber
              Sample.parseStackTrace
              [Sample.logAndGauge;
               Notions.spanItem (ScopeName "api")
                 (fst (makeSpan ParentAbsent None Sample.world));
               Sample.logAndGauge])
    as [[[[[traces logs] measurements] exceptions] events] |] eqn:H; [| discriminate H].
  exists traces, logs, measurements, exceptions, events. split; [reflexivity |].
  exact (@collect_files_each_log_once _ _ _ _ _ _ _ _ _ _ _ H).
Defined.



(** ** From the recording functions to the collector payload *)

(** X26. What [measurement] hands to the exporter, [collect] turns into one
    measurement of the scope's name with the single value [name: value],
    provided the scope name is none of the members every object inherits
    and [name] is not [__proto__]. *)
Theorem measurement_collects_as_one_gauge :
  forall (isoTimestamp : string -> option string)
         (numberToString : PrimFloat.float -> string)
         (toNumber : option NumberOrString -> PrimFloat.float)
         (ErrorStack : Type) (parseStackTrace : string -> option ErrorStack)
         (exporter : ExportFunction) (scope : InstrumentationScope) (name unit : string)
         (value : PrimFloat.float) (context : option AnyValue) (w : World),
    Faro.inherited (Faro.libraryName (Faro.makeScope scope)) = false ->
    name <> "__proto__" ->
    exists item,
      exported (snd (measurement (Some exporter) scope name unit value context w))
      = exported w ++ [[item]]
      /\ Faro.collect isoTimestamp numberToString toNumber parseStackTrace [item]
         = Some ([], [],
                 [{| Faro.measurementType := Faro.libraryName (Faro.makeScope scope);
                     Faro.measurementValues := [(name, toNumber (Some (Num value)))] |}],
                 [], []).
Proof.
  intros isoTimestamp numberToString toNumber ErrorStack parseStackTrace
         exporter scope name unit value context w Hscope Hname.
  unfold measurement, callExporter. destruct (Data.now (runtime w)) as [t rt].
  cbn [snd exported]. eexists. split; [reflexivity |].
  unfold Faro.collect, Faro.collectAll, Faro.collectItem, Faro.collectMetric, Faro.collectGauge.
  cbn [Configure.span Configure.log Configure.metric Configure.scope gauge metricName asDouble].
  rewrite Hscope. apply String.eqb_neq in Hname. rewrite Hname. reflexivity.
Qed.

Lemma measurement_collects_as_one_gauge_witness :
  exists item,
    exported (snd (measurement (Some Sample.delivers) (ScopeName "koll/web-vitals") "cls" "%"
                     Sample.clsValue None Sample.world))
    = [[item]]
    /\ Faro.collect Sample.isoTimestamp Sample.numberToString Sample.toNumber
         Sample.parseStackTrace [item]
       = Some ([], [],
               [{| Faro.measurementType := "koll/web-vitals";
                   Faro.measurementValues := [("cls", Sample.clsValue)] |}],
               [], []).
Proof.
  apply (@measurement_collects_as_one_gauge Sample.isoTimestamp Sample.numberToString
           Sample.toNumber (list string) Sample.parseStackTrace Sample.delivers
           (ScopeName "koll/web-vitals") "cls" "%" Sample.clsValue None Sample.world).
  - reflexivity.
  - discriminate.
Defined.



(** ** The instrumentation of unhandled errors *)

Section UnhandledErrorsProps.

Import UnhandledErrors.

(** [error] makes exactly one export call, however that call ends. *)
Lemma error_exports_once (exporter : ExportFunction) (scope : InstrumentationScope)
  (parent : ParentSpan) (ex : JsError.Error) (w : World) :
  List.length (exported (snd (Context.error (Some exporter) scope parent ex w)))
  = S (List.length (exported w)).
Proof.
  unfold Context.error, Context.log, callExporter.
  destruct (Data.now (runtime w)) as [t rt]. cbn [snd exported].
  rewrite length_app. cbn. lia.
Qed.

Lemma handleError_exports (exporter : ExportFunction)
  (options : option InstrumentUnhandledErrorsOptions) (e : JsError.Error) (w : World) :
  List.length (exported (snd (handleError exporter options e w)))
  = ((if reports e (exporter, options) then 1 else 0) + List.length (exported w))%nat.
Proof.
  unfold handleError, reports. cbn [snd].
  destruct (match options with Some o => ignore o | None => None end) as [f |].
  - destruct (f e) as [[|] | ex]; cbn [snd]; [apply error_exports_once | reflexivity ..].
  - cbn [snd]. apply error_exports_once.
Qed.

Lemma install_reportsAs (exporter : ExportFunction)
  (options : option InstrumentUnhandledErrorsOptions) (win : Window) (args : ErrorArgs)
  (n : nat) (fc : list (nat * ErrorArgs)) :
  Reporting.reportsAs win args n fc ->
  Reporting.reportsAs (fst (instrumentUnhandledErrors exporter options win)) args
    (n + match a_error args with
         | Some e => if reports e (exporter, options) then 1 else 0
         | None => 0
         end) fc.
Proof.
  intros Hwin p. unfold Reporting.reportsAs in Hwin. unfold instrumentUnhandledErrors, reportError. cbn [fst onerror callHandler].
  set (first := match a_error args with
                | Some error => handleError exporter options error (world p)
                | None => (Returned tt, world p)
                end).
  assert (Hfirst : List.length (exported (snd first))
                   = (match a_error args with
                      | Some e => if reports e (exporter, options) then 1 else 0
                      | None => 0
                      end + List.length (exported (world p)))%nat).
  { subst first. destruct (a_error args) as [e |]; [apply handleError_exports | reflexivity]. }
  destruct first as [o w]. cbn [snd] in Hfirst.
  specialize (Hwin {| world := w; foreignCalls := foreignCalls p |}).
  unfold reportError in Hwin. cbn [world foreignCalls] in Hwin.
  destruct (onerror win) as [h |].
  - destruct (callHandler h args _) as [o' p2]. cbn [snd] in *.
    destruct Hwin as [H1 H2]. split; [lia | exact H2].
  - cbn [snd world foreignCalls] in *. destruct Hwin as [H1 H2]. split; [lia | exact H2].
Qed.

Lemma installAll_reportsAs
  (layers : list (ExportFunction * option InstrumentUnhandledErrorsOptions))
  (args : ErrorArgs) (fc : list (nat * ErrorArgs)) :
  forall (win : Window) (n : nat),
    Reporting.reportsAs win args n fc ->
    Reporting.reportsAs (installAll layers win) args
      (n + match a_error args with
           | Some e => List.length (filter (reports e) layers)
           | None => 0
           end) fc.
Proof.
  induction layers as [| [exporter options] layers IH]; intros win n Hwin.
  - cbn [installAll filter List.length]. destruct (a_error args); rewrite Nat.add_0_r; exact Hwin.
  - cbn [installAll]. pose proof (install_reportsAs exporter options Hwin) as H1.
    specialize (IH _ _ H1). destruct (a_error args) as [e |].
    + cbn [filter]. destruct (reports e (exporter, options)); cbn [List.length].
      * replace (n + S (List.length (filter (reports e) layers)))%nat
          with (n + 1 + List.length (filter (reports e) layers))%nat by lia. exact IH.
      * rewrite Nat.add_0_r in IH. exact IH.
    + rewrite !Nat.add_0_r in *. exact IH.
Qed.

(** A handler only adds export calls. *)
Lemma callHandler_grows :
  forall (h : Handler) (args : ErrorArgs) (p : Page),
    (List.length (exported (world p))
     <= List.length (exported (world (snd (callHandler h args p)))))%nat.
Proof.
  fix IH 1. intros [id fails | id exporter options original] args p; cbn [callHandler].
  - cbn. lia.
  - set (first := match a_error args with
                  | Some error => handleError exporter options error (world p)
                  | None => (Returned tt, world p)
                  end).
    assert (Hfirst : (List.length (exported (world p))
                      <= List.length (exported (snd first)))%nat).
    { subst first. destruct (a_error args) as [e |]; [| cbn; lia].
      rewrite handleError_exports. lia. }
    destruct first as [o w]. cbn [snd] in Hfirst.
    destruct original as [h' |]; [| cbn; exact Hfirst].
    pose proof (IH h' args {| world := w; foreignCalls := foreignCalls p |}) as H.
    destruct (callHandler h' args _) as [o' p2]. cbn [snd world] in *. lia.
Qed.

Lemma filter_newest (id : nat) (l : Listener) (ls : list Listener) :
  l_id l = id ->
  Forall (fun x => (l_id x < id)%nat) ls ->
  filter (fun x => negb (Nat.eqb (l_id x) id)) (ls ++ [l]) = ls.
Proof.
  intros Hl Hls. rewrite filter_app. cbn [filter]. rewrite Hl, Nat.eqb_refl. cbn [negb].
  rewrite app_nil_r. induction Hls as [| x ls Hx Hls IH]; [reflexivity |].
  cbn [filter]. destruct (Nat.eqb_spec (l_id x) id); [lia |]. cbn [negb]. now rewrite IH.
Qed.

End UnhandledErrorsProps.

(** X28. However many instrumentations of unhandled errors are installed on
    top of each other, an error reported to [window.onerror] is exported
    once by each instrumentation whose [ignore] is missing or answers
    [true], and by no other (an [ignore] that answers [false] or throws
    exports nothing); without an error object nothing is exported.  The
    handler that the page had before is still called, once, whatever the
    [ignore] functions do. *)
Theorem unhandled_errors_reported_once_per_instrumentation :
  forall (layers : list (ExportFunction
                         * option UnhandledErrors.InstrumentUnhandledErrorsOptions))
         (before : option (nat * option JsError.Error))
         (listeners : list UnhandledErrors.Listener) (closures : nat)
         (args : UnhandledErrors.ErrorArgs) (p : UnhandledErrors.Page),
    let win := {| UnhandledErrors.onerror :=
                    option_map (fun h => UnhandledErrors.Foreign (fst h) (snd h)) before;
                  UnhandledErrors.rejectionListeners := listeners;
                  UnhandledErrors.closures := closures |} in
    let after := snd (UnhandledErrors.reportError
                        (UnhandledErrors.installAll layers win) args p) in
    List.length (exported (UnhandledErrors.world after))
    = (List.length (exported (UnhandledErrors.world p))
       + match UnhandledErrors.a_error args with
         | Some e => List.length (filter (UnhandledErrors.reports e) layers)
         | None => 0
         end)%nat
    /\ UnhandledErrors.foreignCalls after
       = UnhandledErrors.foreignCalls p
         ++ match before with
            | Some h => [(fst h, args)]
            | None => []
            end.
Proof.
  intros layers before listeners closures args p win after. subst after.
  assert (Hwin : Reporting.reportsAs win args 0
                   match before with
                   | Some h => [(fst h, args)]
                   | None => []
                   end).
  { intros q. subst win. unfold UnhandledErrors.reportError.
    cbn [UnhandledErrors.onerror]. destruct before as [[k fails] |]; cbn.
    - split; reflexivity.
    - rewrite app_nil_r. split; reflexivity. }
  destruct (@installAll_reportsAs layers args _ win 0%nat Hwin p) as [H1 H2].
  split; [rewrite H1; lia | exact H2].
Qed.
(** X29. Two instrumentations installed one after the other and removed
    in reverse order leave [window.onerror] and the rejection listeners as
    they were.  Removed in the order of installation they do not: the first
    removal finds the handler of the second in place and leaves it, and the
    second removal puts the handler of the first back, which goes on
    exporting the errors reported to the window. *)
Theorem uninstall_order_matters :
  forall (exporterA exporterB : ExportFunction)
         (optionsA optionsB : option UnhandledErrors.InstrumentUnhandledErrorsOptions)
         (win : UnhandledErrors.Window),
    let installedA := UnhandledErrors.instrumentUnhandledErrors exporterA optionsA win in
    let installedB :=
      UnhandledErrors.instrumentUnhandledErrors exporterB optionsB (fst installedA) in
    let reversed :=
      UnhandledErrors.uninstall (snd installedA)
        (UnhandledErrors.uninstall (snd installedB) (fst installedB)) in
    let inOrder :=
      UnhandledErrors.uninstall (snd installedB)
        (UnhandledErrors.uninstall (snd installedA) (fst installedB)) in
    UnhandledErrors.onerror reversed = UnhandledErrors.onerror win
    /\ (Reporting.listenersKnown win ->
        UnhandledErrors.rejectionListeners reversed = UnhandledErrors.rejectionListeners win)
    /\ UnhandledErrors.onerror inOrder
       = Some (UnhandledErrors.OnError (UnhandledErrors.closures win) exporterA optionsA
                 (UnhandledErrors.onerror win))
    /\ forall (args : UnhandledErrors.ErrorArgs) (e : JsError.Error)
              (p : UnhandledErrors.Page),
         UnhandledErrors.a_error args = Some e ->
         UnhandledErrors.reports e (exporterA, optionsA) = true ->
         (List.length (exported (UnhandledErrors.world p))
          < List.length (exported (UnhandledErrors.world
                                     (snd (UnhandledErrors.reportError inOrder args p)))))%nat.
Proof.
  intros exporterA exporterB optionsA optionsB win installedA installedB reversed inOrder.
  assert (Hin : UnhandledErrors.onerror inOrder
                = Some (UnhandledErrors.OnError (UnhandledErrors.closures win) exporterA
                          optionsA (UnhandledErrors.onerror win))).
  { subst inOrder installedB installedA. unfold UnhandledErrors.uninstall at 1.
    cbn [UnhandledErrors.onerror UnhandledErrors.instrumentUnhandledErrors fst snd
         UnhandledErrors.uninstall UnhandledErrors.u_id UnhandledErrors.u_original
         UnhandledErrors.closures].
    destruct (Nat.eqb_spec (S (UnhandledErrors.closures win)) (UnhandledErrors.closures win));
      [lia |].
    rewrite Nat.eqb_refl. reflexivity. }
  split; [| split; [| split; [exact Hin |]]].
  - subst reversed installedB installedA.
    cbn [UnhandledErrors.onerror UnhandledErrors.instrumentUnhandledErrors fst snd
         UnhandledErrors.uninstall UnhandledErrors.u_id UnhandledErrors.u_original
         UnhandledErrors.closures].
    rewrite !Nat.eqb_refl. reflexivity.
  - intros Hknown. subst reversed installedB installedA.
    cbn [UnhandledErrors.rejectionListeners UnhandledErrors.instrumentUnhandledErrors fst snd
         UnhandledErrors.uninstall UnhandledErrors.u_id UnhandledErrors.closures].
    rewrite filter_newest; [| reflexivity |].
    + apply filter_newest; [reflexivity | exact Hknown].
    + apply Forall_app. split.
      * eapply Forall_impl; [| exact Hknown]. cbn. intros l Hl. lia.
      * constructor; [cbn; lia | constructor].
  - intros args e p He Hrep. unfold UnhandledErrors.reportError. rewrite Hin.
    cbn [UnhandledErrors.callHandler]. rewrite He.
    pose proof (handleError_exports exporterA optionsA e (UnhandledErrors.world p)) as Hexp.
    rewrite Hrep in Hexp.
    destruct (UnhandledErrors.handleError exporterA optionsA e (UnhandledErrors.world p))
      as [o w]. cbn [snd] in Hexp.
    destruct (UnhandledErrors.onerror win) as [h |].
    + pose proof (callHandler_grows h args
                    {| UnhandledErrors.world := w;
                       UnhandledErrors.foreignCalls := UnhandledErrors.foreignCalls p |}) as Hg.
      destruct (UnhandledErrors.callHandler h args _) as [o' p2]. cbn [snd] in *.
      cbn [UnhandledErrors.world] in Hg. lia.
    + cbn [snd UnhandledErrors.world]. lia.
Qed.

(** ** The exporter to the collector *)

